(** * WHOOP MCP server: credential lifecycle and session multiplexing

    A shallow embedding of the TypeScript sources
    - [src/auth/token-store.ts]   (class [TokenStore], file backend)
    - [src/auth/whoop-oauth.ts]   (class [WhoopOAuthClient])
    - [src/whoop/client.ts]       (class [WhoopApiClient], token resolution)
    - the Express application     (OAuth login/callback routes, [/sse] routes)

    Asynchronous methods become computations in a state-and-exception
    monad over a [World]: the mutable state of the process (the store's
    [absolutePath] field, the [pendingStates] and [transports] maps) and of
    its surroundings (the files on disk, the log of POST requests sent).
    Everything the process merely observes (the clock, the random UUID
    generator, the provider's replies, the outcome of file-system calls,
    library functions such as [path.join] and [qs.stringify]) is collected
    in an immutable [Env]. *)

From Stdlib Require Import ZArith Ascii String List Lia.
From stdpp Require Import base option gmap strings pretty.

Local Open Scope string_scope.
Local Open Scope Z_scope.

(** ** JavaScript exceptions *)

(** [error.response.data] of a failed axios call. *)
Inductive ResponseData :=
| DataString (s : string)
| DataJson (text : string)      (* an object, given by its JSON.stringify text *)
| DataUndefined.

Inductive Exn :=
| JsError (message : string)                         (* new Error(message) *)
| ErrnoException (code message : string)             (* thrown by fs.* *)
| SyntaxError (message : string)                     (* thrown by JSON.parse *)
| AxiosError (message : string) (response : option (Z * ResponseData)).

(** [err.code]: only errno exceptions carry one. *)
Definition err_code (e : Exn) : option string :=
  match e with
  | ErrnoException code _ => Some code
  | _ => None
  end.

Definition code_is (e : Exn) (c : string) : bool :=
  match err_code e with
  | Some code => String.eqb code c
  | None => false
  end.

Definition err_message (e : Exn) : string :=
  match e with
  | JsError m | ErrnoException _ m | SyntaxError m | AxiosError m _ => m
  end.

Inductive Result (A : Type) :=
| Ok (a : A)
| Throw (e : Exn).
Arguments Ok {A} a.
Arguments Throw {A} e.

(** ** Data model *)

(** [interface TokenSet] *)
Record TokenSet := {
  accessToken : string;
  refreshToken : string;
  expiresAt : Z;            (* epoch millis *)
  scope : string;
  tokenType : string;
}.

(** [interface TokenFileContents]: the JSON object mapping account keys to
    token sets, by its own properties. *)
Abbreviation TokenFileContents := (gmap string TokenSet).

(** *** Property access on the mapping object

    The mapping is a plain object, with [Object.prototype] above it, and
    the store reaches into it with [contents[key]], [contents[key] = v]
    and [delete contents[key]], for any string [key]. *)

(** The names of the members of [Object.prototype]. *)
Definition Object_prototype : list string :=
  [ "constructor"; "__defineGetter__"; "__defineSetter__"; "hasOwnProperty";
    "__lookupGetter__"; "__lookupSetter__"; "isPrototypeOf";
    "propertyIsEnumerable"; "toString"; "valueOf"; "__proto__";
    "toLocaleString" ].

Definition inherited (key : string) : bool :=
  bool_decide (key ∈ Object_prototype).

(** What [contents[key]] evaluates to, where it is not [undefined]: the
    token set of the own property [key], or else the member of
    [Object.prototype] of that name (a function; the prototype object
    itself for [__proto__]). *)
Inductive Member :=
| Own (tokenSet : TokenSet)
| Inherited (name : string).

(** [contents[key] ?? null] *)
Definition Object_get (contents : TokenFileContents) (key : string) : option Member :=
  match contents !! key with
  | Some tokenSet => Some (Own tokenSet)
  | None => if inherited key then Some (Inherited key) else None
  end.

(** [contents[key] = tokenSet]. An own property is overwritten, and a
    missing one is created, except under the name [__proto__]: without an
    own property of that name the assignment runs the setter inherited
    from [Object.prototype], which changes the prototype of [contents] and
    none of its own properties, so that [JSON.stringify] sees the object
    as it was. (A file can hold an own property [__proto__]: [JSON.parse]
    creates it as a data property.) *)
Definition Object_set (contents : TokenFileContents) (key : string)
    (tokenSet : TokenSet) : TokenFileContents :=
  match contents !! key with
  | Some _ => <[key := tokenSet]> contents
  | None => if String.eqb key "__proto__" then contents
            else <[key := tokenSet]> contents
  end.

(** [delete contents[key]] removes the own property, if there is one. *)
Definition Object_delete (contents : TokenFileContents) (key : string)
  : TokenFileContents :=
  delete key contents.

(** The fields the code reads of a value it takes for a token set:
    [token.accessToken], [existing.refreshToken], [token.expiresAt] and
    [existing.scope]. No member of [Object.prototype] has a property of
    one of these names: the field is [undefined] there. *)
Definition accessToken_of (m : Member) : option string :=
  match m with Own t => Some (accessToken t) | Inherited _ => None end.

Definition refreshToken_of (m : Member) : option string :=
  match m with Own t => Some (refreshToken t) | Inherited _ => None end.

Definition expiresAt_of (m : Member) : option Z :=
  match m with Own t => Some (expiresAt t) | Inherited _ => None end.

Definition scope_of (m : Member) : option string :=
  match m with Own t => Some (scope t) | Inherited _ => None end.

(** The text of a file, as [JSON.parse] sees it: either the serialisation of
    a mapping object ([JSON.stringify(contents, null, 2)] produces such a
    text and [JSON.parse] gives the mapping back), or a text that
    [JSON.parse] rejects. *)
Inductive FileText :=
| JsonDoc (contents : TokenFileContents)
| Malformed.

(** A path on disk holds a regular file, or something [fs.readFile] fails on
    with the given errno code (a directory, a file without read permission);
    a path outside the map does not exist. *)
Inductive FileNode :=
| RegularFile (text : FileText)
| Unreadable (code : string).

(** [interface OAuthTokenResponse]. The field [refresh_token] is declared a
    string, but [normalizeTokenResponse] provides for its absence, so it is
    optional here. *)
Module OAuthTokenResponse.
Record t := {
  access_token : string;
  refresh_token : option string;
  expires_in : Z;           (* seconds *)
  scope : string;
  token_type : string;
}.
End OAuthTokenResponse.
Abbreviation OAuthTokenResponse := OAuthTokenResponse.t.

(** The entries of [pendingStates]. *)
Record PendingEntry := {
  key : string;
  successRedirect : option string;
}.

(** What a handler writes to [res]. *)
Inductive Response :=
| Send (status : Z) (text : string)                 (* res.status(s).send(text) *)
| JsonRpcError (status : Z) (code : Z) (message : string)
| Redirect (url : string)                           (* res.redirect(url) *)
| ByTransport (t : nat).                            (* written by a transport *)

(** ** The environment and the world *)

(** An express header value: [string | string[] | undefined]. *)
Inductive Header :=
| HAbsent
| HOne (s : string)
| HMany (l : list string).

(** The part of a request to [/sse] the handlers look at. *)
Record SseRequest := {
  authorization : Header;
  x_api_key : Header;
  mcp_session_id : Header;
  body : string;
}.

(** What a transport of the MCP SDK does with a request handed to it: it
    accepts and serves it, it refuses it with an error response of its own
    (a missing Accept header, say), or it throws ([headersSent] tells
    whether it had started a response). *)
Inductive SdkOutcome :=
| SdkAccepts
| SdkRejects
| SdkThrows (e : Exn) (headersSent : bool).

Record Env := {
  (* time and randomness: the value returned by the n-th call *)
  Date_now : nat → Z;
  randomUUID : nat → string;
  (* the provider: the outcome of the n-th POST, given its url and body *)
  provider : nat → string → string → Result OAuthTokenResponse;
  (* the file system: the error of mkdir / writeFile at a path, if any, the
     same throughout a run; no other process writes the files *)
  mkdir_error : string → option Exn;
  writeFile_error : string → option Exn;
  (* node library functions *)
  os_tmpdir : string;
  path_resolve : string → string;
  path_dirname : string → string;
  path_basename : string → string;
  path_join : string → string → string;
  qs_stringify : list (string * string) → string;
  (* the MCP SDK *)
  isInitializeRequest : string → bool;
  sdk_connect_error : nat → option Exn;
  sdk_handleRequest : nat → SseRequest → SdkOutcome;
}.

Record World := {
  (* TokenStore *)
  absolutePath : string;
  files : gmap string FileNode;
  (* calls made so far *)
  clockReads : nat;
  uuidDraws : nat;
  posts : list (string * string);
  (* the server's module-level maps *)
  pendingStates : gmap string PendingEntry;
  transports : gmap string nat;
  (* transport objects: how many were constructed, which have a session id,
     which have reported closure *)
  transportsCreated : nat;
  sessionIdOf : gmap nat string;
  closedTransports : gset nat;
  (* the response object of the request being handled: [None] until
     something is sent *)
  res : option Response;
}.

Definition with_absolutePath (p : string) (w : World) : World :=
  {| absolutePath := p; files := files w; clockReads := clockReads w;
     uuidDraws := uuidDraws w; posts := posts w;
     pendingStates := pendingStates w; transports := transports w;
     transportsCreated := transportsCreated w; sessionIdOf := sessionIdOf w;
     closedTransports := closedTransports w; res := res w |}.

Definition with_files (f : gmap string FileNode) (w : World) : World :=
  {| absolutePath := absolutePath w; files := f; clockReads := clockReads w;
     uuidDraws := uuidDraws w; posts := posts w;
     pendingStates := pendingStates w; transports := transports w;
     transportsCreated := transportsCreated w; sessionIdOf := sessionIdOf w;
     closedTransports := closedTransports w; res := res w |}.

Definition with_clockReads (n : nat) (w : World) : World :=
  {| absolutePath := absolutePath w; files := files w; clockReads := n;
     uuidDraws := uuidDraws w; posts := posts w;
     pendingStates := pendingStates w; transports := transports w;
     transportsCreated := transportsCreated w; sessionIdOf := sessionIdOf w;
     closedTransports := closedTransports w; res := res w |}.

Definition with_uuidDraws (n : nat) (w : World) : World :=
  {| absolutePath := absolutePath w; files := files w;
     clockReads := clockReads w; uuidDraws := n; posts := posts w;
     pendingStates := pendingStates w; transports := transports w;
     transportsCreated := transportsCreated w; sessionIdOf := sessionIdOf w;
     closedTransports := closedTransports w; res := res w |}.

Definition with_posts (l : list (string * string)) (w : World) : World :=
  {| absolutePath := absolutePath w; files := files w;
     clockReads := clockReads w; uuidDraws := uuidDraws w; posts := l;
     pendingStates := pendingStates w; transports := transports w;
     transportsCreated := transportsCreated w; sessionIdOf := sessionIdOf w;
     closedTransports := closedTransports w; res := res w |}.

Definition with_pendingStates (m : gmap string PendingEntry) (w : World) : World :=
  {| absolutePath := absolutePath w; files := files w;
     clockReads := clockReads w; uuidDraws := uuidDraws w; posts := posts w;
     pendingStates := m; transports := transports w;
     transportsCreated := transportsCreated w; sessionIdOf := sessionIdOf w;
     closedTransports := closedTransports w; res := res w |}.

Definition with_transports (m : gmap string nat) (w : World) : World :=
  {| absolutePath := absolutePath w; files := files w;
     clockReads := clockReads w; uuidDraws := uuidDraws w; posts := posts w;
     pendingStates := pendingStates w; transports := m;
     transportsCreated := transportsCreated w; sessionIdOf := sessionIdOf w;
     closedTransports := closedTransports w; res := res w |}.

Definition with_transportsCreated (n : nat) (w : World) : World :=
  {| absolutePath := absolutePath w; files := files w;
     clockReads := clockReads w; uuidDraws := uuidDraws w; posts := posts w;
     pendingStates := pendingStates w; transports := transports w;
     transportsCreated := n; sessionIdOf := sessionIdOf w;
     closedTransports := closedTransports w; res := res w |}.

Definition with_sessionIdOf (m : gmap nat string) (w : World) : World :=
  {| absolutePath := absolutePath w; files := files w;
     clockReads := clockReads w; uuidDraws := uuidDraws w; posts := posts w;
     pendingStates := pendingStates w; transports := transports w;
     transportsCreated := transportsCreated w; sessionIdOf := m;
     closedTransports := closedTransports w; res := res w |}.

Definition with_closedTransports (s : gset nat) (w : World) : World :=
  {| absolutePath := absolutePath w; files := files w;
     clockReads := clockReads w; uuidDraws := uuidDraws w; posts := posts w;
     pendingStates := pendingStates w; transports := transports w;
     transportsCreated := transportsCreated w; sessionIdOf := sessionIdOf w;
     closedTransports := s; res := res w |}.

Definition with_res (r : option Response) (w : World) : World :=
  {| absolutePath := absolutePath w; files := files w;
     clockReads := clockReads w; uuidDraws := uuidDraws w; posts := posts w;
     pendingStates := pendingStates w; transports := transports w;
     transportsCreated := transportsCreated w; sessionIdOf := sessionIdOf w;
     closedTransports := closedTransports w; res := r |}.

(** ** The monad of asynchronous computations *)

Definition M (A : Type) : Type := World → Result A * World.

Definition ret {A} (a : A) : M A := fun w => (Ok a, w).

Definition throw {A} (e : Exn) : M A := fun w => (Throw e, w).

Definition bind {A B} (m : M A) (k : A → M B) : M B :=
  fun w =>
    match m w with
    | (Ok a, w') => k a w'
    | (Throw e, w') => (Throw e, w')
    end.

(** [try { m } catch (error) { h error }]: what [m] did to the world before
    it threw stays done. *)
Definition try_catch {A} (m : M A) (h : Exn → M A) : M A :=
  fun w =>
    match m w with
    | (Ok a, w') => (Ok a, w')
    | (Throw e, w') => h e w'
    end.

Definition gets {A} (f : World → A) : M A := fun w => (Ok (f w), w).

Definition modify (f : World → World) : M unit := fun w => (Ok tt, f w).

Notation "'let*' x ':=' m 'in' k" := (bind m (fun x => k))
  (at level 10, x name, m at level 100, k at level 200).
Notation "m ';;' k" := (bind m (fun _ => k))
  (at level 100, k at level 200, right associativity).

(** ** [class TokenStore] (file backend)

    The parameter [key], which defaults to ['default'] in the source, is
    explicit here. *)

Module TokenStore.
Section TokenStore.
Context (env : Env).

(** [fs.mkdir(dir, { recursive: true })] *)
Definition fs_mkdir (dir : string) : M unit :=
  match mkdir_error env dir with
  | Some e => throw e
  | None => ret tt
  end.

(** [fs.readFile(path, 'utf-8')] *)
Definition fs_readFile (path : string) : M FileText :=
  let* fs := gets files in
  match fs !! path with
  | Some (RegularFile text) => ret text
  | Some (Unreadable code) => throw (ErrnoException code "read failed")
  | None => throw (ErrnoException "ENOENT" "no such file or directory")
  end.

(** [fs.writeFile(path, text, 'utf-8')] *)
Definition fs_writeFile (path : string) (text : FileText) : M unit :=
  match writeFile_error env path with
  | Some e => throw e
  | None => modify (fun w => with_files (<[path := RegularFile text]> (files w)) w)
  end.

Definition JSON_parse (raw : FileText) : M TokenFileContents :=
  match raw with
  | JsonDoc contents => ret contents
  | Malformed => throw (SyntaxError "Unexpected token in JSON")
  end.

Definition JSON_stringify (contents : TokenFileContents) : FileText :=
  JsonDoc contents.

Definition ensureDir : M unit :=
  let* p := gets absolutePath in
  let dir := path_dirname env p in
  try_catch (fs_mkdir dir) (fun err =>
    if (code_is err "ENOENT" || code_is err "EROFS" || code_is err "EACCES")
       && negb (String.prefix (os_tmpdir env) p)
    then
      let fallbackDir := path_join env (os_tmpdir env) "whoop-tokens" in
      modify (with_absolutePath (path_join env fallbackDir (path_basename env p))) ;;
      fs_mkdir fallbackDir
    else throw err).

Definition readFile : M TokenFileContents :=
  try_catch
    (let* p := gets absolutePath in
     let* raw := fs_readFile p in
     JSON_parse raw)
    (fun error =>
       if code_is error "ENOENT" then ret ∅ else throw error).

Definition writeFile (contents : TokenFileContents) : M unit :=
  ensureDir ;;
  let* p := gets absolutePath in
  fs_writeFile p (JSON_stringify contents).

Definition get (key : string) : M (option Member) :=
  let* contents := readFile in
  ret (Object_get contents key).

Definition set (tokenSet : TokenSet) (key : string) : M unit :=
  let* contents := readFile in
  writeFile (Object_set contents key tokenSet).

Definition clear (key : string) : M unit :=
  let* contents := readFile in
  writeFile (Object_delete contents key).

End TokenStore.
End TokenStore.

(** ** Configuration ([config.ts]) *)

Record Config := {
  baseUrl : string;
  apiKey : option string;            (* config.mcp.apiKey *)
  clientId : string;
  clientSecret : string;
  redirectPath : string;
  defaultScopes : list string;
  tokenStorePath : string;
}.

Definition redirectUri (cfg : Config) : string :=
  baseUrl cfg +:+ redirectPath cfg.

(** ** [class WhoopOAuthClient]

    Parameters that default to ['default'] or to [redirectUri] in the source
    are explicit here; [maybeLogOAuthResponse] only writes to the console
    and is left out. *)

(** [interface AuthorizationUrlParams] (the field [key] is never read). *)
Record AuthorizationUrlParams := {
  state : option string;
  scopes : option (list string);
  redirect : option string;
}.

(** [qs.stringify] leaves out the properties whose value is [undefined]:
    the properties of an object that it writes. *)
Definition defined (properties : list (string * option string))
  : list (string * string) :=
  omap (fun p => pair (fst p) <$> snd p) properties.

Module WhoopOAuthClient.
Section WhoopOAuthClient.
Context (env : Env) (cfg : Config).

Definition authorizeUrl : string := "https://api.prod.whoop.com/oauth/oauth2/auth".
Definition tokenUrl : string := "https://api.prod.whoop.com/oauth/oauth2/token".

(** [crypto.randomUUID()] *)
Definition crypto_randomUUID : M string :=
  fun w => (Ok (randomUUID env (uuidDraws w)), with_uuidDraws (S (uuidDraws w)) w).

(** [Date.now()] *)
Definition now : M Z :=
  fun w => (Ok (Date_now env (clockReads w)), with_clockReads (S (clockReads w)) w).

(** [axios.post(url, body, ...)], resolved to [response.data]; axios
    throws when the request fails or the status is not 2xx. *)
Definition axios_post (url body : string) : M OAuthTokenResponse :=
  fun w => (provider env (length (posts w)) url body,
            with_posts (posts w ++ [(url, body)]) w).

Definition buildAuthorizationUrl (params : AuthorizationUrlParams)
  : M (string * string) :=
  let* state := match state params with
                | Some s => ret s
                | None => crypto_randomUUID
                end in
  let scopes := default (defaultScopes cfg) (scopes params) in
  let redirect := default (redirectUri cfg) (redirect params) in
  let query := qs_stringify env
    [ ("client_id", clientId cfg);
      ("redirect_uri", redirect);
      ("response_type", "code");
      ("scope", String.concat " " scopes);
      ("state", state) ] in
  ret (authorizeUrl +:+ "?" +:+ query, state).

(** [previous] is what [refreshToken] got from the store. *)
Definition normalizeTokenResponse (data : OAuthTokenResponse)
    (previous : option Member) : M TokenSet :=
  let* t := now in
  let expiresAt := t + OAuthTokenResponse.expires_in data * 1000 - 60000 in
  ret {| accessToken := OAuthTokenResponse.access_token data;
         refreshToken :=
           match OAuthTokenResponse.refresh_token data with
           | Some r => r
           | None => match previous ≫= refreshToken_of with
                     | Some r => r
                     | None => ""
                     end
           end;
         expiresAt := expiresAt;
         scope := OAuthTokenResponse.scope data;
         tokenType := OAuthTokenResponse.token_type data |}.

(** The [body] of [exchangeCode]. *)
Definition exchangeCode_body (code redirect : string) : string :=
  qs_stringify env
    [ ("grant_type", "authorization_code");
      ("code", code);
      ("redirect_uri", redirect);
      ("client_id", clientId cfg);
      ("client_secret", clientSecret cfg) ].

Definition exchangeCode (code key redirect : string) : M TokenSet :=
  let body := exchangeCode_body code redirect in
  let* data := axios_post tokenUrl body in
  let* tokenSet := normalizeTokenResponse data None in
  TokenStore.set env tokenSet key ;;
  ret tokenSet.

(** The [body] of [refreshToken]. *)
Definition refreshToken_body (existing : Member) : string :=
  qs_stringify env (defined
    [ ("grant_type", Some "refresh_token");
      ("refresh_token", refreshToken_of existing);
      ("client_id", Some (clientId cfg));
      ("client_secret", Some (clientSecret cfg));
      ("redirect_uri", Some (redirectUri cfg));
      ("scope", scope_of existing) ]).

Definition NoCredentialError : Exn := JsError "No stored WHOOP refresh token".

(** The parameter [redirect] of the source is never used. *)
Definition refreshToken (key : string) : M TokenSet :=
  let* existing := TokenStore.get key in
  match existing with
  | None => throw NoCredentialError
  | Some existing =>
      let body := refreshToken_body existing in
      let* data := axios_post tokenUrl body in
      let* tokenSet := normalizeTokenResponse data (Some existing) in
      TokenStore.set env tokenSet key ;;
      ret tokenSet
  end.

End WhoopOAuthClient.
End WhoopOAuthClient.

(** ** [class WhoopApiClient]: token resolution *)

Module WhoopApiClient.
Section WhoopApiClient.
Context (env : Env) (cfg : Config).

Definition NotAuthorizedError : Exn :=
  JsError "No WHOOP token available. Complete the OAuth flow first.".

(** The result is a string, or [undefined] ([None]) where the value that
    the store returned has no field [accessToken]. A comparison with
    [undefined] is false. *)
Definition getAccessToken (key : string) : M (option string) :=
  let* token := TokenStore.get key in
  match token with
  | None => throw NotAuthorizedError
  | Some token =>
      let* t := WhoopOAuthClient.now env in
      if match expiresAt_of token with
         | Some expiresAt => expiresAt <=? t
         | None => false
         end
      then
        let* refreshed := WhoopOAuthClient.refreshToken env cfg key in
        ret (Some (accessToken refreshed))
      else ret (accessToken_of token)
  end.

End WhoopApiClient.
End WhoopApiClient.

(** ** [parseHttpError] ([utils/http-error.ts]) *)

Record ToolErrorInfo := {
  status : option Z;
  message : string;
}.

Definition parseHttpError (error : Exn) : ToolErrorInfo :=
  match error with
  | AxiosError m response =>
      let status := fst <$> response in
      let detail := match snd <$> response with
                    | Some (DataString s) => s
                    | Some (DataJson text) => text
                    | Some DataUndefined | None => "{}"
                    end in
      let message := if String.eqb m "" then "HTTP request failed" else m in
      match status with
      | Some st =>
          if st =? 0 then {| status := None; message := message |}
          else {| status := Some st;
                  message := message +:+ " (status " +:+ pretty st +:+ ") - " +:+ detail |}
      | None => {| status := None; message := message |}
      end
  | _ => {| status := None; message := err_message error |}
  end.

(** ** The Express application *)

(** A value of [req.query]: a string, absent, or an array or object. *)
Inductive QueryVal :=
| QAbsent
| QString (s : string)
| QOther.

(** [s.split(',')] *)
Fixpoint split_on (sep : ascii) (s : string) : list string :=
  match s with
  | EmptyString => [""]
  | String c r =>
      if Ascii.eqb c sep then "" :: split_on sep r
      else match split_on sep r with
           | h :: t => String c h :: t
           | [] => [String c ""]
           end
  end.

(** [s.trim()] on strings of ASCII characters. Of the characters that
    [String.prototype.trim] strips, the ASCII ones are the codes 9 to 13
    and 32; the others (U+00A0, U+1680, U+2000 to U+200A, U+2028, U+2029,
    U+202F, U+205F, U+3000 and U+FEFF) are outside ASCII and are not
    stripped here. *)
Definition is_space (c : ascii) : bool :=
  let n := nat_of_ascii c in
  (Nat.eqb n 32 || (Nat.leb 9 n && Nat.leb n 13))%bool.

Fixpoint trimStart (s : string) : string :=
  match s with
  | String c r => if is_space c then trimStart r else s
  | EmptyString => ""
  end.

Fixpoint trimEnd (s : string) : string :=
  match s with
  | EmptyString => ""
  | String c r =>
      match trimEnd r with
      | EmptyString => if is_space c then "" else String c ""
      | r' => String c r'
      end
  end.

Definition trim (s : string) : string := trimEnd (trimStart s).

(** JavaScript truthiness of a string, and of [string | undefined]. *)
Definition Boolean (s : string) : bool := negb (String.eqb s "").

Definition truthy (o : option string) : bool :=
  match o with
  | Some s => Boolean s
  | None => false
  end.

(** [Array.isArray(h) ? h[0] : h] *)
Definition header_first (h : Header) : option string :=
  match h with
  | HAbsent => None
  | HOne s => Some s
  | HMany l => head l
  end.

Module Server.
Section Server.
Context (env : Env) (cfg : Config).

(** [res.send], [res.json], [res.redirect] *)
Definition respond (r : Response) : M unit :=
  modify (with_res (Some r)).

(** [res.headersSent] *)
Definition headersSent : M bool :=
  gets (fun w => bool_decide (is_Some (res w))).

Definition Unauthorized : Response :=
  JsonRpcError 401 (-32600) "Unauthorized: missing or invalid API key.".

Definition validateApiKey (req : SseRequest) : M bool :=
  match apiKey cfg with
  | None => ret true
  | Some expected =>
      if negb (Boolean expected) then ret true
      else
        let apiKeyHeader := header_first (authorization req) in
        let alt := header_first (x_api_key req) in
        let provided :=
          match apiKeyHeader with
          | Some h =>
              if String.prefix "Bearer " h
              then Some (substring 7 (String.length h - 7) h)
              else Some h
          | None => alt
          end in
        if bool_decide (provided = Some expected) then ret true
        else respond Unauthorized ;; ret false
  end.

(** *** OAuth routes *)

(** [GET /oauth/whoop/login] *)
Definition login (q_key q_next q_scopes : QueryVal) : M unit :=
  try_catch
    (let key := match q_key with QString s => s | _ => "default" end in
     let successRedirect := match q_next with QString s => Some s | _ => None end in
     let scopes :=
       match q_scopes with
       | QString s => Some (filter (fun x => Is_true (Boolean x))
                              (trim <$> split_on "," s))
       | _ => None
       end in
     let* us := WhoopOAuthClient.buildAuthorizationUrl env cfg
                  {| state := None; scopes := scopes; redirect := None |} in
     modify (fun w => with_pendingStates
               (<[snd us := {| key := key; successRedirect := successRedirect |}]>
                  (pendingStates w)) w) ;;
     respond (Redirect (fst us)))
    (fun error =>
       respond (Send 500 ("Failed to initiate WHOOP OAuth flow: "
                          +:+ message (parseHttpError error)))).

Definition UnknownOrExpiredState : Response :=
  Send 400 "Unknown or expired OAuth state.".

(** [GET config.whoop.redirectPath] *)
Definition callback (q_code q_state : QueryVal) : M unit :=
  match q_code, q_state with
  | QString code, QString state =>
      let* entry := gets (fun w => pendingStates w !! state) in
      match entry with
      | None => respond UnknownOrExpiredState
      | Some entry =>
          try_catch
            (WhoopOAuthClient.exchangeCode env cfg code (key entry) (redirectUri cfg) ;;
             modify (fun w => with_pendingStates (delete state (pendingStates w)) w) ;;
             if truthy (successRedirect entry)
             then respond (Redirect (default "" (successRedirect entry)))
             else respond (Send 200 "WHOOP authorization successful. You can close this window."))
            (fun error =>
               respond (Send 500 ("Failed to exchange WHOOP authorization code: "
                                  +:+ message (parseHttpError error))))
      end
  | _, _ => respond (Send 400 "Missing OAuth code or state.")
  end.

(** *** The MCP SDK, as far as the application relies on it

    The SDK is an external library. A transport is an object, identified
    here by the order of its construction. Constructed with a
    [sessionIdGenerator] and an [onsessioninitialized] callback, it
    answers requests itself; when it accepts an initialization request
    and has no session yet, it calls [sessionIdGenerator] for its session
    id and then [onsessioninitialized] with that id. *)

(** [new StreamableHTTPServerTransport({...})] *)
Definition new_transport : M nat :=
  fun w => (Ok (transportsCreated w),
            with_transportsCreated (S (transportsCreated w)) w).

(** [server.connect(transport)] *)
Definition server_connect (t : nat) : M unit :=
  match sdk_connect_error env t with
  | Some e => throw e
  | None => ret tt
  end.

(** [transport.handleRequest(req, res, body)], for a transport constructed
    with [sessionIdGenerator] and [onsessioninitialized] as given. *)
Definition transport_handleRequest (sessionIdGenerator : M string)
    (onsessioninitialized : string → M unit)
    (t : nat) (req : SseRequest) (body : option string) : M unit :=
  match sdk_handleRequest env t req with
  | SdkThrows e sent =>
      (if sent then respond (ByTransport t) else ret tt) ;;
      throw e
  | SdkRejects => respond (ByTransport t)
  | SdkAccepts =>
      let* sid := gets (fun w => sessionIdOf w !! t) in
      (match body, sid with
       | Some b, None =>
           if isInitializeRequest env b then
             let* newSessionId := sessionIdGenerator in
             modify (fun w => with_sessionIdOf (<[t := newSessionId]> (sessionIdOf w)) w) ;;
             onsessioninitialized newSessionId
           else ret tt
       | _, _ => ret tt
       end) ;;
      respond (ByTransport t)
  end.

(** The transport reports closure. [server.connect] installs the SDK's own
    [onclose] handler on the transport; the application installs none. *)
Definition transport_closed (t : nat) : M unit :=
  modify (fun w => with_closedTransports ({[t]} ∪ closedTransports w) w).

(** *** MCP routes *)

Definition MissingSessionError : Response :=
  JsonRpcError 400 (-32000) "Missing MCP session ID.".

Definition UnknownSessionError (sessionId : string) : Response :=
  JsonRpcError 404 (-32001) ("Unknown MCP session: " +:+ sessionId).

(** The callbacks the application gives to every transport it constructs. *)
Definition sessionIdGenerator : M string :=
  WhoopOAuthClient.crypto_randomUUID env.

Definition onsessioninitialized (transport : nat) (newSessionId : string) : M unit :=
  modify (fun w => with_transports (<[newSessionId := transport]> (transports w)) w).

(** [transport.handleRequest] of a transport found in [transports]: it was
    constructed by the application, with the callbacks above. *)
Definition handleRequest (t : nat) (req : SseRequest) (body : option string) : M unit :=
  transport_handleRequest sessionIdGenerator (onsessioninitialized t) t req body.

(** [POST /sse] *)
Definition post_sse (req : SseRequest) : M unit :=
  let* ok := validateApiKey req in
  if negb ok then ret tt
  else
    let sessionId := header_first (mcp_session_id req) in
    try_catch
      (if negb (truthy sessionId) && isInitializeRequest env (body req) then
         let* transport := new_transport in
         server_connect transport ;;
         handleRequest transport req (Some (body req))
       else if negb (truthy sessionId) then
         respond MissingSessionError
       else
         let id := default "" sessionId in
         let* existing := gets (fun w => transports w !! id) in
         match existing with
         | None => respond (UnknownSessionError id)
         | Some existing => handleRequest existing req (Some (body req))
         end)
      (fun error =>
         let* sent := headersSent in
         if negb sent
         then respond (JsonRpcError 500 (-32603) (message (parseHttpError error)))
         else ret tt).

(** [GET /sse] *)
Definition get_sse (req : SseRequest) : M unit :=
  let* ok := validateApiKey req in
  if negb ok then ret tt
  else
    let sessionId := header_first (mcp_session_id req) in
    if negb (truthy sessionId) then respond (Send 400 "Missing MCP session ID.")
    else
      let id := default "" sessionId in
      let* transport := gets (fun w => transports w !! id) in
      match transport with
      | None => respond (Send 404 ("Unknown MCP session: " +:+ id))
      | Some transport =>
          try_catch (handleRequest transport req None)
            (fun error =>
               let* sent := headersSent in
               if negb sent
               then respond (Send 500 ("Failed to establish SSE stream: "
                                       +:+ message (parseHttpError error)))
               else ret tt)
      end.

End Server.
End Server.

(** ** The process as a whole *)

Inductive Event :=
| GetLogin (q_key q_next q_scopes : QueryVal)
| GetCallback (q_code q_state : QueryVal)
| PostSse (req : SseRequest)
| GetSse (req : SseRequest)
| TransportClosed (t : nat).

(** Operations on the credential store. *)
Inductive StoreOp :=
| OpGet (key : string)
| OpSet (tokenSet : TokenSet) (key : string)
| OpClear (key : string).

Definition op_key (op : StoreOp) : string :=
  match op with
  | OpGet k | OpSet _ k | OpClear k => k
  end.

Section Process.
Context (env : Env) (cfg : Config).

Definition handle (ev : Event) : M unit :=
  match ev with
  | GetLogin k n s => Server.login env cfg k n s
  | GetCallback c s => Server.callback env cfg c s
  | PostSse req => Server.post_sse env cfg req
  | GetSse req => Server.get_sse env cfg req
  | TransportClosed t => Server.transport_closed t
  end.

(** Every request comes with a response object of its own. A handler runs
    to its end before the next event is taken up: interleavings of handlers
    at their [await]s are not part of this model. *)
Definition step (w : World) (ev : Event) : World :=
  snd (handle ev (with_res None w)).

Definition run (evs : list Event) (w : World) : World :=
  fold_left step evs w.

(** The world when the process starts, over the given disk:
    [new TokenStore(config.whoop.tokenStorePath)], empty maps. *)
Definition initial (disk : gmap string FileNode) : World :=
  {| absolutePath := path_resolve env (tokenStorePath cfg);
     files := disk; clockReads := 0; uuidDraws := 0; posts := [];
     pendingStates := ∅; transports := ∅; transportsCreated := 0;
     sessionIdOf := ∅; closedTransports := ∅; res := None |}.

Definition reachable (w : World) : Prop :=
  ∃ disk evs, w = run evs (initial disk).

Definition store_op (op : StoreOp) (w : World) : World :=
  match op with
  | OpGet k => snd (TokenStore.get k w)
  | OpSet r k => snd (TokenStore.set env r k w)
  | OpClear k => snd (TokenStore.clear env k w)
  end.

Definition store_ops (ops : list StoreOp) (w : World) : World :=
  fold_left (fun w op => store_op op w) ops w.

End Process.

(** * More of the code

    The rest of [src/whoop/client.ts] (the requests to the WHOOP API),
    [config.ts], the health check, the log of OAuth responses, the choice of
    the record of today in [src/whoop/metrics.ts], and the two other
    versions of [token-store.ts]: the later one with its Supabase backend,
    and the earlier one without a fall-back. *)

(** ** Scope lists: [s.split(',').map((scope) => scope.trim()).filter(Boolean)]

    The expression is used by the login route, on the query parameter
    [scopes], and by [config.ts], on the variable [WHOOP_SCOPES]. *)
Definition parseScopes (s : string) : list string :=
  filter (fun x => Is_true (Boolean x)) (trim <$> split_on "," s).

(** ** [config.ts]

    [process.env], after [dotenv.config()], is a map from names to strings,
    and the object [config] is computed from it when the module is loaded;
    [required] may throw then. The fields [port] and [host], which the
    application modelled here does not read, are left out. *)

Definition required (value : option string) (name : string) : Result string :=
  if negb (truthy value)
  then Throw (JsError ("Missing required environment variable " +:+ name))
  else Ok (default "" value).

Definition config (process_env : gmap string string) : Result Config :=
  match required (process_env !! "PUBLIC_BASE_URL") "PUBLIC_BASE_URL" with
  | Throw e => Throw e
  | Ok baseUrl =>
  match required (process_env !! "WHOOP_CLIENT_ID") "WHOOP_CLIENT_ID" with
  | Throw e => Throw e
  | Ok clientId =>
  match required (process_env !! "WHOOP_CLIENT_SECRET") "WHOOP_CLIENT_SECRET" with
  | Throw e => Throw e
  | Ok clientSecret =>
      Ok {| baseUrl := baseUrl;
            apiKey := process_env !! "MCP_API_KEY";
            clientId := clientId;
            clientSecret := clientSecret;
            redirectPath :=
              default "/oauth/whoop/callback" (process_env !! "WHOOP_REDIRECT_PATH");
            defaultScopes :=
              default ["read:sleep"; "read:cycles"; "read:profile"]
                (parseScopes <$> process_env !! "WHOOP_SCOPES");
            tokenStorePath :=
              default "./data/whoop-tokens.json" (process_env !! "TOKEN_STORE_PATH") |}
  end end end.

(** ** [GET /healthz] *)

(** The JSON body of the answer: [{ status: 'ok', hasToken }] with status
    200, or [{ status: 'error', message }] with status 500. The handler is
    given as the computation of this answer. *)
Inductive HealthReply :=
| HealthOk (hasToken : bool)
| HealthError (message : string).

Definition healthz : M HealthReply :=
  try_catch
    (let* token := TokenStore.get "default" in
     ret (HealthOk (bool_decide (is_Some token))))
    (fun error => ret (HealthError (message (parseHttpError error)))).

(** ** [maybeLogOAuthResponse]: what is written to the log

    Tokens are taken to be ASCII, so that [length] and [slice] count
    characters; the ellipsis is the one character U+2026. *)



(** The object given to [console.info]. *)
Module OAuthLogEntry.
Record t := {
  stage : string;
  accessToken : option string;
  refreshToken : option string;
  expiresIn : Z;
  scope : string;
  tokenType : string;
}.
End OAuthLogEntry.


(** ** [class WhoopApiClient]: requests to the WHOOP API *)

Module Api.

(** [interface PaginatedQueryParams] *)
Record PaginatedQueryParams := {
  limit : option Z;
  start : option string;
  end_ : option string;
  nextToken : option string;
}.

(** [AxiosRequestConfig], as far as it is used: [headers] is an object from
    header names to values. *)
Record RequestConfig := {
  method : string;
  url : string;
  params : option PaginatedQueryParams;
  headers : option (gmap string string);
}.

(** The world together with the requests the axios instance [http] has
    sent, oldest first. *)
Record ApiWorld := {
  world : World;
  requests : list RequestConfig;
}.

Definition MA (A : Type) : Type := ApiWorld → Result A * ApiWorld.

Definition retA {A} (a : A) : MA A := fun s => (Ok a, s).

Definition bindA {A B} (m : MA A) (k : A → MA B) : MA B :=
  fun s =>
    match m s with
    | (Ok a, s') => k a s'
    | (Throw e, s') => (Throw e, s')
    end.

(** A computation over the world, run in the client. *)
Definition liftA {A} (m : M A) : MA A :=
  fun s =>
    let '(r, w') := m (world s) in
    (r, {| world := w'; requests := requests s |}).

Definition WHOOP_API_BASE_URL : string := "https://api.prod.whoop.com/developer".

Section WhoopApiClient.
Context (env : Env) (cfg : Config).
(** The WHOOP API: the outcome of the n-th request, resolved to
    [response.data]; axios throws when the request fails. *)
Context {Data : Type} (whoop_api : nat → RequestConfig → Result Data).

(** [this.http.request(config)], resolved to [response.data] *)
Definition http_request (config : RequestConfig) : MA Data :=
  fun s => (whoop_api (length (requests s)) config,
            {| world := world s; requests := requests s ++ [config] |}).

(** A template literal writes [undefined] as the text "undefined". *)
Definition template (value : option string) : string :=
  default "undefined" value.

Definition request (config : RequestConfig) (key : string) : MA Data :=
  bindA (liftA (WhoopApiClient.getAccessToken env cfg key)) (fun accessToken =>
  bindA (http_request
           {| method := method config;
              url := url config;
              params := params config;
              headers := Some (<["Authorization" := "Bearer " +:+ template accessToken]>
                                 (default ∅ (headers config))) |}) (fun data =>
  retA data)).

Definition normalizePaginatedParams (p : PaginatedQueryParams) : PaginatedQueryParams :=
  {| limit := limit p; start := start p; end_ := end_ p; nextToken := nextToken p |}.

Definition getBasicProfile (key : string) : MA Data :=
  request {| method := "GET"; url := "/v2/user/profile/basic";
             params := None; headers := None |} key.

Definition getBodyMeasurements (key : string) : MA Data :=
  request {| method := "GET"; url := "/v2/user/measurement/body";
             params := None; headers := None |} key.

Definition listSleep (p : PaginatedQueryParams) (key : string) : MA Data :=
  request {| method := "GET"; url := "/v2/activity/sleep";
             params := Some (normalizePaginatedParams p); headers := None |} key.

Definition getSleepById (id : string) (key : string) : MA Data :=
  request {| method := "GET"; url := ("/v2/activity/sleep/" +:+ id);
             params := None; headers := None |} key.

Definition listRecoveries (p : PaginatedQueryParams) (key : string) : MA Data :=
  request {| method := "GET"; url := "/v2/recovery";
             params := Some (normalizePaginatedParams p); headers := None |} key.

(** Numbers in paths are integers, written in decimal. *)
Definition getRecoveryForCycle (cycleId : Z) (key : string) : MA Data :=
  request {| method := "GET"; url := ("/v2/cycle/" +:+ pretty cycleId +:+ "/recovery");
             params := None; headers := None |} key.

Definition listWorkouts (p : PaginatedQueryParams) (key : string) : MA Data :=
  request {| method := "GET"; url := "/v2/activity/workout";
             params := Some (normalizePaginatedParams p); headers := None |} key.

Definition getWorkoutById (id : string) (key : string) : MA Data :=
  request {| method := "GET"; url := ("/v2/activity/workout/" +:+ id);
             params := None; headers := None |} key.

Definition listCycles (p : PaginatedQueryParams) (key : string) : MA Data :=
  request {| method := "GET"; url := "/v2/cycle";
             params := Some (normalizePaginatedParams p); headers := None |} key.

Definition getCycleById (id : Z) (key : string) : MA Data :=
  request {| method := "GET"; url := ("/v2/cycle/" +:+ pretty id);
             params := None; headers := None |} key.

Definition getSleepForCycle (cycleId : Z) (key : string) : MA Data :=
  request {| method := "GET"; url := ("/v2/cycle/" +:+ pretty cycleId +:+ "/sleep");
             params := None; headers := None |} key.

End WhoopApiClient.

(** The public methods of the client, with their arguments. *)
Inductive Method :=
| GetBasicProfile
| GetBodyMeasurements
| ListSleep (p : PaginatedQueryParams)
| GetSleepById (id : string)
| ListRecoveries (p : PaginatedQueryParams)
| GetRecoveryForCycle (cycleId : Z)
| ListWorkouts (p : PaginatedQueryParams)
| GetWorkoutById (id : string)
| ListCycles (p : PaginatedQueryParams)
| GetCycleById (id : Z)
| GetSleepForCycle (cycleId : Z).

Definition call (env : Env) (cfg : Config) {Data : Type}
    (whoop_api : nat → RequestConfig → Result Data)
    (m : Method) (key : string) : MA Data :=
  match m with
  | GetBasicProfile => getBasicProfile env cfg whoop_api key
  | GetBodyMeasurements => getBodyMeasurements env cfg whoop_api key
  | ListSleep p => listSleep env cfg whoop_api p key
  | GetSleepById id => getSleepById env cfg whoop_api id key
  | ListRecoveries p => listRecoveries env cfg whoop_api p key
  | GetRecoveryForCycle c => getRecoveryForCycle env cfg whoop_api c key
  | ListWorkouts p => listWorkouts env cfg whoop_api p key
  | GetWorkoutById id => getWorkoutById env cfg whoop_api id key
  | ListCycles p => listCycles env cfg whoop_api p key
  | GetCycleById id => getCycleById env cfg whoop_api id key
  | GetSleepForCycle c => getSleepForCycle env cfg whoop_api c key
  end.

End Api.

(** ** The store with two backends (the later [token-store.ts])

    [class FileTokenStore] of that file is, line for line, the class
    [TokenStore] embedded above. *)

Module Supabase.

(** The remote table service: the rows, by table and key (the column [key]
    is the conflict target of [upsert], so a key has at most one row), and
    the number of queries made. *)
Record Remote := {
  rows : gmap (string * string) TokenSet;
  queries : nat;
}.

Definition MR (A : Type) : Type := Remote → Result A * Remote.

(** [class SupabaseTokenStore], after its constructor. *)
Record SupabaseTokenStore := {
  table : string;
  keyPrefix : option string;
}.

(** [constructor(factory, table, keyPrefix?)] *)
Definition new_SupabaseTokenStore (table : string) (keyPrefix : option string)
  : SupabaseTokenStore :=
  {| table := table;
     keyPrefix := if truthy (trim <$> keyPrefix) then keyPrefix else None |}.

Definition mapKey (this : SupabaseTokenStore) (key : string) : string :=
  if negb (truthy (keyPrefix this)) then key
  else default "" (keyPrefix this) +:+ ":" +:+ key.

Section SupabaseTokenStore.
(** [error.message] of the n-th query, if the service answers it with an
    error; a query answered with an error changes nothing. *)
Context (supabase_error : nat → option string).

(** [client.from(table).select('token').eq('key', k).maybeSingle()] *)
Definition select_token (table k : string)
  : Remote → (option TokenSet * option string) * Remote :=
  fun r =>
    let r' := {| rows := rows r; queries := S (queries r) |} in
    match supabase_error (queries r) with
    | Some msg => ((None, Some msg), r')
    | None => ((rows r !! (table, k), None), r')
    end.

(** [client.from(table).upsert({ key, token }, { onConflict: 'key' })] *)
Definition upsert (table k : string) (token : TokenSet)
  : Remote → option string * Remote :=
  fun r =>
    match supabase_error (queries r) with
    | Some msg => (Some msg, {| rows := rows r; queries := S (queries r) |})
    | None => (None, {| rows := <[(table, k) := token]> (rows r);
                        queries := S (queries r) |})
    end.

(** [client.from(table).delete().eq('key', k)] *)
Definition delete_eq (table k : string) : Remote → option string * Remote :=
  fun r =>
    match supabase_error (queries r) with
    | Some msg => (Some msg, {| rows := rows r; queries := S (queries r) |})
    | None => (None, {| rows := delete (table, k) (rows r);
                        queries := S (queries r) |})
    end.

Definition get (this : SupabaseTokenStore) (key : string) : MR (option TokenSet) :=
  fun r =>
    let mappedKey := mapKey this key in
    let '((data, error), r') := select_token (table this) mappedKey r in
    match error with
    | Some msg => (Throw (JsError ("Failed to read token from Supabase: " +:+ msg)), r')
    | None => (Ok data, r')
    end.

Definition set (this : SupabaseTokenStore) (tokenSet : TokenSet) (key : string)
  : MR unit :=
  fun r =>
    let mappedKey := mapKey this key in
    let '(error, r') := upsert (table this) mappedKey tokenSet r in
    match error with
    | Some msg => (Throw (JsError ("Failed to store token in Supabase: " +:+ msg)), r')
    | None => (Ok tt, r')
    end.

Definition clear (this : SupabaseTokenStore) (key : string) : MR unit :=
  fun r =>
    let mappedKey := mapKey this key in
    let '(error, r') := delete_eq (table this) mappedKey r in
    match error with
    | Some msg => (Throw (JsError ("Failed to delete token from Supabase: " +:+ msg)), r')
    | None => (Ok tt, r')
    end.

End SupabaseTokenStore.
End Supabase.

Module Backends.

(** [interface TokenStoreAdapter], over the state a backend works on. *)
Class TokenStoreAdapter (S : Type) := {
  adapter_get : string → S → Result (option Member) * S;
  adapter_set : TokenSet → string → S → Result unit * S;
  adapter_clear : string → S → Result unit * S;
}.

(** The backend chosen by the constructor. *)
Inductive Backend :=
| FileBackend
| SupabaseBackend (store : Supabase.SupabaseTokenStore).

(** [constructor(filePath)]: the choice is made from [process.env]. With the
    file backend the path of the store is [path.resolve(filePath)], as in
    [initial]. *)
Definition backend_of (process_env : gmap string string) : Backend :=
  let supabaseUrl := process_env !! "SUPABASE_URL" in
  let serviceRoleKey := process_env !! "SUPABASE_SERVICE_ROLE_KEY" in
  let tokensTable := default "whoop_tokens" (process_env !! "SUPABASE_TOKENS_TABLE") in
  let keyPrefix := process_env !! "SUPABASE_TOKENS_PREFIX" in
  if truthy supabaseUrl && truthy serviceRoleKey
  then SupabaseBackend (Supabase.new_SupabaseTokenStore tokensTable keyPrefix)
  else FileBackend.

Section Dispatch.
Context (env : Env) (supabase_error : nat → option string).

(** [class FileTokenStore implements TokenStoreAdapter] *)
#[export] Instance FileTokenStore : TokenStoreAdapter World :=
  {| adapter_get := TokenStore.get;
     adapter_set := TokenStore.set env;
     adapter_clear := TokenStore.clear env |}.

(** [class SupabaseTokenStore implements TokenStoreAdapter]: the token of
    a row is a value of its own. *)
Definition SupabaseAdapter (store : Supabase.SupabaseTokenStore)
  : TokenStoreAdapter Supabase.Remote :=
  {| adapter_get := fun key r =>
       match Supabase.get supabase_error store key r with
       | (Ok token, r') => (Ok (Own <$> token), r')
       | (Throw e, r') => (Throw e, r')
       end;
     adapter_set := Supabase.set supabase_error store;
     adapter_clear := Supabase.clear supabase_error store |}.

(** Run an operation of a backend on its part of the state. *)
Definition on_file {A} (m : World → Result A * World)
  : World * Supabase.Remote → Result A * (World * Supabase.Remote) :=
  fun s => let '(r, w') := m (fst s) in (r, (w', snd s)).

Definition on_remote {A} (m : Supabase.Remote → Result A * Supabase.Remote)
  : World * Supabase.Remote → Result A * (World * Supabase.Remote) :=
  fun s => let '(r, d') := m (snd s) in (r, (fst s, d')).

(** [class TokenStore implements TokenStoreAdapter]: every method hands over
    to [this.backend]. *)
Definition TokenStore (backend : Backend)
  : TokenStoreAdapter (World * Supabase.Remote) :=
  match backend with
  | FileBackend =>
      {| adapter_get := fun key => on_file (adapter_get key);
         adapter_set := fun tokenSet key => on_file (adapter_set tokenSet key);
         adapter_clear := fun key => on_file (adapter_clear key) |}
  | SupabaseBackend store =>
      {| adapter_get := fun key =>
           on_remote (@adapter_get _ (SupabaseAdapter store) key);
         adapter_set := fun tokenSet key =>
           on_remote (@adapter_set _ (SupabaseAdapter store) tokenSet key);
         adapter_clear := fun key =>
           on_remote (@adapter_clear _ (SupabaseAdapter store) key) |}
  end.

End Dispatch.
End Backends.

(** ** [metrics.ts]: the record of today *)

Module Metrics.

(** [interface TimedRecord] *)
Record TimedRecord := {
  start : string;
  end_ : option string;
  timezone_offset : option string;
}.

Definition is_digit (c : ascii) : bool :=
  let n := nat_of_ascii c in (Nat.leb 48 n && Nat.leb n 57)%bool.

(** [Number.parseInt] of one decimal digit. *)
Definition digit_value (c : ascii) : Z := Z.of_nat (nat_of_ascii c - 48).

(** The regular expression [/^([+-])(\d{2}):(\d{2})$/] matches a sign, two
    digits, a colon and two digits, and nothing else. Where it matches,
    [Number.parseInt] of either group is a number. *)
Definition parseOffsetMinutes (offset : option string) : option Z :=
  match offset with
  | None => None
  | Some offset =>
      if negb (Boolean offset) then None
      else
        match offset with
        | String sign (String h1 (String h2 (String colon
            (String m1 (String m2 EmptyString))))) =>
            if (Ascii.eqb sign "+" || Ascii.eqb sign "-")
               && is_digit h1 && is_digit h2 && Ascii.eqb colon ":"
               && is_digit m1 && is_digit m2
            then
              let hours := 10 * digit_value h1 + digit_value h2 in
              let minutes := 10 * digit_value m1 + digit_value m2 in
              let totalMinutes := hours * 60 + minutes in
              Some (if Ascii.eqb sign "-" then - totalMinutes else totalMinutes)
            else None
        | _ => None
        end
  end.

(** The [Date] library. [Date_parse s] is [new Date(s).getTime()], [None]
    for an invalid date. The UTC year, month and day of the month of a time
    value depend on it through its day number [floor(t / 86400000)] only;
    [civil_of_day] gives the three for a day number. *)
Record DateLib := {
  Date_parse : string → option Z;
  civil_of_day : Z → Z * Z * Z;
}.

(** [new Date(t)] for a number [t]: the date is invalid beyond 8.64e15 ms. *)
Definition new_Date (t : Z) : option Z :=
  if Z.abs t <=? 8640000000000000 then Some t else None.

(** [(d.getUTCFullYear(), d.getUTCMonth(), d.getUTCDate())], NaN for an
    invalid date. *)
Definition utc_date (lib : DateLib) (d : option Z) : option (Z * Z * Z) :=
  (fun t => civil_of_day lib (t / 86400000)) <$> d.

(** [===] on the three numbers of two dates: NaN equals nothing. *)
Definition same_numbers (a b : option (Z * Z * Z)) : bool :=
  match a, b with
  | Some (y1, m1, d1), Some (y2, m2, d2) => (y1 =? y2) && (m1 =? m2) && (d1 =? d2)
  | _, _ => false
  end.

(** [reference] is the time value of a valid date. *)
Definition isSameLocalDate (lib : DateLib) (value : TimedRecord) (reference : Z)
  : bool :=
  match parseOffsetMinutes (timezone_offset value) with
  | None => false
  | Some offsetMinutes =>
      let targetDate := default (start value) (end_ value) in
      let local :=
        Date_parse lib targetDate ≫= (fun t => new_Date (t + offsetMinutes * 60000)) in
      let nowLocal := new_Date (reference + offsetMinutes * 60000) in
      same_numbers (utc_date lib local) (utc_date lib nowLocal)
  end.

(** [records.find((record) => isSameLocalDate(record, reference)) ?? records[0]],
    for records of a type [T] that extends [TimedRecord]. *)
Definition pickRecordForToday {T : Type} (timed : T → TimedRecord)
    (lib : DateLib) (records : list T) (reference : Z) : option T :=
  match List.find (fun record => isSameLocalDate lib (timed record) reference) records with
  | Some record => Some record
  | None => head records
  end.

End Metrics.

(** ** The earlier [token-store.ts]: the store without a fall-back

    [absolutePath] is a read-only field there, and [ensureDir] lets a
    failure of [mkdir] through. *)

Module PlainTokenStore.
Section PlainTokenStore.
Context (env : Env).

Definition ensureDir : M unit :=
  let* p := gets absolutePath in
  let dir := path_dirname env p in
  TokenStore.fs_mkdir env dir.

Definition readFile : M TokenFileContents :=
  try_catch
    (let* p := gets absolutePath in
     let* raw := TokenStore.fs_readFile p in
     TokenStore.JSON_parse raw)
    (fun error =>
       if code_is error "ENOENT" then ret ∅ else throw error).

Definition writeFile (contents : TokenFileContents) : M unit :=
  ensureDir ;;
  let* p := gets absolutePath in
  TokenStore.fs_writeFile env p (TokenStore.JSON_stringify contents).

Definition get (key : string) : M (option Member) :=
  let* contents := readFile in
  ret (Object_get contents key).

Definition set (tokenSet : TokenSet) (key : string) : M unit :=
  let* contents := readFile in
  writeFile (Object_set contents key tokenSet).

Definition clear (key : string) : M unit :=
  let* contents := readFile in
  writeFile (Object_delete contents key).

End PlainTokenStore.
End PlainTokenStore.

(** * Vocabulary of the statements *)

Section StoreVocabulary.
Context (env : Env).

(** The mapping [readFile] yields in a world. *)
Definition read_contents (w : World) : Result TokenFileContents :=
  match files w !! absolutePath w with
  | Some (RegularFile (JsonDoc c)) => Ok c
  | Some (RegularFile Malformed) => Throw (SyntaxError "Unexpected token in JSON")
  | Some (Unreadable code) =>
      if String.eqb code "ENOENT" then Ok ∅
      else Throw (ErrnoException code "read failed")
  | None => Ok ∅
  end.

(** Whether [ensureDir] moves the store from path [p] to the temporary
    directory, the path it leaves in [absolutePath], and its outcome. *)
Definition falls_back (p : string) : bool :=
  match mkdir_error env (path_dirname env p) with
  | Some err =>
      (code_is err "ENOENT" || code_is err "EROFS" || code_is err "EACCES")
      && negb (String.prefix (os_tmpdir env) p)
  | None => false
  end.

Definition fallbackDir : string := path_join env (os_tmpdir env) "whoop-tokens".

Definition ensured_path (p : string) : string :=
  if falls_back p then path_join env fallbackDir (path_basename env p) else p.

Definition ensured (p : string) : Result unit :=
  match mkdir_error env (if falls_back p then fallbackDir else path_dirname env p) with
  | Some e => Throw e
  | None => Ok tt
  end.

(** The world after [writeFile contents] has succeeded. *)
Definition written (c : TokenFileContents) (w : World) : World :=
  let p := ensured_path (absolutePath w) in
  with_files (<[p := RegularFile (JsonDoc c)]> (files w)) (with_absolutePath p w).

(** What is assumed of [path.join] and [os.tmpdir]: a file of the fall-back
    directory has a path that starts with the temporary directory. *)
Definition fallback_under_tmpdir : Prop :=
  ∀ base, String.prefix (os_tmpdir env) (path_join env fallbackDir base) = true.

(** An assignment under key [k] reaches the mapping of the store: [k] is
    not [__proto__], or the mapping has an own property of that name. *)
Definition assignable (k : string) (w : World) : Prop :=
  k ≠ "__proto__" ∨
  ∃ c r, read_contents w = Ok c ∧ c !! k = Some r.

(** The store holds record [r] under key [k], as an own property of the
    mapping, in a place it will stay at. *)
Definition stored (k : string) (r : TokenSet) (w : World) : Prop :=
  falls_back (absolutePath w) = false ∧
  ∃ c, files w !! absolutePath w = Some (RegularFile (JsonDoc c)) ∧ c !! k = Some r.

End StoreVocabulary.

Section OAuthVocabulary.
Context (env : Env).

(** The world after a POST of [body] to [url], and after a reading of the
    clock. *)
Definition posted (url body : string) (w : World) : World :=
  with_posts (posts w ++ [(url, body)]) w.

Definition clock_read (w : World) : World :=
  with_clockReads (S (clockReads w)) w.

(** The record [normalizeTokenResponse] makes when the clock reads [t]. *)
Definition normalized (t : Z) (data : OAuthTokenResponse)
    (previous : option Member) : TokenSet :=
  {| accessToken := OAuthTokenResponse.access_token data;
     refreshToken :=
       match OAuthTokenResponse.refresh_token data with
       | Some r => r
       | None => match previous ≫= refreshToken_of with
                 | Some r => r
                 | None => ""
                 end
       end;
     expiresAt := t + OAuthTokenResponse.expires_in data * 1000 - 60000;
     scope := OAuthTokenResponse.scope data;
     tokenType := OAuthTokenResponse.token_type data |}.

(** The provider's reply to the next POST. *)
Definition reply (w : World) (url body : string) : Result OAuthTokenResponse :=
  provider env (length (posts w)) url body.

(** Normalise [data] and commit the record under [k], after the POST. *)
Definition commit (data : OAuthTokenResponse) (previous : option Member)
    (k : string) (w : World) : Result TokenSet * World :=
  let ts := normalized (Date_now env (clockReads w)) data previous in
  match TokenStore.set env ts k (clock_read w) with
  | (Ok _, w') => (Ok ts, w')
  | (Throw e, w') => (Throw e, w')
  end.

End OAuthVocabulary.

Section ServerVocabulary.
Context (env : Env).

(** What is assumed of [crypto.randomUUID]: it never repeats itself and
    never returns the empty string. *)
Definition uuids_distinct : Prop :=
  ∀ i j, randomUUID env i = randomUUID env j → i = j.

Definition uuids_nonempty : Prop :=
  ∀ i, Boolean (randomUUID env i) = true.

(** Every entry of [transports] was put there by [onsessioninitialized]:
    the id was drawn from the generator and is the session id of the
    transport, which the application constructed. *)
Definition sessions_wf (w : World) : Prop :=
  (∀ s t, transports w !! s = Some t →
     sessionIdOf w !! t = Some s ∧
     ∃ i, (i < uuidDraws w)%nat ∧ s = randomUUID env i) ∧
  (∀ t s, sessionIdOf w !! t = Some s → (t < transportsCreated w)%nat).

(** How one event may change the session state: not at all, or by the
    initialization of one transport under the next id of the generator. *)
Definition session_step (w w' : World) : Prop :=
  (uuidDraws w ≤ uuidDraws w')%nat ∧
  (transportsCreated w ≤ transportsCreated w')%nat ∧
  ((transports w' = transports w ∧ sessionIdOf w' = sessionIdOf w) ∨
   ∃ t, (t < transportsCreated w')%nat ∧
        sessionIdOf w !! t = None ∧
        (uuidDraws w < uuidDraws w')%nat ∧
        transports w' = <[randomUUID env (uuidDraws w) := t]> (transports w) ∧
        sessionIdOf w' = <[t := randomUUID env (uuidDraws w)]> (sessionIdOf w)).

(** [w'] differs from [w] at most in the store, the clock and the log of
    POST requests. *)
Definition store_frame (w w' : World) : Prop :=
  ∃ p f n l,
    w' = with_files f (with_absolutePath p (with_clockReads n (with_posts l w))).

End ServerVocabulary.

(** ** Vocabulary of the further properties *)

(** [w'] differs from [w] at most in the response and the session state,
    whose generator was only drawn from: the frame of the [/sse] routes, as
    far as the application's own code and the contract of the SDK go. *)
Definition mcp_frame (w w' : World) : Prop :=
  ∃ r m m' n c,
    w' = with_res r (with_transports m (with_sessionIdOf m'
           (with_uuidDraws n (with_transportsCreated c w)))) ∧
    (uuidDraws w ≤ n)%nat.

(** [w'] differs from [w] at most in the response, the registry of pending
    states, the store, the clock and the log of POST requests, and in the
    count of draws from the generator, which did not fall. *)
Definition oauth_frame (w w' : World) : Prop :=
  transports w' = transports w ∧ sessionIdOf w' = sessionIdOf w ∧
  transportsCreated w' = transportsCreated w ∧
  closedTransports w' = closedTransports w ∧
  (uuidDraws w ≤ uuidDraws w')%nat.

(** Every registered state was drawn from the generator. *)
Definition pending_wf (env : Env) (w : World) : Prop :=
  ∀ s e, pendingStates w !! s = Some e →
         ∃ i, (i < uuidDraws w)%nat ∧ s = randomUUID env i.

(** The characters of a string. *)
Definition chars (s : string) : list ascii := list_ascii_of_string s.

(** A string of white space and commas only. *)
Definition blank (s : string) : Prop :=
  ∀ c, c ∈ chars s → c = ","%char ∨ is_space c = true.


(** The offset string of a sign and four decimal digits. *)
Definition digit_char (d : nat) : ascii := ascii_of_nat (48 + d).

Definition offset_string (negative : bool) (h1 h2 m1 m2 : nat) : string :=
  String (if negative then "-" else "+")%char
    (String (digit_char h1) (String (digit_char h2) (String ":"
      (String (digit_char m1) (String (digit_char m2) ""))))).

(** The day number of a time value in the zone of an offset, and the time
    values of valid dates. *)
Definition local_day (offsetMinutes t : Z) : Z := (t + offsetMinutes * 60000) / 86400000.

Definition in_date_range (t : Z) : Prop := Z.abs t ≤ 8640000000000000.

(** ** An example configuration and environment

    The provider's replies are a parameter; the disk is writable, paths are
    joined with a slash, UUIDs are numbered. *)

Definition example_cfg : Config :=
  {| baseUrl := "https://whoop.example.com";
     apiKey := None;
     clientId := "client";
     clientSecret := "secret";
     redirectPath := "/oauth/whoop/callback";
     defaultScopes := ["read:sleep"; "read:cycles"; "read:profile"];
     tokenStorePath := "/data/whoop-tokens.json" |}.

Definition example_env (replies : nat → Result OAuthTokenResponse) : Env :=
  {| Date_now := fun n => 1700000000000 + Z.of_nat n;
     randomUUID := fun n => "uuid-" +:+ pretty n;
     provider := fun n _ _ => replies n;
     mkdir_error := fun _ => None;
     writeFile_error := fun _ => None;
     os_tmpdir := "/tmp";
     path_resolve := fun p => p;
     path_dirname := fun _ => "/data";
     path_basename := fun _ => "whoop-tokens.json";
     path_join := fun a b => a +:+ "/" +:+ b;
     qs_stringify := fun l =>
       String.concat "&" (map (fun kv => fst kv +:+ "=" +:+ snd kv) l);
     isInitializeRequest := String.eqb "initialize";
     sdk_connect_error := fun _ => None;
     sdk_handleRequest := fun _ _ => SdkAccepts |}.

(** A provider that answers every POST with the same access-token-only
    response, and one that refuses the first POST. *)
Definition reply_A2 : OAuthTokenResponse :=
  {| OAuthTokenResponse.access_token := "A2";
     OAuthTokenResponse.refresh_token := None;
     OAuthTokenResponse.expires_in := 3600;
     OAuthTokenResponse.scope := "read:sleep";
     OAuthTokenResponse.token_type := "Bearer" |}.

Definition always_A2 : nat → Result OAuthTokenResponse := fun _ => Ok reply_A2.

Definition refuse_first : nat → Result OAuthTokenResponse :=
  fun n =>
    match n with
    | O => Throw (AxiosError "Request failed with status code 400"
                    (Some (400, DataJson "{}")))
    | S _ => Ok reply_A2
    end.

(** A record that expired one millisecond before the first clock reading,
    and one that expires one millisecond after it. *)
Definition record_R1 : TokenSet :=
  {| accessToken := "A1"; refreshToken := "R1"; expiresAt := 1700000000000 - 1;
     scope := "read:sleep"; tokenType := "Bearer" |}.

Definition record_fresh : TokenSet :=
  {| accessToken := "A1"; refreshToken := "R1"; expiresAt := 1700000000000 + 1;
     scope := "read:sleep"; tokenType := "Bearer" |}.

(** The world at start, with an empty disk and with one stored record. *)
Definition world0 : World := initial (example_env always_A2) example_cfg ∅.

Definition world_with (r : TokenSet) : World :=
  initial (example_env always_A2) example_cfg
    {[ "/data/whoop-tokens.json" := RegularFile (JsonDoc {[ "default" := r ]}) ]}.

(** The state a call of [buildAuthorizationUrl] returned. *)
Definition returned_state (x : Result (string * string) * World) : option string :=
  match fst x with
  | Ok (_, st) => Some st
  | Throw _ => None
  end.

Definition ex_env : Env := example_env always_A2.

Definition login_request : Event := GetLogin QAbsent QAbsent QAbsent.

Definition callback_request : Event := GetCallback (QString "abc") (QString "uuid-0").

Definition sse_request (session : Header) (body : string) : SseRequest :=
  {| authorization := HAbsent; x_api_key := HAbsent;
     mcp_session_id := session; body := body |}.

(** ** More examples *)

(** A store file that is not JSON. *)
Definition world_malformed : World :=
  initial ex_env example_cfg {[ "/data/whoop-tokens.json" := RegularFile Malformed ]}.

(** A disk on which [/data] cannot be created. *)
Definition readonly_env : Env :=
  {| Date_now := Date_now ex_env;
     randomUUID := randomUUID ex_env;
     provider := provider ex_env;
     mkdir_error := fun p =>
       if String.eqb p "/data"
       then Some (ErrnoException "EROFS" "read-only file system")
       else None;
     writeFile_error := writeFile_error ex_env;
     os_tmpdir := os_tmpdir ex_env;
     path_resolve := path_resolve ex_env;
     path_dirname := fun p =>
       if String.prefix "/data/" p then "/data" else "/tmp/whoop-tokens";
     path_basename := path_basename ex_env;
     path_join := path_join ex_env;
     qs_stringify := qs_stringify ex_env;
     isInitializeRequest := isInitializeRequest ex_env;
     sdk_connect_error := sdk_connect_error ex_env;
     sdk_handleRequest := sdk_handleRequest ex_env |}.

(** A disk on which no file can be written. *)
Definition full_disk_env : Env :=
  {| Date_now := Date_now ex_env;
     randomUUID := randomUUID ex_env;
     provider := provider ex_env;
     mkdir_error := mkdir_error ex_env;
     writeFile_error := fun _ =>
       Some (ErrnoException "ENOSPC" "no space left on device");
     os_tmpdir := os_tmpdir ex_env;
     path_resolve := path_resolve ex_env;
     path_dirname := path_dirname ex_env;
     path_basename := path_basename ex_env;
     path_join := path_join ex_env;
     qs_stringify := qs_stringify ex_env;
     isInitializeRequest := isInitializeRequest ex_env;
     sdk_connect_error := sdk_connect_error ex_env;
     sdk_handleRequest := sdk_handleRequest ex_env |}.

(** The example configuration with an API key, and the environment from
    which the example configuration is loaded. *)
Definition keyed_cfg : Config :=
  {| baseUrl := baseUrl example_cfg;
     apiKey := Some "k3y";
     clientId := clientId example_cfg;
     clientSecret := clientSecret example_cfg;
     redirectPath := redirectPath example_cfg;
     defaultScopes := defaultScopes example_cfg;
     tokenStorePath := tokenStorePath example_cfg |}.

Definition example_process_env : gmap string string :=
  {[ "PUBLIC_BASE_URL" := "https://whoop.example.com";
     "WHOOP_CLIENT_ID" := "client";
     "WHOOP_CLIENT_SECRET" := "secret";
     "TOKEN_STORE_PATH" := "/data/whoop-tokens.json" ]}.

(** A WHOOP API that answers every request with the address asked for. *)
Definition example_api : nat → Api.RequestConfig → Result string :=
  fun _ config => Ok (Api.url config).

Definition api_world (w : World) : Api.ApiWorld :=
  {| Api.world := w; Api.requests := [] |}.


(** A Supabase service that answers every query, one that fails the second
    query, and a store with the prefix "prod" on the empty table. *)
Definition supabase_up : nat → option string := fun _ => None.

Definition supabase_flaky : nat → option string :=
  fun n => match n with 1%nat => Some "timeout" | _ => None end.

Definition prod_store : Supabase.SupabaseTokenStore :=
  Supabase.new_SupabaseTokenStore "whoop_tokens" (Some "prod").

Definition empty_remote : Supabase.Remote :=
  {| Supabase.rows := ∅; Supabase.queries := 0 |}.

Definition supabase_process_env : gmap string string :=
  {[ "SUPABASE_URL" := "https://db.example.com";
     "SUPABASE_SERVICE_ROLE_KEY" := "service";
     "SUPABASE_TOKENS_PREFIX" := "prod" ]}.

(** Dates: the civil date of a day number (days since 1970-01-01, months
    from 0), and the time values of three date strings. *)
Definition example_civil_of_day (day : Z) : Z * Z * Z :=
  let z := day + 719468 in
  let era := z / 146097 in
  let doe := z - era * 146097 in
  let yoe := (doe - doe / 1460 + doe / 36524 - doe / 146096) / 365 in
  let doy := doe - (365 * yoe + yoe / 4 - yoe / 100) in
  let mp := (5 * doy + 2) / 153 in
  let d := doy - (153 * mp + 2) / 5 + 1 in
  let m := if mp <? 10 then mp + 3 else mp - 9 in
  let y := yoe + era * 400 + (if m <=? 2 then 1 else 0) in
  (y, m - 1, d).

Definition example_lib : Metrics.DateLib :=
  {| Metrics.Date_parse := fun s =>
       if String.eqb s "2024-03-09T22:00:00.000Z" then Some 1710021600000
       else if String.eqb s "2024-03-10T06:30:00.000Z" then Some 1710052200000
       else if String.eqb s "2024-03-09T03:00:00.000Z" then Some 1709953200000
       else None;
     Metrics.civil_of_day := example_civil_of_day |}.

(** A sleep that ended on 10 March 2024 at 01:30 local time, one that ended
    the day before, and one without an offset. *)
Definition sleep_today : Metrics.TimedRecord :=
  {| Metrics.start := "2024-03-09T22:00:00.000Z";
     Metrics.end_ := Some "2024-03-10T06:30:00.000Z";
     Metrics.timezone_offset := Some "-05:00" |}.

Definition sleep_yesterday : Metrics.TimedRecord :=
  {| Metrics.start := "2024-03-09T03:00:00.000Z";
     Metrics.end_ := None;
     Metrics.timezone_offset := Some "-05:00" |}.

Definition sleep_no_offset : Metrics.TimedRecord :=
  {| Metrics.start := "2024-03-09T22:00:00.000Z";
     Metrics.end_ := Some "2024-03-10T06:30:00.000Z";
     Metrics.timezone_offset := None |}.

(** 10 March 2024, 20:00 UTC. *)
Definition reference_time : Z := 1710100800000.

(** * Properties *)

(** ** The credential store *)

Section TokenStoreFacts.
Context (env : Env).

Lemma readFile_eq w : TokenStore.readFile w = (read_contents w, w).
Proof.
  unfold TokenStore.readFile, try_catch, bind, gets, TokenStore.fs_readFile,
    read_contents, bind, gets.
  destruct (files w !! absolutePath w) as [[[c|]|code]|]; simpl; try reflexivity.
  unfold code_is; simpl. destruct (String.eqb code "ENOENT"); reflexivity.
Qed.

Lemma get_eq w k :
  TokenStore.get k w =
  (match read_contents w with Ok c => Ok (Object_get c k) | Throw e => Throw e end, w).
Proof.
  unfold TokenStore.get, bind. rewrite readFile_eq.
  destruct (read_contents w); reflexivity.
Qed.

(** Property access: what an assignment and a deletion leave to be read. *)
Lemma Object_get_own c k r : c !! k = Some r → Object_get c k = Some (Own r).
Proof. unfold Object_get. by intros ->. Qed.

Lemma Object_get_absent c k :
  c !! k = None → Object_get c k = if inherited k then Some (Inherited k) else None.
Proof. unfold Object_get. by intros ->. Qed.

Lemma Object_get_Own c k r : Object_get c k = Some (Own r) ↔ c !! k = Some r.
Proof.
  unfold Object_get. destruct (c !! k) as [t|]; [|by destruct (inherited k)].
  split; congruence.
Qed.

Lemma Object_set_lookup c k r :
  k ≠ "__proto__" ∨ is_Some (c !! k) → Object_set c k r !! k = Some r.
Proof.
  unfold Object_set. intros H. destruct (c !! k) as [t|] eqn:E.
  - by rewrite lookup_insert_eq.
  - destruct H as [H|[? ?]]; [|done].
    destruct (String.eqb_spec k "__proto__"); [done|]. by rewrite lookup_insert_eq.
Qed.

Lemma Object_set_lookup_ne c k k' r : k' ≠ k → Object_set c k r !! k' = c !! k'.
Proof.
  unfold Object_set. intros H.
  destruct (c !! k); [by rewrite lookup_insert_ne|].
  destruct (String.eqb k "__proto__"); [done|]. by rewrite lookup_insert_ne.
Qed.

Lemma Object_set_proto c r :
  c !! "__proto__" = None → Object_set c "__proto__" r = c.
Proof. unfold Object_set. by intros ->. Qed.

Lemma Object_get_set_ne c k k' r :
  k' ≠ k → Object_get (Object_set c k r) k' = Object_get c k'.
Proof. intros H. unfold Object_get. by rewrite Object_set_lookup_ne. Qed.

Lemma Object_get_delete c k :
  Object_get (Object_delete c k) k = if inherited k then Some (Inherited k) else None.
Proof. apply Object_get_absent, lookup_delete_eq. Qed.

Lemma Object_get_delete_ne c k k' :
  k' ≠ k → Object_get (Object_delete c k) k' = Object_get c k'.
Proof. intros H. unfold Object_get, Object_delete. by rewrite lookup_delete_ne. Qed.

Lemma with_absolutePath_id w : with_absolutePath (absolutePath w) w = w.
Proof. by destruct w. Qed.

Lemma ensureDir_eq w :
  TokenStore.ensureDir env w =
  (ensured env (absolutePath w),
   with_absolutePath (ensured_path env (absolutePath w)) w).
Proof.
  unfold TokenStore.ensureDir, ensured, ensured_path, falls_back, bind, gets,
    try_catch, TokenStore.fs_mkdir, throw, ret, modify, fallbackDir.
  destruct (mkdir_error env (path_dirname env (absolutePath w))) as [err|] eqn:E;
    simpl; rewrite ?E; [|by rewrite with_absolutePath_id].
  destruct ((code_is err "ENOENT" || code_is err "EROFS" || code_is err "EACCES")
            && negb (String.prefix (os_tmpdir env) (absolutePath w))) eqn:F;
    simpl; rewrite ?E, ?with_absolutePath_id; [|reflexivity].
  clear E.
  destruct (mkdir_error env (path_join env (os_tmpdir env) "whoop-tokens"));
    reflexivity.
Qed.

Lemma writeFile_eq c w :
  TokenStore.writeFile env c w =
  match ensured env (absolutePath w) with
  | Throw e => (Throw e, with_absolutePath (ensured_path env (absolutePath w)) w)
  | Ok _ =>
      match writeFile_error env (ensured_path env (absolutePath w)) with
      | Some e => (Throw e, with_absolutePath (ensured_path env (absolutePath w)) w)
      | None => (Ok tt, written env c w)
      end
  end.
Proof.
  unfold TokenStore.writeFile, bind. rewrite ensureDir_eq.
  destruct (ensured env (absolutePath w)) as [[]|e]; [|reflexivity].
  unfold gets, TokenStore.fs_writeFile, written; simpl.
  destruct (writeFile_error env _); reflexivity.
Qed.

Lemma set_eq r k w :
  TokenStore.set env r k w =
  match read_contents w with
  | Ok c => TokenStore.writeFile env (Object_set c k r) w
  | Throw e => (Throw e, w)
  end.
Proof. unfold TokenStore.set, bind. by rewrite readFile_eq. Qed.

Lemma clear_eq k w :
  TokenStore.clear env k w =
  match read_contents w with
  | Ok c => TokenStore.writeFile env (Object_delete c k) w
  | Throw e => (Throw e, w)
  end.
Proof. unfold TokenStore.clear, bind. by rewrite readFile_eq. Qed.

Lemma writeFile_ok c w w' :
  TokenStore.writeFile env c w = (Ok tt, w') → w' = written env c w.
Proof.
  rewrite writeFile_eq. destruct (ensured env _); [|congruence].
  destruct (writeFile_error env _); congruence.
Qed.

Lemma read_written c w : read_contents (written env c w) = Ok c.
Proof. unfold read_contents, written; simpl. by rewrite lookup_insert_eq. Qed.

(** A successful [set] can be read back, where the assignment reaches the
    mapping; under [__proto__] it does not, unless the file holds such a
    property. *)
Lemma set_get r k w w' :
  assignable k w →
  TokenStore.set env r k w = (Ok tt, w') →
  TokenStore.get k w' = (Ok (Some (Own r)), w').
Proof.
  intros Ha. rewrite set_eq. destruct (read_contents w) as [c|] eqn:Hc; [|congruence].
  intros ->%writeFile_ok. rewrite get_eq, read_written.
  rewrite (Object_get_own _ _ r); [done|]. apply Object_set_lookup.
  destruct Ha as [?|(c' & r' & Hc' & Hk)]; [by left|right].
  assert (c' = c) as -> by congruence. by eexists.
Qed.

Lemma set_get_proto r w w' :
  ¬ assignable "__proto__" w →
  TokenStore.set env r "__proto__" w = (Ok tt, w') →
  TokenStore.get "__proto__" w' = (Ok (Some (Inherited "__proto__")), w') ∧
  read_contents w' = read_contents w.
Proof.
  intros Ha. rewrite set_eq. destruct (read_contents w) as [c|] eqn:Hc; [|congruence].
  assert (c !! "__proto__" = None) as Hk.
  { destruct (c !! "__proto__") as [t|] eqn:E; [|done].
    destruct Ha. right. by exists c, t. }
  rewrite (Object_set_proto _ _ Hk).
  intros ->%writeFile_ok. rewrite get_eq, read_written.
  by rewrite (Object_get_absent _ _ Hk).
Qed.

Lemma not_assignable k w : ¬ assignable k w → k = "__proto__".
Proof.
  intros Ha. destruct (String.eqb_spec k "__proto__"); [done|]. destruct Ha. by left.
Qed.

Lemma get_Own_assignable k r w :
  TokenStore.get k w = (Ok (Some (Own r)), w) → assignable k w.
Proof.
  rewrite get_eq. destruct (read_contents w) as [c|] eqn:Hc; [|congruence].
  intros [= H%Object_get_Own]. right. by exists c, r.
Qed.

Lemma clear_get k w w' :
  TokenStore.clear env k w = (Ok tt, w') →
  TokenStore.get k w' =
    (Ok (if inherited k then Some (Inherited k) else None), w').
Proof.
  rewrite clear_eq. destruct (read_contents w) as [c|]; [|congruence].
  intros ->%writeFile_ok. rewrite get_eq, read_written.
  by rewrite Object_get_delete.
Qed.

Lemma stored_get k r w : stored env k r w → TokenStore.get k w = (Ok (Some (Own r)), w).
Proof.
  intros (_ & c & Hf & Hk). rewrite get_eq. unfold read_contents.
  by rewrite Hf, (Object_get_own _ _ _ Hk).
Qed.

Lemma stored_assignable k r w : stored env k r w → assignable k w.
Proof. intros H. eapply get_Own_assignable, stored_get, H. Qed.

Lemma written_settled c w :
  fallback_under_tmpdir env →
  falls_back env (absolutePath (written env c w)) = false.
Proof.
  intros Htmp. unfold written; simpl. unfold ensured_path.
  destruct (falls_back env (absolutePath w)) eqn:F; [|done].
  unfold falls_back. destruct (mkdir_error env _); [|done].
  by rewrite Htmp, andb_false_r.
Qed.

Lemma written_stored c k r w :
  fallback_under_tmpdir env → c !! k = Some r → stored env k r (written env c w).
Proof.
  intros Htmp Hk. split; [by apply written_settled|].
  exists c. split; [|done]. unfold written; simpl. by rewrite lookup_insert_eq.
Qed.

Lemma set_stored r k w w' :
  fallback_under_tmpdir env →
  assignable k w →
  TokenStore.set env r k w = (Ok tt, w') → stored env k r w'.
Proof.
  intros Htmp Ha. rewrite set_eq. destruct (read_contents w) as [c|] eqn:Hc; [|congruence].
  intros ->%writeFile_ok. apply written_stored; [done|]. apply Object_set_lookup.
  destruct Ha as [?|(c' & r' & Hc' & Hk)]; [by left|right].
  assert (c' = c) as -> by congruence. by eexists.
Qed.

(** Writing from a settled store either fails and changes nothing, or
    replaces the mapping in place. *)
Lemma writeFile_settled c w :
  falls_back env (absolutePath w) = false →
  snd (TokenStore.writeFile env c w) = w ∨
  snd (TokenStore.writeFile env c w) =
    with_files (<[absolutePath w := RegularFile (JsonDoc c)]> (files w)) w.
Proof.
  intros F. rewrite writeFile_eq. unfold written, ensured_path. rewrite F.
  rewrite with_absolutePath_id.
  destruct (ensured env _); [|by left].
  destruct (writeFile_error env _); [by left|by right].
Qed.

Lemma stored_store_op k r op w :
  op_key op ≠ k → stored env k r w → stored env k r (store_op env op w).
Proof.
  intros Hk (F & c & Hf & Hc).
  assert (read_contents w = Ok c) as Hr by (unfold read_contents; by rewrite Hf).
  destruct op as [k'|r' k'|k']; simpl in *.
  - rewrite get_eq. simpl. by split; [|exists c].
  - rewrite set_eq, Hr.
    destruct (writeFile_settled (Object_set c k' r') w F) as [-> | ->];
      [by split; [|exists c]|].
    split; [done|]. exists (Object_set c k' r'); simpl.
    by rewrite lookup_insert_eq, Object_set_lookup_ne.
  - rewrite clear_eq, Hr.
    destruct (writeFile_settled (Object_delete c k') w F) as [-> | ->];
      [by split; [|exists c]|].
    split; [done|]. exists (Object_delete c k'); simpl.
    unfold Object_delete. by rewrite lookup_insert_eq, lookup_delete_ne.
Qed.

Lemma stored_store_ops k r ops w :
  Forall (fun op => op_key op ≠ k) ops →
  stored env k r w → stored env k r (store_ops env ops w).
Proof.
  intros Hops. revert w. induction Hops as [|op ops Hop _ IH]; intros w Hw; [done|].
  simpl. apply IH. by apply stored_store_op.
Qed.

End TokenStoreFacts.

Section TokenStoreProperties.
Context (env : Env).

(** C7. A record committed with [set] under a key is what [get] returns
    for that key, at once and also after any operations on other keys, and
    a later [set] under the same key replaces it: for every key but
    [__proto__], and for [__proto__] where the file holds a property of
    that name. A [set] under [__proto__] otherwise stores nothing: the
    mapping is written back as it was read, and [get] returns the member
    of [Object.prototype], not the record. *)
Theorem store_set_get_roundtrip (k : string) (r : TokenSet) (w w1 : World) :
  TokenStore.set env r k w = (Ok tt, w1) →
  (assignable k w →
   TokenStore.get k w1 = (Ok (Some (Own r)), w1)
   ∧ (fallback_under_tmpdir env →
      ∀ ops, Forall (fun op => op_key op ≠ k) ops →
        let w2 := store_ops env ops w1 in
        TokenStore.get k w2 = (Ok (Some (Own r)), w2)
        ∧ ∀ r' w3, TokenStore.set env r' k w2 = (Ok tt, w3) →
                   TokenStore.get k w3 = (Ok (Some (Own r')), w3)))
  ∧
  (¬ assignable k w →
   k = "__proto__" ∧
   TokenStore.get k w1 = (Ok (Some (Inherited "__proto__")), w1) ∧
   TokenStore.readFile w1 = (fst (TokenStore.readFile w), w1)).
Proof.
  intros Hset. split.
  - intros Ha. split; [by eapply set_get|].
    intros Htmp ops Hops w2.
    assert (stored env k r w2) as Hst
      by (apply stored_store_ops; [done|]; by eapply set_stored).
    split; [by apply (stored_get env)|].
    intros r' w3. apply set_get. by eapply (stored_assignable env).
  - intros Ha. pose proof (not_assignable _ _ Ha) as ->. split; [done|].
    destruct (set_get_proto env _ _ _ Ha Hset) as [Hget Hread].
    split; [done|]. by rewrite !readFile_eq, Hread.
Qed.

(** C8. After a successful [clear] of a key, [get] finds no own record for
    it: it returns null, except for the name of a member of
    [Object.prototype], where it returns that member. On a key without a
    record, [clear] writes back the mapping it read, and ends as that
    write ends: the stored mapping is the same afterwards, and the call
    throws exactly when the directory cannot be made or the file cannot be
    written. *)
Theorem store_clear_get_absent (k : string) (w : World) :
  (∀ w', TokenStore.clear env k w = (Ok tt, w') →
         TokenStore.get k w' =
           (Ok (if inherited k then Some (Inherited k) else None), w'))
  ∧ (∀ c, TokenStore.readFile w = (Ok c, w) → c !! k = None →
       TokenStore.clear env k w = TokenStore.writeFile env c w ∧
       (∀ w', TokenStore.clear env k w = (Ok tt, w') →
              TokenStore.readFile w' = (Ok c, w')) ∧
       ((∃ w', TokenStore.clear env k w = (Ok tt, w')) ↔
        ensured env (absolutePath w) = Ok tt ∧
        writeFile_error env (ensured_path env (absolutePath w)) = None) ∧
       (∀ e, ensured env (absolutePath w) = Throw e →
             fst (TokenStore.clear env k w) = Throw e) ∧
       (∀ e, ensured env (absolutePath w) = Ok tt →
             writeFile_error env (ensured_path env (absolutePath w)) = Some e →
             fst (TokenStore.clear env k w) = Throw e)).
Proof.
  split; [intros w'; apply clear_get|].
  intros c. rewrite clear_eq, readFile_eq.
  intros [= ->] Hc. unfold Object_delete. rewrite (delete_id c k Hc).
  split; [done|]. split; [|split; [|split]].
  - intros w' ->%writeFile_ok. by rewrite readFile_eq, read_written.
  - rewrite writeFile_eq. destruct (ensured env (absolutePath w)) as [[]|e].
    + destruct (writeFile_error env _) as [e|].
      * split; [by intros [? ?]|]. by intros [_ ?].
      * split; [done|]. by eexists.
    + split; [by intros [? ?]|]. by intros [? _].
  - intros e He. by rewrite writeFile_eq, He.
  - intros e He Hw. by rewrite writeFile_eq, He, Hw.
Qed.

End TokenStoreProperties.

(** ** The OAuth client and the API client *)

Section OAuthFacts.
Context (env : Env) (cfg : Config).

Lemma normalizeTokenResponse_eq data previous w :
  WhoopOAuthClient.normalizeTokenResponse env data previous w =
  (Ok (normalized (Date_now env (clockReads w)) data previous), clock_read w).
Proof. reflexivity. Qed.

Lemma exchangeCode_eq code k redirect w :
  WhoopOAuthClient.exchangeCode env cfg code k redirect w =
  let body := WhoopOAuthClient.exchangeCode_body env cfg code redirect in
  match reply env w WhoopOAuthClient.tokenUrl body with
  | Ok data => commit env data None k (posted WhoopOAuthClient.tokenUrl body w)
  | Throw e => (Throw e, posted WhoopOAuthClient.tokenUrl body w)
  end.
Proof.
  unfold WhoopOAuthClient.exchangeCode, bind, WhoopOAuthClient.axios_post, reply, commit, posted; cbv zeta.
  destruct (provider env _ _ _) as [data|e]; [|reflexivity].
  rewrite normalizeTokenResponse_eq.
  destruct (TokenStore.set env _ k _) as [[[]|e] w']; reflexivity.
Qed.

Lemma refreshToken_eq k w :
  WhoopOAuthClient.refreshToken env cfg k w =
  match read_contents w with
  | Throw e => (Throw e, w)
  | Ok c =>
      match Object_get c k with
      | None => (Throw WhoopOAuthClient.NoCredentialError, w)
      | Some existing =>
          let body := WhoopOAuthClient.refreshToken_body env cfg existing in
          match reply env w WhoopOAuthClient.tokenUrl body with
          | Ok data => commit env data (Some existing) k (posted WhoopOAuthClient.tokenUrl body w)
          | Throw e => (Throw e, posted WhoopOAuthClient.tokenUrl body w)
          end
      end
  end.
Proof.
  unfold WhoopOAuthClient.refreshToken, bind. rewrite get_eq.
  destruct (read_contents w) as [c|e]; [|reflexivity].
  destruct (Object_get c k) as [existing|]; [|reflexivity].
  unfold WhoopOAuthClient.axios_post, reply, commit, posted; cbv zeta.
  destruct (provider env _ _ _) as [data|e]; [|reflexivity].
  rewrite normalizeTokenResponse_eq.
  destruct (TokenStore.set env _ k _) as [[[]|e] w']; reflexivity.
Qed.

Lemma commit_ok data previous k w ts w' :
  commit env data previous k w = (Ok ts, w') →
  ts = normalized (Date_now env (clockReads w)) data previous ∧
  TokenStore.set env ts k (clock_read w) = (Ok tt, w').
Proof.
  unfold commit.
  destruct (TokenStore.set env _ k _) as [[[]|e] w''] eqn:E; intros [= <- <-]; auto.
Qed.

(** What a successful [set] leaves alone. *)
Lemma set_frame r k w w' :
  TokenStore.set env r k w = (Ok tt, w') →
  clockReads w' = clockReads w ∧ uuidDraws w' = uuidDraws w ∧ posts w' = posts w ∧
  pendingStates w' = pendingStates w ∧ transports w' = transports w.
Proof.
  rewrite set_eq. destruct (read_contents w); [|congruence].
  intros ->%writeFile_ok. done.
Qed.

Lemma get_unchanged k w r w' : TokenStore.get k w = (r, w') → w' = w.
Proof. rewrite get_eq. congruence. Qed.

(** [assignable] looks at the file of the store only. *)
Lemma assignable_posted_clock k url body w :
  assignable k (clock_read (posted url body w)) ↔ assignable k w.
Proof. reflexivity. Qed.

Lemma assignable_clock k w : assignable k (clock_read w) ↔ assignable k w.
Proof. reflexivity. Qed.

(** The body of a refresh for a stored record, and for a member of the
    prototype. *)
Lemma refreshToken_body_Own existing :
  WhoopOAuthClient.refreshToken_body env cfg (Own existing) =
  qs_stringify env
    [ ("grant_type", "refresh_token");
      ("refresh_token", refreshToken existing);
      ("client_id", clientId cfg);
      ("client_secret", clientSecret cfg);
      ("redirect_uri", redirectUri cfg);
      ("scope", scope existing) ].
Proof. reflexivity. Qed.

Lemma refreshToken_body_Inherited name :
  WhoopOAuthClient.refreshToken_body env cfg (Inherited name) =
  qs_stringify env
    [ ("grant_type", "refresh_token");
      ("client_id", clientId cfg);
      ("client_secret", clientSecret cfg);
      ("redirect_uri", redirectUri cfg) ].
Proof. reflexivity. Qed.

End OAuthFacts.

Section OAuthProperties.
Context (env : Env) (cfg : Config).

Lemma writeFile_posts c w : posts (snd (TokenStore.writeFile env c w)) = posts w.
Proof.
  rewrite writeFile_eq. destruct (ensured env _); [|done].
  by destruct (writeFile_error env _).
Qed.

Lemma set_posts r k w : posts (snd (TokenStore.set env r k w)) = posts w.
Proof.
  rewrite set_eq. destruct (read_contents w); [|done]. apply writeFile_posts.
Qed.

Lemma commit_posts data previous k w :
  posts (snd (commit env data previous k w)) = posts w.
Proof.
  unfold commit.
  pose proof (set_posts (normalized (Date_now env (clockReads w)) data previous)
                k (clock_read w)) as Hp.
  destruct (TokenStore.set env _ k _) as [[[]|e] w']; exact Hp.
Qed.

(** A refresh for a key under which [get] finds something sends one POST,
    however it ends. *)
Lemma refreshToken_posts k w existing :
  TokenStore.get k w = (Ok (Some existing), w) →
  posts (snd (WhoopOAuthClient.refreshToken env cfg k w)) =
  (posts w ++ [(WhoopOAuthClient.tokenUrl, WhoopOAuthClient.refreshToken_body env cfg existing)])%list.
Proof.
  rewrite get_eq, refreshToken_eq.
  destruct (read_contents w) as [c|e]; [|congruence].
  destruct (Object_get c k) as [t|]; intros [= <-]. cbv zeta.
  destruct (reply env w _ _); [|done]. by rewrite commit_posts.
Qed.

(** What a refresh does once [get] has found something and the provider
    has answered: it commits the normalized record. *)
Lemma refreshToken_commits k w existing data :
  TokenStore.get k w = (Ok (Some existing), w) →
  reply env w WhoopOAuthClient.tokenUrl
    (WhoopOAuthClient.refreshToken_body env cfg existing) = Ok data →
  WhoopOAuthClient.refreshToken env cfg k w =
  commit env data (Some existing) k
    (posted WhoopOAuthClient.tokenUrl
       (WhoopOAuthClient.refreshToken_body env cfg existing) w).
Proof.
  rewrite get_eq, refreshToken_eq.
  destruct (read_contents w) as [c|e]; [|congruence].
  destruct (Object_get c k) as [t|]; intros [= <-]. cbv zeta. by intros ->.
Qed.

Lemma exchangeCode_commits code k redirect w data :
  reply env w WhoopOAuthClient.tokenUrl
    (WhoopOAuthClient.exchangeCode_body env cfg code redirect) = Ok data →
  WhoopOAuthClient.exchangeCode env cfg code k redirect w =
  commit env data None k
    (posted WhoopOAuthClient.tokenUrl
       (WhoopOAuthClient.exchangeCode_body env cfg code redirect) w).
Proof. rewrite exchangeCode_eq. cbv zeta. by intros ->. Qed.

Lemma refreshToken_ok k w ts w' :
  WhoopOAuthClient.refreshToken env cfg k w = (Ok ts, w') →
  ∃ existing data,
    TokenStore.get k w = (Ok (Some existing), w) ∧
    reply env w WhoopOAuthClient.tokenUrl (WhoopOAuthClient.refreshToken_body env cfg existing) = Ok data ∧
    ts = normalized (Date_now env (clockReads w)) data (Some existing) ∧
    TokenStore.set env ts k
      (clock_read (posted WhoopOAuthClient.tokenUrl (WhoopOAuthClient.refreshToken_body env cfg existing) w))
    = (Ok tt, w').
Proof.
  rewrite refreshToken_eq, get_eq.
  destruct (read_contents w) as [c|e]; [|congruence].
  destruct (Object_get c k) as [existing|]; [|congruence]. cbv zeta.
  destruct (reply env w _ _) as [data|e] eqn:R; [|congruence].
  intros [-> Hset]%commit_ok. by exists existing, data.
Qed.

Lemma exchangeCode_ok code k redirect w ts w' :
  WhoopOAuthClient.exchangeCode env cfg code k redirect w = (Ok ts, w') →
  ∃ data,
    reply env w WhoopOAuthClient.tokenUrl (WhoopOAuthClient.exchangeCode_body env cfg code redirect) = Ok data ∧
    ts = normalized (Date_now env (clockReads w)) data None ∧
    TokenStore.set env ts k
      (clock_read (posted WhoopOAuthClient.tokenUrl (WhoopOAuthClient.exchangeCode_body env cfg code redirect) w))
    = (Ok tt, w').
Proof.
  rewrite exchangeCode_eq. cbv zeta.
  destruct (reply env w _ _) as [data|e] eqn:R; [|congruence].
  intros [-> Hset]%commit_ok. by exists data.
Qed.

(** Whether the record [get] found counts as expired when the clock reads
    [t]: a comparison with [undefined] is false. *)
Lemma getAccessToken_eq k w :
  WhoopApiClient.getAccessToken env cfg k w =
  match read_contents w with
  | Throw e => (Throw e, w)
  | Ok c =>
      match Object_get c k with
      | None => (Throw WhoopApiClient.NotAuthorizedError, w)
      | Some token =>
          if match expiresAt_of token with
             | Some expiresAt => expiresAt <=? Date_now env (clockReads w)
             | None => false
             end
          then
            match WhoopOAuthClient.refreshToken env cfg k (clock_read w) with
            | (Ok refreshed, w') => (Ok (Some (accessToken refreshed)), w')
            | (Throw e, w') => (Throw e, w')
            end
          else (Ok (accessToken_of token), clock_read w)
      end
  end.
Proof.
  unfold WhoopApiClient.getAccessToken, bind. rewrite get_eq.
  destruct (read_contents w) as [c|e]; [|reflexivity].
  destruct (Object_get c k) as [token|]; [|reflexivity].
  unfold WhoopOAuthClient.now at 1. fold (clock_read w).
  destruct (match expiresAt_of token with Some _ => _ | None => _ end); [|reflexivity].
  destruct (WhoopOAuthClient.refreshToken env cfg k _) as [[?|?] ?]; reflexivity.
Qed.

(** C1. Resolving an access token for a key. Where [get] returns null it
    fails with NotAuthorizedError. With a stored record whose [expiresAt]
    is at most the clock reading it invokes the refresh operation once (one
    refresh POST is sent) and returns the access token of the refreshed
    record, or fails as the refresh fails; with a stored record that
    expires later it returns the stored access token and sends nothing.
    For a key without a record that is the name of a member of
    [Object.prototype], [get] returns that member and not null: the
    resolution does not fail, sends nothing and returns [undefined]. *)
Theorem getAccessToken_resolves (k : string) (w : World) :
  (TokenStore.get k w = (Ok None, w) →
   WhoopApiClient.getAccessToken env cfg k w = (Throw WhoopApiClient.NotAuthorizedError, w))
  ∧
  (∀ token, TokenStore.get k w = (Ok (Some (Own token)), w) →
     let t := Date_now env (clockReads w) in
     (expiresAt token ≤ t →
        posts (snd (WhoopApiClient.getAccessToken env cfg k w)) =
          (posts w ++ [(WhoopOAuthClient.tokenUrl,
                        WhoopOAuthClient.refreshToken_body env cfg (Own token))])%list
        ∧ (∀ refreshed w',
             WhoopOAuthClient.refreshToken env cfg k (clock_read w) = (Ok refreshed, w') →
             WhoopApiClient.getAccessToken env cfg k w = (Ok (Some (accessToken refreshed)), w')
             ∧ ∃ data,
                 reply env w WhoopOAuthClient.tokenUrl
                   (WhoopOAuthClient.refreshToken_body env cfg (Own token)) = Ok data ∧
                 accessToken refreshed = OAuthTokenResponse.access_token data)
        ∧ (∀ e w',
             WhoopOAuthClient.refreshToken env cfg k (clock_read w) = (Throw e, w') →
             WhoopApiClient.getAccessToken env cfg k w = (Throw e, w')))
     ∧
     (t < expiresAt token →
        WhoopApiClient.getAccessToken env cfg k w = (Ok (Some (accessToken token)), clock_read w)
        ∧ posts (snd (WhoopApiClient.getAccessToken env cfg k w)) = posts w))
  ∧
  (∀ c, TokenStore.readFile w = (Ok c, w) → c !! k = None → inherited k = true →
     TokenStore.get k w = (Ok (Some (Inherited k)), w) ∧
     WhoopApiClient.getAccessToken env cfg k w = (Ok None, clock_read w) ∧
     posts (snd (WhoopApiClient.getAccessToken env cfg k w)) = posts w).
Proof.
  split; [|split].
  - rewrite getAccessToken_eq, get_eq.
    destruct (read_contents w) as [c|]; [|congruence].
    destruct (Object_get c k); congruence.
  - intros token Hget t. split.
    + intros Hexp.
      assert (TokenStore.get k (clock_read w) = (Ok (Some (Own token)), clock_read w))
        as Hget' by (rewrite get_eq in Hget |- *; simpl;
                     change (read_contents (clock_read w)) with (read_contents w);
                     destruct (read_contents w); congruence).
      assert (WhoopApiClient.getAccessToken env cfg k w =
              match WhoopOAuthClient.refreshToken env cfg k (clock_read w) with
              | (Ok refreshed, w') => (Ok (Some (accessToken refreshed)), w')
              | (Throw e, w') => (Throw e, w')
              end) as Heq.
      { rewrite getAccessToken_eq. rewrite get_eq in Hget.
        destruct (read_contents w) as [c|]; [|congruence].
        destruct (Object_get c k) as [t0|]; [|congruence].
        assert (t0 = Own token) as -> by congruence. cbn [expiresAt_of].
        fold t. by destruct (Z.leb_spec (expiresAt token) t); [|lia]. }
      split; [|split].
      * rewrite Heq. pose proof (refreshToken_posts _ _ _ Hget') as Hp.
        destruct (WhoopOAuthClient.refreshToken env cfg k _) as [[?|?] ?]; exact Hp.
      * intros refreshed w' Hr. rewrite Heq, Hr. split; [done|].
        apply refreshToken_ok in Hr as (existing & data & Hg & Hrep & -> & _).
        assert (existing = Own token) as -> by congruence.
        by exists data.
      * intros e w' Hr. by rewrite Heq, Hr.
    + intros Hlt.
      assert (WhoopApiClient.getAccessToken env cfg k w
              = (Ok (Some (accessToken token)), clock_read w))
        as Heq; [|by rewrite Heq].
      rewrite getAccessToken_eq. rewrite get_eq in Hget.
      destruct (read_contents w) as [c|]; [|congruence].
      destruct (Object_get c k) as [t0|]; [|congruence].
      assert (t0 = Own token) as -> by congruence. cbn [expiresAt_of accessToken_of].
      fold t. by destruct (Z.leb_spec (expiresAt token) t); [lia|].
  - intros c. rewrite readFile_eq, get_eq, getAccessToken_eq.
    intros [= ->] Hc Hin. rewrite (Object_get_absent _ _ Hc), Hin. done.
Qed.

(** C2. A record normalized from a token response has
    [expiresAt = now + expires_in * 1000 - 60000], where [now] is the
    clock reading taken by the normalization; and this is the record that
    a code exchange, and a refresh, commit and return once the provider
    has answered: the call ends as the [set] of that record ends, and
    where the assignment reaches the mapping the record is then read
    back. *)
Theorem normalized_expiry_buffer (k : string) (w : World) :
  (∀ data previous, ∃ ts,
     WhoopOAuthClient.normalizeTokenResponse env data previous w = (Ok ts, clock_read w) ∧
     expiresAt ts =
       Date_now env (clockReads w) + OAuthTokenResponse.expires_in data * 1000 - 60000)
  ∧
  (∀ code redirect data,
     let body := WhoopOAuthClient.exchangeCode_body env cfg code redirect in
     reply env w WhoopOAuthClient.tokenUrl body = Ok data →
     ∃ ts,
       expiresAt ts =
         Date_now env (clockReads w) + OAuthTokenResponse.expires_in data * 1000 - 60000 ∧
       let w1 := clock_read (posted WhoopOAuthClient.tokenUrl body w) in
       WhoopOAuthClient.exchangeCode env cfg code k redirect w =
         match TokenStore.set env ts k w1 with
         | (Ok _, w') => (Ok ts, w')
         | (Throw e, w') => (Throw e, w')
         end ∧
       ∀ w', TokenStore.set env ts k w1 = (Ok tt, w') →
             clockReads w' = S (clockReads w) ∧
             (assignable k w → TokenStore.get k w' = (Ok (Some (Own ts)), w')))
  ∧
  (∀ existing data,
     let body := WhoopOAuthClient.refreshToken_body env cfg existing in
     TokenStore.get k w = (Ok (Some existing), w) →
     reply env w WhoopOAuthClient.tokenUrl body = Ok data →
     ∃ ts,
       expiresAt ts =
         Date_now env (clockReads w) + OAuthTokenResponse.expires_in data * 1000 - 60000 ∧
       let w1 := clock_read (posted WhoopOAuthClient.tokenUrl body w) in
       WhoopOAuthClient.refreshToken env cfg k w =
         match TokenStore.set env ts k w1 with
         | (Ok _, w') => (Ok ts, w')
         | (Throw e, w') => (Throw e, w')
         end ∧
       ∀ w', TokenStore.set env ts k w1 = (Ok tt, w') →
             clockReads w' = S (clockReads w) ∧
             (assignable k w → TokenStore.get k w' = (Ok (Some (Own ts)), w'))).
Proof.
  split; [|split].
  - intros data previous. eexists. split; [apply normalizeTokenResponse_eq|done].
  - intros code redirect data body Hrep.
    exists (normalized (Date_now env (clockReads w)) data None).
    split; [done|]. split; [by rewrite (exchangeCode_commits _ _ _ _ _ Hrep)|].
    intros w' Hset. split; [by apply set_frame in Hset as (-> & _)|].
    intros Ha. eapply set_get; [|exact Hset]. exact Ha.
  - intros existing data body Hget Hrep.
    exists (normalized (Date_now env (clockReads w)) data (Some existing)).
    split; [done|]. split; [by rewrite (refreshToken_commits _ _ _ _ Hget Hrep)|].
    intros w' Hset. split; [by apply set_frame in Hset as (-> & _)|].
    intros Ha. eapply set_get; [|exact Hset]. exact Ha.
Qed.


(** C10. When the response to a code exchange has no [refresh_token], the
    record committed and returned has the empty string as refresh token,
    whatever was stored before. Where the assignment reaches the mapping,
    a refresh for that key then posts an empty [refresh_token] to the
    provider. Under [__proto__] it does not reach it: nothing is stored,
    and a refresh for that key posts no [refresh_token] and no [scope] at
    all. *)
Theorem exchange_without_refresh_token (code k redirect : string) (w : World)
    (data : OAuthTokenResponse) (ts : TokenSet) (w' : World) :
  reply env w WhoopOAuthClient.tokenUrl (WhoopOAuthClient.exchangeCode_body env cfg code redirect) = Ok data →
  OAuthTokenResponse.refresh_token data = None →
  WhoopOAuthClient.exchangeCode env cfg code k redirect w = (Ok ts, w') →
  refreshToken ts = ""
  ∧
  (assignable k w →
   TokenStore.get k w' = (Ok (Some (Own ts)), w') ∧
   posts (snd (WhoopOAuthClient.refreshToken env cfg k w')) =
     (posts w' ++
      [(WhoopOAuthClient.tokenUrl,
        qs_stringify env
          [ ("grant_type", "refresh_token");
            ("refresh_token", "");
            ("client_id", clientId cfg);
            ("client_secret", clientSecret cfg);
            ("redirect_uri", redirectUri cfg);
            ("scope", OAuthTokenResponse.scope data) ])])%list)
  ∧
  (¬ assignable k w →
   k = "__proto__" ∧
   TokenStore.get k w' = (Ok (Some (Inherited "__proto__")), w') ∧
   posts (snd (WhoopOAuthClient.refreshToken env cfg k w')) =
     (posts w' ++
      [(WhoopOAuthClient.tokenUrl,
        qs_stringify env
          [ ("grant_type", "refresh_token");
            ("client_id", clientId cfg);
            ("client_secret", clientSecret cfg);
            ("redirect_uri", redirectUri cfg) ])])%list).
Proof.
  intros Hrep Hnone (data' & Hrep' & -> & Hset)%exchangeCode_ok.
  assert (data' = data) as -> by congruence.
  split; [by simpl; rewrite Hnone|]. split.
  - intros Ha.
    pose proof (set_get _ _ _ _ _ (Ha : assignable k (clock_read (posted _ _ w))) Hset)
      as Hget.
    split; [done|].
    rewrite (refreshToken_posts _ _ _ Hget), refreshToken_body_Own.
    simpl. by rewrite Hnone.
  - intros Ha. pose proof (not_assignable _ _ Ha) as ->. split; [done|].
    destruct (set_get_proto _ _ _ _
                (Ha : ¬ assignable "__proto__" (clock_read (posted _ _ w))) Hset)
      as [Hget _].
    split; [done|].
    by rewrite (refreshToken_posts _ _ _ Hget), refreshToken_body_Inherited.
Qed.

End OAuthProperties.

(** ** The server *)

Section ServerFacts.
Context (env : Env) (cfg : Config).

Lemma sessions_wf_step w w' :
  sessions_wf env w → session_step env w w' → sessions_wf env w'.
Proof.
  unfold sessions_wf.
  intros [Ht Hs] (Hu & Hc & [[-> ->] | (t & Hlt & Hnone & Hu' & -> & ->)]).
  - split.
    + intros s t [Hsid (i & Hi & ->)]%Ht. split; [done|]. exists i. split; [lia|done].
    + intros t s Hlt%Hs. lia.
  - split.
    + intros s t'. destruct (decide (randomUUID env (uuidDraws w) = s)) as [<-|Hne].
      * rewrite lookup_insert_eq. intros [= <-]. rewrite lookup_insert_eq.
        split; [done|]. exists (uuidDraws w). split; [lia|done].
      * rewrite lookup_insert_ne by done. intros Hst.
        destruct (Ht _ _ Hst) as [Hsid (i & Hi & ->)].
        split; [|exists i; split; [lia|done]].
        rewrite lookup_insert_ne; [done|]. intros ->. congruence.
    + intros t' s. destruct (decide (t = t')) as [<-|Hne].
      * done.
      * rewrite lookup_insert_ne by done. intros Hlt'%Hs. lia.
Qed.

(** Under [uuids_distinct], entries are never overwritten. *)
Lemma session_step_lookup w w' s t :
  uuids_distinct env → sessions_wf env w → session_step env w w' →
  transports w !! s = Some t → transports w' !! s = Some t.
Proof.
  intros Hinj [Ht _] (_ & _ & [[-> _] | (t' & _ & _ & _ & -> & _)]) Hst; [done|].
  destruct (Ht _ _ Hst) as [_ (i & Hi & ->)].
  rewrite lookup_insert_ne; [done|]. intros Heq%Hinj. lia.
Qed.

Lemma session_step_dom w w' s :
  session_step env w w' →
  is_Some (transports w !! s) → is_Some (transports w' !! s).
Proof.
  intros (_ & _ & [[-> _] | (t' & _ & _ & _ & -> & _)]) Hst; [done|].
  rewrite lookup_insert_is_Some. destruct (decide (randomUUID env (uuidDraws w) = s)); auto.
Qed.

Lemma with_res_id w : with_res (res w) w = w.
Proof. by destruct w. Qed.

Lemma store_frame_refl w : store_frame w w.
Proof. exists (absolutePath w), (files w), (clockReads w), (posts w). by destruct w. Qed.

Lemma writeFile_frame c w : store_frame w (snd (TokenStore.writeFile env c w)).
Proof.
  rewrite writeFile_eq.
  assert (store_frame w (with_absolutePath (ensured_path env (absolutePath w)) w)) as Hp
    by (exists (ensured_path env (absolutePath w)), (files w), (clockReads w), (posts w);
        by destruct w).
  destruct (ensured env _); [|done].
  destruct (writeFile_error env _); [done|].
  exists (ensured_path env (absolutePath w)),
    (<[ensured_path env (absolutePath w) := RegularFile (JsonDoc c)]> (files w)),
    (clockReads w), (posts w).
  unfold written. by destruct w.
Qed.

Lemma set_frame_any r k w : store_frame w (snd (TokenStore.set env r k w)).
Proof.
  rewrite set_eq. destruct (read_contents w); [apply writeFile_frame|].
  apply store_frame_refl.
Qed.

Lemma exchangeCode_frame code k redirect w :
  store_frame w (snd (WhoopOAuthClient.exchangeCode env cfg code k redirect w)).
Proof.
  rewrite exchangeCode_eq. cbv zeta.
  destruct (reply env w _ _) as [data|e].
  - unfold commit.
    pose proof (set_frame_any
      (normalized (Date_now env (clockReads (posted WhoopOAuthClient.tokenUrl
         (WhoopOAuthClient.exchangeCode_body env cfg code redirect) w))) data None)
      k (clock_read (posted WhoopOAuthClient.tokenUrl
         (WhoopOAuthClient.exchangeCode_body env cfg code redirect) w)))
      as (p & f & n & l & Hw).
    destruct (TokenStore.set env _ k _) as [[[]|?] w']; simpl in *; subst w';
      by eexists _, _, _, _.
  - exists (absolutePath w), (files w), (clockReads w),
      (posts w ++ [(WhoopOAuthClient.tokenUrl,
                    WhoopOAuthClient.exchangeCode_body env cfg code redirect)])%list.
    unfold posted. by destruct w.
Qed.

(** *** The OAuth routes *)

Lemma validateApiKey_cases req w :
  Server.validateApiKey cfg req w = (Ok true, w) ∨
  Server.validateApiKey cfg req w = (Ok false, with_res (Some Server.Unauthorized) w).
Proof.
  unfold Server.validateApiKey. destruct (apiKey cfg) as [expected|]; [|by left].
  destruct (negb (Boolean expected)); [by left|].
  destruct (bool_decide _); [by left|by right].
Qed.

Lemma buildAuthorizationUrl_eq params w :
  WhoopOAuthClient.buildAuthorizationUrl env cfg params w =
  let st := match state params with
            | Some s => s
            | None => randomUUID env (uuidDraws w)
            end in
  (Ok (WhoopOAuthClient.authorizeUrl +:+ "?" +:+
       qs_stringify env
         [ ("client_id", clientId cfg);
           ("redirect_uri", default (redirectUri cfg) (redirect params));
           ("response_type", "code");
           ("scope", String.concat " " (default (defaultScopes cfg) (scopes params)));
           ("state", st) ],
       st),
   match state params with
   | Some _ => w
   | None => with_uuidDraws (S (uuidDraws w)) w
   end).
Proof.
  unfold WhoopOAuthClient.buildAuthorizationUrl, bind.
  by destruct (state params).
Qed.

Lemma callback_eq code st w :
  Server.callback env cfg (QString code) (QString st) w =
  match pendingStates w !! st with
  | None => (Ok tt, with_res (Some Server.UnknownOrExpiredState) w)
  | Some entry =>
      match WhoopOAuthClient.exchangeCode env cfg code (key entry) (redirectUri cfg) w with
      | (Ok _, w1) =>
          (Ok tt,
           with_res
             (Some (if truthy (successRedirect entry)
                    then Redirect (default "" (successRedirect entry))
                    else Send 200 "WHOOP authorization successful. You can close this window."))
             (with_pendingStates (delete st (pendingStates w1)) w1))
      | (Throw error, w1) =>
          (Ok tt,
           with_res
             (Some (Send 500 ("Failed to exchange WHOOP authorization code: "
                              +:+ message (parseHttpError error))))
             w1)
      end
  end.
Proof.
  unfold Server.callback, bind, gets; simpl.
  destruct (pendingStates w !! st) as [entry|]; [|reflexivity].
  unfold try_catch, bind.
  destruct (WhoopOAuthClient.exchangeCode env cfg code _ _ w) as [[ts|e] w1];
    [|reflexivity].
  simpl. by destruct (truthy (successRedirect entry)).
Qed.

End ServerFacts.

(** Closes [session_step] goals between worlds with the same session state. *)
Ltac same_sessions := split; [simpl; lia|split; [simpl; lia|by left]].

Section SessionFacts.
Context (env : Env) (cfg : Config).

Lemma session_step_refl w : session_step env w w.
Proof. same_sessions. Qed.

Lemma session_step_res r w w' :
  session_step env w w' → session_step env (with_res r w) w'.
Proof. done. Qed.

Lemma session_step_store w w' : store_frame w w' → session_step env w w'.
Proof.
  intros (p & f & n & l & ->). same_sessions.
Qed.

(** What [handleRequest] does to the world: it writes the response, and
    it may initialize the transport. *)
Lemma handleRequest_cases t req body w :
  let w' := snd (Server.handleRequest env t req body w) in
  (∃ r, w' = with_res r w) ∨
  (∃ b, body = Some b ∧ isInitializeRequest env b = true ∧
        sdk_handleRequest env t req = SdkAccepts ∧
        sessionIdOf w !! t = None ∧
        Server.handleRequest env t req body w =
        (Ok tt,
         with_res (Some (ByTransport t))
           (with_transports (<[randomUUID env (uuidDraws w) := t]> (transports w))
              (with_sessionIdOf (<[t := randomUUID env (uuidDraws w)]> (sessionIdOf w))
                 (with_uuidDraws (S (uuidDraws w)) w))))).
Proof.
  unfold Server.handleRequest, Server.transport_handleRequest.
  destruct (sdk_handleRequest env t req) as [| |e sent] eqn:Hsdk; simpl.
  - unfold bind, gets; simpl.
    destruct body as [b|], (sessionIdOf w !! t) as [sid|] eqn:Hsid;
      simpl; try (left; by eexists).
    destruct (isInitializeRequest env b) eqn:Hinit; simpl; [|left; by eexists].
    right. by exists b.
  - left. by eexists.
  - destruct sent; simpl; left; [by eexists|]. exists (res w). by rewrite with_res_id.
Qed.

Lemma handleRequest_session_step t req body w :
  (t < transportsCreated w)%nat →
  session_step env w (snd (Server.handleRequest env t req body w)).
Proof.
  intros Hlt.
  destruct (handleRequest_cases t req body w) as [[r ->] | (b & _ & _ & _ & Hnone & ->)].
  - same_sessions.
  - split; [simpl; lia|]. split; [simpl; lia|]. right. exists t.
    split; [done|]. split; [done|]. split; [simpl; lia|]. done.
Qed.

(** A transport that has its session id answers without touching the maps. *)
Lemma handleRequest_initialized t req body w sid :
  sessionIdOf w !! t = Some sid →
  ∃ r, snd (Server.handleRequest env t req body w) = with_res r w.
Proof.
  intros Hsid.
  destruct (handleRequest_cases t req body w) as [H | (b & _ & _ & _ & Hnone & _)];
    [done|congruence].
Qed.

Lemma login_eq q_key q_next q_scopes w :
  ∃ url,
    Server.login env cfg q_key q_next q_scopes w =
    (Ok tt,
     with_res (Some (Redirect url))
       (with_pendingStates
          (<[randomUUID env (uuidDraws w) :=
               {| key := match q_key with QString s => s | _ => "default" end;
                  successRedirect := match q_next with QString s => Some s | _ => None end |}]>
             (pendingStates w))
          (with_uuidDraws (S (uuidDraws w)) w))).
Proof.
  unfold Server.login, try_catch, bind. rewrite buildAuthorizationUrl_eq. simpl.
  by eexists.
Qed.

Lemma post_sse_session_step req w :
  sessions_wf env w →
  session_step env w (snd (Server.post_sse env cfg req w)).
Proof.
  intros [Ht Hs]. unfold Server.post_sse, bind.
  destruct (validateApiKey_cases cfg req w) as [-> | ->]; simpl;
    [|same_sessions].
  unfold try_catch.
  destruct (negb (truthy (header_first (mcp_session_id req)))
            && isInitializeRequest env (body req)) eqn:Hinit.
  - unfold bind, Server.new_transport, Server.server_connect.
    destruct (sdk_connect_error env (transportsCreated w)) as [e|]; simpl.
    { unfold bind, Server.headersSent, gets, Server.respond, modify; simpl.
      destruct (bool_decide (is_Some (res w))); simpl;
        (split; [simpl; lia|split; [simpl; lia|by left]]). }
    set (w1 := with_transportsCreated (S (transportsCreated w)) w).
    assert (session_step env w1
              (snd (Server.handleRequest env (transportsCreated w) req
                      (Some (body req)) w1))) as Hstep
      by (apply handleRequest_session_step; simpl; lia).
    assert (∀ w2, session_step env w1 w2 → session_step env w w2) as Hw1.
    { intros w2 (Hu & Hc & H). split; [done|]. split; [simpl in Hc; lia|done]. }
    destruct (Server.handleRequest env _ req _ w1) as [[[]|e] w2]; simpl in *.
    + by apply Hw1.
    + unfold bind, Server.headersSent, gets, Server.respond, modify; simpl.
      destruct (bool_decide (is_Some (res w2))); simpl; by apply Hw1.
  - destruct (negb (truthy (header_first (mcp_session_id req)))); simpl;
      [same_sessions|].
    unfold bind, gets; simpl.
    destruct (transports w !! default "" (header_first (mcp_session_id req)))
      as [t|] eqn:Hlook; simpl; [|same_sessions].
    destruct (Ht _ _ Hlook) as [Hsid _].
    destruct (handleRequest_initialized t req (Some (body req)) w _ Hsid) as [r Hr].
    destruct (Server.handleRequest env t req _ w) as [[[]|e] w2]; simpl in *; subst w2;
      [same_sessions|].
    unfold bind, Server.headersSent, gets, Server.respond, modify; simpl.
    destruct (bool_decide (is_Some r)); same_sessions.
Qed.

Lemma get_sse_session_step req w :
  sessions_wf env w →
  session_step env w (snd (Server.get_sse env cfg req w)).
Proof.
  intros [Ht Hs]. unfold Server.get_sse, bind.
  destruct (validateApiKey_cases cfg req w) as [-> | ->]; simpl;
    [|same_sessions].
  destruct (negb (truthy (header_first (mcp_session_id req)))); simpl;
    [same_sessions|].
  unfold bind, gets; simpl.
  destruct (transports w !! default "" (header_first (mcp_session_id req)))
    as [t|] eqn:Hlook; simpl; [|same_sessions].
  destruct (Ht _ _ Hlook) as [Hsid _].
  destruct (handleRequest_initialized t req None w _ Hsid) as [r Hr].
  unfold try_catch.
  destruct (Server.handleRequest env t req _ w) as [[[]|e] w2]; simpl in *; subst w2;
    [same_sessions|].
  unfold bind, Server.headersSent, gets, Server.respond, modify; simpl.
  destruct (bool_decide (is_Some r)); same_sessions.
Qed.

Lemma callback_session_step q_code q_state w :
  session_step env w (snd (Server.callback env cfg q_code q_state w)).
Proof.
  destruct q_code as [|code|], q_state as [|st|]; try same_sessions.
  rewrite callback_eq. destruct (pendingStates w !! st) as [entry|];
    [|same_sessions].
  pose proof (exchangeCode_frame env cfg code (key entry) (redirectUri cfg) w)
    as (p & f & n & l & Hw).
  destruct (WhoopOAuthClient.exchangeCode env cfg code _ _ w) as [[ts|e] w1];
    simpl in *; subst w1; same_sessions.
Qed.

Lemma step_session_step w ev :
  sessions_wf env w → session_step env w (step env cfg w ev).
Proof.
  intros Hwf. unfold step.
  assert (sessions_wf env (with_res None w)) as Hwf' by done.
  destruct ev as [k n s|c s|req|req|t]; cbn [handle].
  - destruct (login_eq k n s (with_res None w)) as [url ->]; simpl.
    split; [simpl; lia|]. split; [simpl; lia|]. by left.
  - apply (callback_session_step c s (with_res None w)).
  - by apply (post_sse_session_step req (with_res None w)).
  - by apply (get_sse_session_step req (with_res None w)).
  - same_sessions.
Qed.

Lemma step_sessions_wf w ev : sessions_wf env w → sessions_wf env (step env cfg w ev).
Proof. intros Hwf. eapply sessions_wf_step; [done|]. by apply step_session_step. Qed.

Lemma run_sessions_wf evs w : sessions_wf env w → sessions_wf env (run env cfg evs w).
Proof.
  revert w. induction evs as [|ev evs IH]; intros w Hwf; [done|].
  simpl. apply IH. by apply step_sessions_wf.
Qed.

Lemma initial_sessions_wf disk : sessions_wf env (initial env cfg disk).
Proof. split; intros ??; simpl; by rewrite lookup_empty. Qed.

Lemma reachable_sessions_wf w : reachable env cfg w → sessions_wf env w.
Proof. intros (disk & evs & ->). apply run_sessions_wf, initial_sessions_wf. Qed.

Lemma run_lookup evs w s t :
  uuids_distinct env → sessions_wf env w →
  transports w !! s = Some t → transports (run env cfg evs w) !! s = Some t.
Proof.
  intros Hinj. revert w. induction evs as [|ev evs IH]; intros w Hwf Hst; [done|].
  simpl. apply IH; [by apply step_sessions_wf|].
  eapply session_step_lookup; [done..|by apply step_session_step|done].
Qed.

Lemma run_dom evs w s :
  sessions_wf env w →
  is_Some (transports w !! s) → is_Some (transports (run env cfg evs w) !! s).
Proof.
  revert w. induction evs as [|ev evs IH]; intros w Hwf Hst; [done|].
  simpl. apply IH; [by apply step_sessions_wf|].
  eapply session_step_dom; [by apply step_session_step|done].
Qed.

Lemma initial_reachable disk : reachable env cfg (initial env cfg disk).
Proof. by exists disk, []. Qed.

Lemma run_app evs1 evs2 w :
  run env cfg (evs1 ++ evs2) w = run env cfg evs2 (run env cfg evs1 w).
Proof. apply fold_left_app. Qed.

Lemma run_reachable evs w : reachable env cfg w → reachable env cfg (run env cfg evs w).
Proof.
  intros (disk & evs0 & ->). exists disk, (evs0 ++ evs)%list. by rewrite run_app.
Qed.

Lemma step_reachable w ev : reachable env cfg w → reachable env cfg (step env cfg w ev).
Proof. apply (run_reachable [ev]). Qed.

(** The generator is only ever drawn from: the count of draws never falls. *)
Lemma run_uuidDraws_le evs w :
  sessions_wf env w → (uuidDraws w ≤ uuidDraws (run env cfg evs w))%nat.
Proof.
  revert w. induction evs as [|ev evs IH]; intros w Hwf; [done|].
  simpl. etrans; [|apply IH; by apply step_sessions_wf].
  by destruct (step_session_step w ev Hwf) as [Hle _].
Qed.

End SessionFacts.

Section ServerProperties.
Context (env : Env) (cfg : Config).

Lemma handleRequest_init t req b w :
  isInitializeRequest env b = true →
  sdk_handleRequest env t req = SdkAccepts →
  sessionIdOf w !! t = None →
  Server.handleRequest env t req (Some b) w =
  (Ok tt,
   with_res (Some (ByTransport t))
     (with_transports (<[randomUUID env (uuidDraws w) := t]> (transports w))
        (with_sessionIdOf (<[t := randomUUID env (uuidDraws w)]> (sessionIdOf w))
           (with_uuidDraws (S (uuidDraws w)) w)))).
Proof.
  intros Hinit Hsdk Hnone.
  unfold Server.handleRequest, Server.transport_handleRequest.
  rewrite Hsdk. unfold bind, gets; simpl. by rewrite Hnone, Hinit.
Qed.

(** Forwarding to a transport that has its session id and does not throw:
    the transport writes the response, nothing else changes. *)
Lemma handleRequest_forward t req body w sid :
  sessionIdOf w !! t = Some sid →
  (∀ e sent, sdk_handleRequest env t req ≠ SdkThrows e sent) →
  Server.handleRequest env t req body w = (Ok tt, with_res (Some (ByTransport t)) w).
Proof.
  intros Hsid Hsdk.
  unfold Server.handleRequest, Server.transport_handleRequest.
  destruct (sdk_handleRequest env t req) as [| |e sent]; [| |by destruct (Hsdk e sent)].
  - unfold bind, gets; simpl. rewrite Hsid. by destruct body.
  - done.
Qed.

(** C4. What the callback does with a state. A callback for a state that
    is not registered is answered "Unknown or expired OAuth state." and
    changes nothing. A callback for a registered state looks the entry up
    and exchanges the code for the key of the entry. When the exchange
    succeeds the entry is deleted, and any further callback for that state
    is answered "Unknown or expired OAuth state."; the record is then in
    the store where the assignment reaches the mapping. When the exchange
    fails the deletion is not reached: the entry stays registered. *)
Theorem callback_consumes_state_on_success (code st : string) (w : World) :
  (pendingStates w !! st = None →
   Server.callback env cfg (QString code) (QString st) w =
     (Ok tt, with_res (Some Server.UnknownOrExpiredState) w))
  ∧
  (∀ entry, pendingStates w !! st = Some entry →
     let w' := snd (Server.callback env cfg (QString code) (QString st) w) in
     (∀ ts w1,
        WhoopOAuthClient.exchangeCode env cfg code (key entry) (redirectUri cfg) w
          = (Ok ts, w1) →
        pendingStates w' = delete st (pendingStates w) ∧
        res w' =
          Some (if truthy (successRedirect entry)
                then Redirect (default "" (successRedirect entry))
                else Send 200 "WHOOP authorization successful. You can close this window.") ∧
        (assignable (key entry) w →
         TokenStore.get (key entry) w' = (Ok (Some (Own ts)), w')) ∧
        ∀ code',
          Server.callback env cfg (QString code') (QString st) w' =
            (Ok tt, with_res (Some Server.UnknownOrExpiredState) w'))
     ∧
     (∀ error w1,
        WhoopOAuthClient.exchangeCode env cfg code (key entry) (redirectUri cfg) w
          = (Throw error, w1) →
        pendingStates w' = pendingStates w ∧
        res w' =
          Some (Send 500 ("Failed to exchange WHOOP authorization code: "
                          +:+ message (parseHttpError error))))).
Proof.
  split.
  - intros Hnone. by rewrite callback_eq, Hnone.
  - intros entry Hsome w'. subst w'. rewrite callback_eq, Hsome.
    pose proof (exchangeCode_frame env cfg code (key entry) (redirectUri cfg) w)
      as (p & f & n & l & Hw).
    split.
    + intros ts w1 Hex. rewrite Hex in Hw |- *. cbn [snd] in Hw |- *.
      assert (pendingStates w1 = pendingStates w) as Hp by (by subst w1).
      split; [by simpl; rewrite Hp|]. split; [done|]. split.
      * intros Ha. apply exchangeCode_ok in Hex as (data & _ & _ & Hset).
        apply (set_get _ _ _ _ _ (Ha : assignable _ (clock_read (posted _ _ w))))
          in Hset.
        rewrite get_eq in Hset |- *.
        change (read_contents (with_res _ (with_pendingStates _ w1)))
          with (read_contents w1).
        destruct (read_contents w1); congruence.
      * intros code'. rewrite callback_eq.
        cbn [pendingStates with_res with_pendingStates].
        by rewrite lookup_delete_eq.
    + intros error w1 Hex. rewrite Hex in Hw |- *. cbn [snd] in Hw |- *.
      split; [by subst w1|done].
Qed.

(** C5. Routing of [POST /sse] requests that pass the API-key check.
    Without a session id, an initialization request that the SDK accepts
    gets a new transport and a session id that was not in the map, and
    from then on requests bearing that id are forwarded to that transport;
    any other request without a session id is answered "Missing MCP
    session ID." (400); a request with an id that is not in the map is
    answered "Unknown MCP session" (404). The two refusals leave
    everything but the response as it was. *)
Theorem post_sse_routing (req : SseRequest) (w : World) :
  let sessionId := header_first (mcp_session_id req) in
  Server.validateApiKey cfg req (with_res None w) = (Ok true, with_res None w) →
  (truthy sessionId = false →
   isInitializeRequest env (body req) = true →
   let t := transportsCreated w in
   let sid := randomUUID env (uuidDraws w) in
   sdk_connect_error env t = None →
   sdk_handleRequest env t req = SdkAccepts →
   reachable env cfg w → uuids_distinct env → uuids_nonempty env →
   let w' := step env cfg w (PostSse req) in
   transports w !! sid = None ∧
   (∀ s, transports w !! s ≠ Some t) ∧
   transports w' = <[sid := t]> (transports w) ∧
   res w' = Some (ByTransport t) ∧
   ∀ evs req2,
     let w2 := run env cfg evs w' in
     header_first (mcp_session_id req2) = Some sid →
     Server.validateApiKey cfg req2 (with_res None w2) = (Ok true, with_res None w2) →
     (∀ e sent, sdk_handleRequest env t req2 ≠ SdkThrows e sent) →
     transports w2 !! sid = Some t ∧
     step env cfg w2 (PostSse req2) = with_res (Some (ByTransport t)) w2)
  ∧
  (truthy sessionId = false →
   isInitializeRequest env (body req) = false →
   step env cfg w (PostSse req) = with_res (Some Server.MissingSessionError) w)
  ∧
  (∀ given, sessionId = Some given → truthy sessionId = true →
   transports w !! given = None →
   step env cfg w (PostSse req) = with_res (Some (Server.UnknownSessionError given)) w).
Proof.
  intros sessionId Hkey. split; [|split].
  - intros Hno Hinit t sid Hconn Hsdk Hwf%reachable_sessions_wf Hinj Hne w'.
    assert (sessionIdOf w !! t = None) as Hfresh.
    { destruct (sessionIdOf w !! t) as [s|] eqn:E; [|done].
      destruct Hwf as [_ Hs]. apply Hs in E. unfold t in E. lia. }
    assert (w' = with_res (Some (ByTransport t))
              (with_transports (<[sid := t]> (transports w))
                 (with_sessionIdOf (<[t := sid]> (sessionIdOf w))
                    (with_uuidDraws (S (uuidDraws w))
                       (with_transportsCreated (S t) w))))) as Hw'.
    { unfold w', step. cbn [handle]. unfold Server.post_sse, bind.
      rewrite Hkey. cbn [negb]. fold sessionId. rewrite Hno, Hinit. cbn [negb andb].
      unfold try_catch, bind, Server.new_transport, Server.server_connect.
      cbn [transportsCreated with_res]. fold t. rewrite Hconn. unfold ret.
      rewrite (handleRequest_init t req (body req)) by done. done. }
    assert (transports w !! sid = None) as Hunseen.
    { destruct (transports w !! sid) as [t'|] eqn:E; [|done].
      destruct Hwf as [Ht _]. destruct (Ht _ _ E) as [_ (i & Hi & Heq)].
      apply Hinj in Heq. lia. }
    split; [done|]. split.
    { intros s Hs. destruct Hwf as [Ht Hc]. destruct (Ht _ _ Hs) as [Hsid _].
      congruence. }
    split; [by rewrite Hw'|]. split; [by rewrite Hw'|].
    intros evs req2 w2 Hid Hkey2 Hsdk2.
    assert (sessions_wf env w') as Hwf'.
    { unfold w'. by apply step_sessions_wf. }
    assert (transports w2 !! sid = Some t) as Hlook.
    { apply run_lookup; [done..|]. rewrite Hw'. simpl. by rewrite lookup_insert_eq. }
    split; [done|].
    assert (sessions_wf env w2) as [Ht2 _] by (by apply run_sessions_wf).
    destruct (Ht2 _ _ Hlook) as [Hsid2 _].
    unfold step. cbn [handle]. unfold Server.post_sse, bind.
    rewrite Hkey2. cbn [negb]. rewrite Hid.
    assert (truthy (Some sid) = true) as -> by apply Hne. cbn [negb andb].
    unfold try_catch, bind, gets. cbn [default from_option id transports with_res].
    rewrite Hlook.
    rewrite (handleRequest_forward t req2 _ _ sid) by done. done.
  - intros Hno Hinit. unfold step. cbn [handle]. unfold Server.post_sse, bind.
    rewrite Hkey. cbn [negb]. fold sessionId. rewrite Hno, Hinit. done.
  - intros given Hid Htruthy Hnone. unfold step. cbn [handle].
    unfold Server.post_sse, bind.
    rewrite Hkey. cbn [negb]. fold sessionId. rewrite Htruthy. cbn [negb andb].
    rewrite Hid. unfold try_catch, bind, gets. cbn [default from_option id transports with_res].
    by rewrite Hnone.
Qed.

(** C6, in the form the code satisfies. No event removes an entry of the session map. When a
    transport reports closure the map is left as it is, so the session of
    a closed transport stays in the map, through whatever happens later,
    and a request bearing its id is still handed to that transport. *)
Theorem session_entries_never_removed (w : World) :
  reachable env cfg w →
  (∀ t, transports (step env cfg w (TransportClosed t)) = transports w ∧
        closedTransports (step env cfg w (TransportClosed t)) = {[t]} ∪ closedTransports w)
  ∧
  (∀ evs s, is_Some (transports w !! s) →
            is_Some (transports (run env cfg evs w) !! s))
  ∧
  (∀ sid t req,
     transports w !! sid = Some t → t ∈ closedTransports w →
     header_first (mcp_session_id req) = Some sid → truthy (Some sid) = true →
     Server.validateApiKey cfg req (with_res None w) = (Ok true, with_res None w) →
     (∀ e sent, sdk_handleRequest env t req ≠ SdkThrows e sent) →
     step env cfg w (PostSse req) = with_res (Some (ByTransport t)) w).
Proof.
  intros Hwf%reachable_sessions_wf.
  split; [done|]. split; [intros evs s; by apply run_dom|].
  intros sid t req Hlook _ Hid Htruthy Hkey Hsdk.
  destruct Hwf as [Ht _]. destruct (Ht _ _ Hlook) as [Hsid _].
  unfold step. cbn [handle]. unfold Server.post_sse, bind.
  rewrite Hkey. cbn [negb]. rewrite Hid, Htruthy. cbn [negb andb].
  unfold try_catch, bind, gets. cbn [default from_option id transports with_res].
  rewrite Hlook.
  rewrite (handleRequest_forward t req _ _ sid) by done. done.
Qed.

(** C9, in the form the code satisfies. [buildAuthorizationUrl] sends nothing and returns the
    authorization URL with [client_id], [redirect_uri],
    [response_type=code], the scopes joined by spaces, and the state it
    returns. The state is the parameter [state] where one is given, and
    nothing is generated then; otherwise it is the next value of
    [crypto.randomUUID], which differs from the state of every later call
    of that kind as long as the generator does not repeat itself. *)
Theorem buildAuthorizationUrl_spec (params : AuthorizationUrlParams) (w : World) :
  ∃ st w',
    WhoopOAuthClient.buildAuthorizationUrl env cfg params w =
      (Ok (WhoopOAuthClient.authorizeUrl +:+ "?" +:+
           qs_stringify env
             [ ("client_id", clientId cfg);
               ("redirect_uri", default (redirectUri cfg) (redirect params));
               ("response_type", "code");
               ("scope", String.concat " " (default (defaultScopes cfg) (scopes params)));
               ("state", st) ],
           st), w') ∧
    posts w' = posts w ∧
    (∀ s, state params = Some s → st = s ∧ w' = w) ∧
    (state params = None →
     st = randomUUID env (uuidDraws w) ∧
     w' = with_uuidDraws (S (uuidDraws w)) w ∧
     (uuids_distinct env →
      ∀ params2 w2 url2 st2 w2',
        state params2 = None → (uuidDraws w' ≤ uuidDraws w2)%nat →
        WhoopOAuthClient.buildAuthorizationUrl env cfg params2 w2
          = (Ok (url2, st2), w2') →
        st2 ≠ st)).
Proof.
  rewrite buildAuthorizationUrl_eq. cbv zeta. eexists _, _. split; [done|].
  destruct (state params) as [s|]; simpl.
  - split; [done|]. split; [by intros ? [= <-]|done].
  - split; [done|]. split; [done|]. intros _. do 2 (split; [done|]).
    intros Hinj params2 w2 url2 st2 w2' Hnone Hle.
    rewrite buildAuthorizationUrl_eq, Hnone. cbv zeta. intros [= _ <- _].
    intros Heq%Hinj. simpl in Hle. lia.
Qed.

End ServerProperties.

(** * More properties of the code *)

(** ** The credential store: failures and other keys *)

Section StoreEdges.
Context (env : Env).

(** X1. A store file that [JSON.parse] rejects, or that cannot be read for
    another reason than ENOENT, makes [get], [set] and [clear] throw, and
    [set] and [clear] then write nothing: the world, the file included, is
    as it was. *)
Theorem unreadable_store_is_not_overwritten (k : string) (r : TokenSet) (w : World)
    (node : FileNode) :
  files w !! absolutePath w = Some node →
  node = RegularFile Malformed ∨
    (∃ code, node = Unreadable code ∧ String.eqb code "ENOENT" = false) →
  ∃ e,
    TokenStore.get k w = (Throw e, w) ∧
    TokenStore.set env r k w = (Throw e, w) ∧
    TokenStore.clear env k w = (Throw e, w).
Proof.
  intros Hnode Hbad. rewrite get_eq, set_eq, clear_eq. unfold read_contents.
  rewrite Hnode. destruct Hbad as [-> | (code & -> & Hcode)].
  - by eexists.
  - rewrite Hcode. by eexists.
Qed.

(** X2. A successful [set] or [clear] for one key keeps what [get] returns
    for every other key, also when the write moves the store to its
    fall-back path. *)
Theorem write_keeps_other_keys (k k' : string) (r : TokenSet) (w w' : World)
    (v : option Member) :
  k' ≠ k →
  TokenStore.get k' w = (Ok v, w) →
  (TokenStore.set env r k w = (Ok tt, w') → TokenStore.get k' w' = (Ok v, w')) ∧
  (TokenStore.clear env k w = (Ok tt, w') → TokenStore.get k' w' = (Ok v, w')).
Proof.
  intros Hne. rewrite get_eq, set_eq, clear_eq.
  destruct (read_contents w) as [c|]; [|congruence]. intros [= <-].
  split; intros ->%writeFile_ok; rewrite get_eq, read_written.
  - by rewrite Object_get_set_ne.
  - by rewrite Object_get_delete_ne.
Qed.

(** X3. [ensureDir] changes [absolutePath] only when [mkdir] fails with
    ENOENT, EROFS or EACCES for a path outside the temporary directory, and
    then to the file of the same name in [tmpdir/whoop-tokens]; given that
    such a path lies under the temporary directory, a second [ensureDir]
    leaves the path where the first put it. *)
Theorem ensureDir_moves_once (w : World) :
  let w1 := snd (TokenStore.ensureDir env w) in
  (absolutePath w1 = absolutePath w ∨
   ((∃ err, mkdir_error env (path_dirname env (absolutePath w)) = Some err ∧
            (code_is err "ENOENT" || code_is err "EROFS" || code_is err "EACCES") = true) ∧
    String.prefix (os_tmpdir env) (absolutePath w) = false ∧
    absolutePath w1 =
      path_join env (path_join env (os_tmpdir env) "whoop-tokens")
        (path_basename env (absolutePath w)))) ∧
  files w1 = files w ∧
  (fallback_under_tmpdir env →
   absolutePath (snd (TokenStore.ensureDir env w1)) = absolutePath w1).
Proof.
  intros w1. subst w1. rewrite !ensureDir_eq. cbn [snd]. split; [|split; [done|]].
  - cbn [absolutePath with_absolutePath]. unfold ensured_path.
    destruct (falls_back env (absolutePath w)) eqn:F; [right|by left].
    unfold falls_back in F.
    destruct (mkdir_error env _) as [err|] eqn:E; [|done].
    apply andb_true_iff in F as [Hc Hp]. apply negb_true_iff in Hp.
    split; [by exists err|]. done.
  - intros Htmp. cbn [absolutePath with_absolutePath].
    unfold ensured_path at 1.
    destruct (falls_back env (ensured_path env (absolutePath w))) eqn:F; [|done].
    exfalso. unfold ensured_path in F.
    destruct (falls_back env (absolutePath w)) eqn:F0; [|congruence].
    unfold falls_back in F. destruct (mkdir_error env _); [|done].
    unfold fallbackDir in Htmp. by rewrite Htmp, andb_false_r in F.
Qed.

End StoreEdges.

(** ** The store with and without the fall-back *)

Section PlainStoreFacts.
Context (env : Env).

Lemma plain_writeFile_eq c w :
  PlainTokenStore.writeFile env c w =
  match mkdir_error env (path_dirname env (absolutePath w)) with
  | Some e => (Throw e, w)
  | None =>
      match writeFile_error env (absolutePath w) with
      | Some e => (Throw e, w)
      | None => (Ok tt, with_files (<[absolutePath w := RegularFile (JsonDoc c)]> (files w)) w)
      end
  end.
Proof.
  unfold PlainTokenStore.writeFile, PlainTokenStore.ensureDir, bind, gets,
    TokenStore.fs_mkdir, TokenStore.fs_writeFile, throw, ret, modify.
  destruct (mkdir_error env (path_dirname env (absolutePath w))); [done|].
  cbn. by destruct (writeFile_error env (absolutePath w)).
Qed.

Lemma plain_writeFile_agrees c w :
  falls_back env (absolutePath w) = false →
  PlainTokenStore.writeFile env c w = TokenStore.writeFile env c w.
Proof.
  intros Hf. rewrite plain_writeFile_eq, writeFile_eq.
  unfold ensured, ensured_path, written, ensured_path. rewrite Hf.
  rewrite !with_absolutePath_id.
  destruct (mkdir_error env (path_dirname env (absolutePath w))); [done|].
  destruct (writeFile_error env (absolutePath w)); done.
Qed.

(** X4. The store with the fall-back behaves as the earlier store
    without it wherever it does not fall back: [get] is the same throughout,
    and [set] and [clear] have the same outcome and leave the same world
    unless [mkdir] fails with ENOENT, EROFS or EACCES for a path outside the
    temporary directory. In that case the earlier store throws the error of
    [mkdir] and writes nothing. The earlier store never changes its
    path. *)
Theorem fallback_store_refines_plain_store (k : string) (r : TokenSet) (w : World) :
  PlainTokenStore.get k w = TokenStore.get k w
  ∧
  (falls_back env (absolutePath w) = false →
   PlainTokenStore.set env r k w = TokenStore.set env r k w ∧
   PlainTokenStore.clear env k w = TokenStore.clear env k w)
  ∧
  (falls_back env (absolutePath w) = true →
   ∀ c, read_contents w = Ok c →
   ∃ err, mkdir_error env (path_dirname env (absolutePath w)) = Some err ∧
          PlainTokenStore.set env r k w = (Throw err, w) ∧
          PlainTokenStore.clear env k w = (Throw err, w))
  ∧
  absolutePath (snd (PlainTokenStore.set env r k w)) = absolutePath w ∧
  absolutePath (snd (PlainTokenStore.clear env k w)) = absolutePath w.
Proof.
  assert (∀ w0, PlainTokenStore.readFile w0 = (read_contents w0, w0)) as Hread.
  { intros w0. rewrite <- readFile_eq. reflexivity. }
  assert (∀ c, absolutePath (snd (PlainTokenStore.writeFile env c w)) = absolutePath w)
    as Hpath.
  { intros c. rewrite plain_writeFile_eq.
    destruct (mkdir_error env _); [done|]. by destruct (writeFile_error env _). }
  split; [|split; [|split; [|split]]].
  - reflexivity.
  - intros Hf. rewrite set_eq, clear_eq.
    unfold PlainTokenStore.set, PlainTokenStore.clear, bind. rewrite Hread.
    destruct (read_contents w) as [c|e]; [|done].
    by rewrite !plain_writeFile_agrees.
  - intros Hf c Hc. unfold falls_back in Hf.
    destruct (mkdir_error env (path_dirname env (absolutePath w))) as [err|] eqn:E;
      [|done].
    exists err. split; [done|].
    unfold PlainTokenStore.set, PlainTokenStore.clear, bind.
    rewrite Hread, Hc, !plain_writeFile_eq, E. done.
  - unfold PlainTokenStore.set, bind. rewrite Hread.
    destruct (read_contents w); [apply Hpath|done].
  - unfold PlainTokenStore.clear, bind. rewrite Hread.
    destruct (read_contents w); [apply Hpath|done].
Qed.

End PlainStoreFacts.

(** ** More on the OAuth client and on token resolution *)

Section OAuthEdges.
Context (env : Env) (cfg : Config).

(** X5. When the provider refuses or the request fails, [exchangeCode] and
    [refreshToken] throw the axios error, after exactly one POST, and leave
    the store as it was: every key reads as before, so a failed refresh
    keeps the stored record with its refresh token. *)
Theorem failed_provider_call_keeps_store (k : string) (w : World) (e : Exn) :
  (∀ code redirect,
     reply env w WhoopOAuthClient.tokenUrl
       (WhoopOAuthClient.exchangeCode_body env cfg code redirect) = Throw e →
     ∃ w', WhoopOAuthClient.exchangeCode env cfg code k redirect w = (Throw e, w') ∧
           length (posts w') = S (length (posts w)) ∧
           ∀ k', fst (TokenStore.get k' w') = fst (TokenStore.get k' w))
  ∧
  (∀ existing,
     TokenStore.get k w = (Ok (Some existing), w) →
     reply env w WhoopOAuthClient.tokenUrl
       (WhoopOAuthClient.refreshToken_body env cfg existing) = Throw e →
     ∃ w', WhoopOAuthClient.refreshToken env cfg k w = (Throw e, w') ∧
           length (posts w') = S (length (posts w)) ∧
           ∀ k', fst (TokenStore.get k' w') = fst (TokenStore.get k' w)).
Proof.
  split.
  - intros code redirect Hrep. rewrite exchangeCode_eq. cbv zeta. rewrite Hrep.
    eexists. split; [done|]. split.
    + unfold posted; simpl. rewrite length_app. simpl. lia.
    + intros k'. by rewrite !get_eq.
  - intros existing Hget Hrep. rewrite refreshToken_eq. rewrite get_eq in Hget.
    destruct (read_contents w) as [c|] eqn:Hc; [|congruence].
    destruct (Object_get c k) as [t|] eqn:Hk; [|congruence].
    assert (t = existing) as -> by congruence. cbv zeta. rewrite Hrep.
    eexists. split; [done|]. split.
    + unfold posted; simpl. rewrite length_app. simpl. lia.
    + intros k'. by rewrite !get_eq.
Qed.

(** X6. After a resolution that refreshed the token, the next resolution for
    the key, made while the clock is still before the new [expiresAt],
    returns the same token from the store and sends no POST. *)
Theorem refreshed_token_is_reused (k : string) (w w' : World)
    (token refreshed : TokenSet) :
  TokenStore.get k w = (Ok (Some (Own token)), w) →
  expiresAt token ≤ Date_now env (clockReads w) →
  WhoopOAuthClient.refreshToken env cfg k (clock_read w) = (Ok refreshed, w') →
  Date_now env (clockReads w') < expiresAt refreshed →
  WhoopApiClient.getAccessToken env cfg k w = (Ok (Some (accessToken refreshed)), w') ∧
  WhoopApiClient.getAccessToken env cfg k w'
    = (Ok (Some (accessToken refreshed)), clock_read w') ∧
  posts (clock_read w') = posts w'.
Proof.
  intros Hget Hexp Hr Hlt.
  assert (TokenStore.get k w' = (Ok (Some (Own refreshed)), w')) as Hget'.
  { apply refreshToken_ok in Hr as (ex & data & _ & _ & _ & Hset).
    apply get_Own_assignable in Hget. eapply set_get; [|exact Hset]. exact Hget. }
  split; [|split; [|done]].
  - rewrite getAccessToken_eq. rewrite get_eq in Hget.
    destruct (read_contents w) as [c|]; [|congruence].
    destruct (Object_get c k) as [t|]; [|congruence].
    assert (t = Own token) as -> by congruence. cbn [expiresAt_of].
    destruct (Z.leb_spec (expiresAt token) (Date_now env (clockReads w))); [|lia].
    by rewrite Hr.
  - rewrite getAccessToken_eq. rewrite get_eq in Hget'.
    destruct (read_contents w') as [c|]; [|congruence].
    destruct (Object_get c k) as [t|]; [|congruence].
    assert (t = Own refreshed) as -> by congruence. cbn [expiresAt_of accessToken_of].
    by destruct (Z.leb_spec (expiresAt refreshed) (Date_now env (clockReads w'))); [lia|].
Qed.

(** X7. A successful code exchange or refresh for one key keeps the records
    of all other keys. *)
Theorem token_commit_keeps_other_keys (k k' : string) (w w' : World)
    (ts : TokenSet) (v : option Member) :
  k' ≠ k →
  TokenStore.get k' w = (Ok v, w) →
  (∀ code redirect,
     WhoopOAuthClient.exchangeCode env cfg code k redirect w = (Ok ts, w') →
     TokenStore.get k' w' = (Ok v, w')) ∧
  (WhoopOAuthClient.refreshToken env cfg k w = (Ok ts, w') →
   TokenStore.get k' w' = (Ok v, w')).
Proof.
  intros Hne Hget.
  assert (∀ body r w1,
            TokenStore.set env r k
              (clock_read (posted WhoopOAuthClient.tokenUrl body w)) = (Ok tt, w1) →
            TokenStore.get k' w1 = (Ok v, w1)) as Hframe.
  { intros body r w1. rewrite set_eq.
    change (read_contents (clock_read (posted WhoopOAuthClient.tokenUrl body w)))
      with (read_contents w).
    rewrite get_eq in Hget. destruct (read_contents w) as [c|]; [|congruence].
    intros ->%writeFile_ok. rewrite get_eq, read_written.
    rewrite Object_get_set_ne by done. congruence. }
  split.
  - intros code redirect (data & _ & _ & Hset)%exchangeCode_ok. by eapply Hframe.
  - intros (existing & data & _ & _ & _ & Hset)%refreshToken_ok. by eapply Hframe.
Qed.

End OAuthEdges.

(** ** More on the server *)

(** *** Strings *)

Lemma prefix_split (p h : string) :
  String.prefix p h = true → ∃ t, h = p +:+ t.
Proof.
  revert h. induction p as [|a p IH]; intros h; [by exists h|].
  destruct h as [|b h]; simpl; [done|].
  destruct (ascii_dec a b) as [->|]; [|done].
  intros [t ->]%IH. by exists t.
Qed.

Lemma prefix_app (p t : string) : String.prefix p (p +:+ t) = true.
Proof.
  induction p as [|a p IH]; simpl; [by destruct t|].
  by destruct (ascii_dec a a).
Qed.

Lemma substring_all (t : string) : substring 0 (String.length t) t = t.
Proof. induction t as [|c t IH]; simpl; [done|]. by rewrite IH. Qed.

Lemma slice_app (p t : string) :
  substring (String.length p) (String.length (p +:+ t) - String.length p) (p +:+ t) = t.
Proof.
  induction p as [|a p IH]; simpl.
  - rewrite Nat.sub_0_r. apply substring_all.
  - apply IH.
Qed.

Lemma append_inj_l (p t1 t2 : string) : p +:+ t1 = p +:+ t2 → t1 = t2.
Proof. induction p as [|a p IH]; simpl; [done|]. intros [= H]. by apply IH. Qed.

Section Gate.
Context (env : Env) (cfg : Config).

(** X8. Which requests pass the API-key check. Without a configured key
    (or with an empty one) every request passes. With a key [K], a request
    passes exactly when its Authorization header is ["Bearer " + K], or is
    [K] itself (for a [K] that does not start with "Bearer "), or is absent
    while the x-api-key header is [K]; an x-api-key header is not looked at
    when an Authorization header is present. A request that does not pass
    is answered 401. *)
Theorem validateApiKey_accepts (req : SseRequest) (w : World) :
  (truthy (apiKey cfg) = false → Server.validateApiKey cfg req w = (Ok true, w))
  ∧
  (∀ K, apiKey cfg = Some K → Boolean K = true →
     let h := header_first (authorization req) in
     let alt := header_first (x_api_key req) in
     (Server.validateApiKey cfg req w = (Ok true, w) ↔
        h = Some ("Bearer " +:+ K) ∨
        (h = Some K ∧ String.prefix "Bearer " K = false) ∨
        (h = None ∧ alt = Some K))
     ∧
     (Server.validateApiKey cfg req w = (Ok true, w) ∨
      Server.validateApiKey cfg req w
        = (Ok false, with_res (Some Server.Unauthorized) w))).
Proof.
  unfold Server.validateApiKey. split.
  - destruct (apiKey cfg) as [K|]; [|done]. intros HK. cbn [truthy] in HK. by rewrite HK.
  - intros K HK0 HK. rewrite HK0, HK. cbn [negb].
    set (h := header_first (authorization req)).
    set (alt := header_first (x_api_key req)). split.
    + destruct h as [hv|] eqn:Hh.
      * destruct (String.prefix "Bearer " hv) eqn:Hp.
        -- apply prefix_split in Hp as [t ->].
           change 7%nat with (String.length "Bearer ").
           rewrite slice_app. case_bool_decide as Hd.
           ++ split; [intros _; left; congruence|done].
           ++ split; [done|]. intros [[= Heq]|[[[= Heq] Hp]|[? _]]]; [| |done].
              ** apply append_inj_l in Heq. congruence.
              ** by rewrite <- Heq, (prefix_app "Bearer " t) in Hp.
        -- case_bool_decide as Hd.
           ++ split; [intros _; right; left; split; congruence|done].
           ++ split; [done|]. intros [[= Heq]|[[[= Heq] _]|[? _]]]; [|congruence|done].
              by rewrite Heq, (prefix_app "Bearer " K) in Hp.
      * case_bool_decide as Hd.
        -- split; [intros _; right; right; done|done].
        -- split; [done|]. intros [?|[[? _]|[_ ?]]]; done.
    + case_bool_decide; [by left|by right].
Qed.

End Gate.

(** *** What the routes leave alone

    The handling of a request by a transport is the SDK's, as above: what
    the tools it runs do is not part of the frames below. *)

Section Frames.
Context (env : Env) (cfg : Config).

Lemma mcp_frame_res r w : mcp_frame w (with_res r w).
Proof.
  exists r, (transports w), (sessionIdOf w), (uuidDraws w), (transportsCreated w).
  split; [by destruct w|lia].
Qed.

Lemma mcp_frame_refl w : mcp_frame w w.
Proof. rewrite <- (with_res_id w) at 2. apply mcp_frame_res. Qed.

Lemma mcp_frame_trans w1 w2 w3 : mcp_frame w1 w2 → mcp_frame w2 w3 → mcp_frame w1 w3.
Proof.
  intros (r & m & m' & n & c & -> & Hn) (r2 & m2 & m2' & n2 & c2 & -> & Hn2).
  exists r2, m2, m2', n2, c2. split; [done|]. simpl in Hn2. lia.
Qed.

Lemma bind_mcp_frame {A B} (m : M A) (k : A → M B) w :
  mcp_frame w (snd (m w)) →
  (∀ a w1, mcp_frame w1 (snd (k a w1))) →
  mcp_frame w (snd (bind m k w)).
Proof.
  intros Hm Hk. unfold bind. destruct (m w) as [[a|e] w1]; simpl in *; [|done].
  eapply mcp_frame_trans; [done|apply Hk].
Qed.

Lemma try_catch_mcp_frame {A} (m : M A) (h : Exn → M A) w :
  mcp_frame w (snd (m w)) →
  (∀ e w1, mcp_frame w1 (snd (h e w1))) →
  mcp_frame w (snd (try_catch m h w)).
Proof.
  intros Hm Hh. unfold try_catch. destruct (m w) as [[a|e] w1]; simpl in *; [done|].
  eapply mcp_frame_trans; [done|apply Hh].
Qed.

Lemma respond_mcp_frame r w : mcp_frame w (snd (Server.respond r w)).
Proof. apply mcp_frame_res. Qed.

Lemma handleRequest_mcp_frame t req body w :
  mcp_frame w (snd (Server.handleRequest env t req body w)).
Proof.
  destruct (handleRequest_cases env t req body w) as [[r ->] | (b & _ & _ & _ & _ & ->)].
  - apply mcp_frame_res.
  - eexists _, _, _, _, (transportsCreated w). split; [by destruct w|simpl; lia].
Qed.

Lemma catch_mcp_frame (r : Response) w :
  mcp_frame w
    (snd ((let* sent := Server.headersSent in
           if negb sent then Server.respond r else ret tt) w)).
Proof.
  unfold bind, Server.headersSent, gets, Server.respond, modify, ret.
  destruct (negb (bool_decide (is_Some (res w)))); simpl;
    [apply mcp_frame_res|apply mcp_frame_refl].
Qed.

Lemma validateApiKey_mcp_frame req w :
  mcp_frame w (snd (Server.validateApiKey cfg req w)).
Proof.
  destruct (validateApiKey_cases cfg req w) as [-> | ->];
    [apply mcp_frame_refl|apply mcp_frame_res].
Qed.

Lemma post_sse_mcp_frame req w : mcp_frame w (snd (Server.post_sse env cfg req w)).
Proof.
  unfold Server.post_sse.
  apply bind_mcp_frame; [apply validateApiKey_mcp_frame|]. intros ok w1.
  destruct (negb ok); [apply mcp_frame_refl|].
  apply try_catch_mcp_frame; [|intros e w2; apply catch_mcp_frame].
  destruct (negb (truthy (header_first (mcp_session_id req)))
            && isInitializeRequest env (body req)).
  - apply bind_mcp_frame.
    + exists (res w1), (transports w1), (sessionIdOf w1), (uuidDraws w1),
        (S (transportsCreated w1)). split; [by destruct w1|lia].
    + intros t w2. apply bind_mcp_frame; [|intros; apply handleRequest_mcp_frame].
      unfold Server.server_connect.
      destruct (sdk_connect_error env t); apply mcp_frame_refl.
  - destruct (negb (truthy (header_first (mcp_session_id req))));
      [apply respond_mcp_frame|].
    apply bind_mcp_frame; [apply mcp_frame_refl|]. intros [t|] w2.
    + apply handleRequest_mcp_frame.
    + apply respond_mcp_frame.
Qed.

Lemma get_sse_mcp_frame req w : mcp_frame w (snd (Server.get_sse env cfg req w)).
Proof.
  unfold Server.get_sse.
  apply bind_mcp_frame; [apply validateApiKey_mcp_frame|]. intros ok w1.
  destruct (negb ok); [apply mcp_frame_refl|].
  destruct (negb (truthy (header_first (mcp_session_id req))));
    [apply respond_mcp_frame|].
  apply bind_mcp_frame; [apply mcp_frame_refl|]. intros [t|] w2.
  - apply try_catch_mcp_frame; [apply handleRequest_mcp_frame|].
    intros e w3. apply catch_mcp_frame.
  - apply respond_mcp_frame.
Qed.

Lemma login_oauth_frame k n s w :
  oauth_frame w (snd (Server.login env cfg k n s w)).
Proof.
  destruct (login_eq env cfg k n s w) as [url ->].
  repeat split; simpl; lia.
Qed.

Lemma callback_oauth_frame c s w :
  oauth_frame w (snd (Server.callback env cfg c s w)) ∧
  uuidDraws (snd (Server.callback env cfg c s w)) = uuidDraws w.
Proof.
  destruct c as [|code|], s as [|st|]; try (by repeat split).
  rewrite callback_eq. destruct (pendingStates w !! st) as [entry|];
    [|by repeat split].
  pose proof (exchangeCode_frame env cfg code (key entry) (redirectUri cfg) w)
    as (p & f & n & l & Hw).
  destruct (WhoopOAuthClient.exchangeCode env cfg code _ _ w) as [[ts|e] w1];
    simpl in *; subst w1; by repeat split.
Qed.

(** X9. The OAuth routes leave the sessions alone: handling a login or a
    callback request, whatever its outcome, and the closure of a transport,
    leave the session map, the session ids of the transports and the
    number of transports constructed as they were. *)
Theorem oauth_routes_leave_sessions_alone (w : World) (ev : Event) :
  (∀ req, ev ≠ PostSse req ∧ ev ≠ GetSse req) →
  let w' := step env cfg w ev in
  transports w' = transports w ∧ sessionIdOf w' = sessionIdOf w ∧
  transportsCreated w' = transportsCreated w.
Proof.
  intros Hev w'. unfold w', step.
  destruct ev as [k n s|c s|req|req|t]; cbn [handle].
  - by destruct (login_oauth_frame k n s (with_res None w)) as (? & ? & ? & _).
  - by destruct (callback_oauth_frame c s (with_res None w)) as [(? & ? & ? & _) _].
  - by destruct (Hev req) as [? _].
  - by destruct (Hev req) as [_ ?].
  - done.
Qed.

End Frames.

(** *** Invariants of the registry of pending states *)

Section Registry.
Context (env : Env) (cfg : Config).

Lemma step_pending_wf w ev : pending_wf env w → pending_wf env (step env cfg w ev).
Proof.
  intros Hwf. unfold step.
  destruct ev as [k n s|c s|req|req|t]; cbn [handle].
  - destruct (login_eq env cfg k n s (with_res None w)) as [url ->].
    unfold pending_wf. simpl.
    intros s' e. destruct (decide (randomUUID env (uuidDraws w) = s')) as [<-|Hne].
    + intros _. exists (uuidDraws w). split; [lia|done].
    + rewrite lookup_insert_ne by done. intros (i & Hi & ->)%Hwf.
      exists i. split; [lia|done].
  - destruct c as [|code|], s as [|st|]; try exact Hwf.
    rewrite callback_eq. cbn [pendingStates with_res].
    destruct (pendingStates w !! st) as [entry|]; [|exact Hwf].
    pose proof (exchangeCode_frame env cfg code (key entry) (redirectUri cfg)
                  (with_res None w)) as (p & f & n & l & Hw).
    destruct (WhoopOAuthClient.exchangeCode env cfg code _ _ _) as [[ts|e] w1];
      simpl in *; subst w1; unfold pending_wf; simpl.
    + intros s' e [_ Hs]%lookup_delete_Some. by apply Hwf in Hs.
    + exact Hwf.
  - destruct (post_sse_mcp_frame env cfg req (with_res None w))
      as (r & m & m' & n & c & -> & Hn).
    unfold pending_wf. simpl in *.
    intros s e (i & Hi & ->)%Hwf. exists i. split; [lia|done].
  - destruct (get_sse_mcp_frame env cfg req (with_res None w))
      as (r & m & m' & n & c & -> & Hn).
    unfold pending_wf. simpl in *.
    intros s e (i & Hi & ->)%Hwf. exists i. split; [lia|done].
  - exact Hwf.
Qed.

Lemma reachable_pending_wf w : reachable env cfg w → pending_wf env w.
Proof.
  intros (disk & evs & ->). unfold run.
  assert (pending_wf env (initial env cfg disk)) as H0
    by (intros s e; simpl; by rewrite lookup_empty).
  revert H0. generalize (initial env cfg disk).
  induction evs as [|ev evs IH]; intros w Hw; [done|].
  simpl. apply IH. by apply step_pending_wf.
Qed.

(** X10. A login request registers the requested key (or "default") and the
    [next] address under a state fresh from the generator, and redirects to
    the authorization URL that carries this state; it sends nothing and
    reads or writes no file. In a state the process can reach, with a
    generator that does not repeat itself, the state was not registered
    before, so every earlier registration is kept. *)
Theorem login_registers_fresh_state (q_key q_next q_scopes : QueryVal) (w : World) :
  let st := randomUUID env (uuidDraws w) in
  let entry := {| key := match q_key with QString s => s | _ => "default" end;
                  successRedirect := match q_next with QString s => Some s | _ => None end |} in
  let w' := step env cfg w (GetLogin q_key q_next q_scopes) in
  pendingStates w' = <[st := entry]> (pendingStates w) ∧
  (∃ url, res w' = Some (Redirect url) ∧
          WhoopOAuthClient.buildAuthorizationUrl env cfg
            {| state := Some st;
               scopes := match q_scopes with
                         | QString s => Some (filter (fun x => Is_true (Boolean x))
                                                (trim <$> split_on "," s))
                         | _ => None
                         end;
               redirect := None |} w = (Ok (url, st), w)) ∧
  posts w' = posts w ∧ files w' = files w ∧
  (reachable env cfg w → uuids_distinct env →
   pendingStates w !! st = None ∧
   ∀ s e, pendingStates w !! s = Some e → pendingStates w' !! s = Some e).
Proof.
  intros st entry w'.
  assert (w' = with_res
            (Some (Redirect
               (WhoopOAuthClient.authorizeUrl +:+ "?" +:+
                qs_stringify env
                  [ ("client_id", clientId cfg);
                    ("redirect_uri", redirectUri cfg);
                    ("response_type", "code");
                    ("scope", String.concat " "
                       (default (defaultScopes cfg)
                          match q_scopes with
                          | QString s => Some (filter (fun x => Is_true (Boolean x))
                                                 (trim <$> split_on "," s))
                          | _ => None
                          end));
                    ("state", st) ])))
            (with_pendingStates (<[st := entry]> (pendingStates w))
               (with_uuidDraws (S (uuidDraws w)) w))) as ->.
  { unfold w', step. cbn [handle]. unfold Server.login, try_catch, bind.
    by rewrite buildAuthorizationUrl_eq. }
  split; [done|]. split.
  { eexists. split; [done|]. by rewrite buildAuthorizationUrl_eq. }
  do 2 (split; [done|]). intros Hreach Hinj.
  assert (pendingStates w !! st = None) as Hfresh.
  { destruct (pendingStates w !! st) as [e|] eqn:E; [|done].
    apply (reachable_pending_wf _ Hreach) in E as (i & Hi & Heq).
    apply Hinj in Heq. lia. }
  split; [done|]. intros s e Hs. simpl.
  rewrite lookup_insert_ne; [done|]. intros <-. congruence.
Qed.

(** X11. Only states issued by this process open the callback. In a state
    the process can reach, a callback whose state is none of the values the
    generator has returned so far is answered "Unknown or expired OAuth
    state." (400): nothing is sent to the provider and nothing changes. *)
Theorem callback_refuses_foreign_state (code st : string) (w : World) :
  reachable env cfg w →
  (∀ i, (i < uuidDraws w)%nat → randomUUID env i ≠ st) →
  step env cfg w (GetCallback (QString code) (QString st))
    = with_res (Some Server.UnknownOrExpiredState) w.
Proof.
  intros Hreach Hforeign. unfold step. cbn [handle]. rewrite callback_eq.
  cbn [pendingStates with_res].
  destruct (pendingStates w !! st) as [e|] eqn:E; [|done].
  apply (reachable_pending_wf _ Hreach) in E as (i & Hi & Heq).
  by destruct (Hforeign i Hi).
Qed.

(** X12. From login to stored credentials. After a login request for key
    [k], a callback with the state the login issued exchanges the code and,
    when the exchange succeeds, deletes the state and redirects to the
    [next] address of the login if there was a non-empty one, answering 200
    otherwise. The record is then stored under [k] where the assignment
    reaches the mapping; for the key [__proto__] (without a property of
    that name in the file) the answer is the same, but nothing has been
    stored. *)
Theorem login_then_callback_commits (q_key q_next q_scopes : QueryVal)
    (code : string) (w : World) (ts : TokenSet) (w2 : World) :
  let k := match q_key with QString s => s | _ => "default" end in
  let next := match q_next with QString s => Some s | _ => None end in
  let st := randomUUID env (uuidDraws w) in
  let w1 := step env cfg w (GetLogin q_key q_next q_scopes) in
  WhoopOAuthClient.exchangeCode env cfg code k (redirectUri cfg) (with_res None w1)
    = (Ok ts, w2) →
  let w' := step env cfg w1 (GetCallback (QString code) (QString st)) in
  (assignable k w → TokenStore.get k w' = (Ok (Some (Own ts)), w')) ∧
  (¬ assignable k w →
   k = "__proto__" ∧
   TokenStore.get k w' = (Ok (Some (Inherited "__proto__")), w') ∧
   read_contents w' = read_contents w) ∧
  pendingStates w' !! st = None ∧
  res w' = Some (if truthy next then Redirect (default "" next)
                 else Send 200 "WHOOP authorization successful. You can close this window.").
Proof.
  intros k next st w1 Hex w'.
  assert (pendingStates (with_res None w1) !! st
          = Some {| key := k; successRedirect := next |}) as Hreg.
  { unfold w1, step. cbn [handle].
    destruct (login_eq env cfg q_key q_next q_scopes (with_res None w)) as [url ->].
    simpl. by rewrite lookup_insert_eq. }
  assert (read_contents (with_res None w1) = read_contents w) as Hsame.
  { unfold w1, step. cbn [handle].
    by destruct (login_eq env cfg q_key q_next q_scopes (with_res None w)) as [url ->]. }
  assert (assignable k (with_res None w1) ↔ assignable k w) as Hassign.
  { unfold assignable. by rewrite Hsame. }
  unfold w', step. cbn [handle]. rewrite callback_eq, Hreg.
  cbn [key successRedirect]. rewrite Hex. cbn [snd].
  apply exchangeCode_ok in Hex as (data & _ & _ & Hset).
  split; [|split; [|split]].
  - intros Ha%Hassign.
    apply (set_get _ _ _ _ _ (Ha : assignable _ (clock_read (posted _ _ _)))) in Hset.
    rewrite get_eq in Hset |- *.
    change (read_contents (with_res _ (with_pendingStates _ w2)))
      with (read_contents w2).
    destruct (read_contents w2); congruence.
  - intros Ha. assert (¬ assignable k (with_res None w1)) as Ha1 by by rewrite Hassign.
    pose proof (not_assignable _ _ Ha) as Hk. split; [done|]. rewrite Hk in *.
    destruct (set_get_proto _ _ _ _
                (Ha1 : ¬ assignable _ (clock_read (posted _ _ _))) Hset)
      as [Hget Hread].
    split.
    + rewrite get_eq in Hget |- *.
      change (read_contents (with_res _ (with_pendingStates _ w2)))
        with (read_contents w2).
      destruct (read_contents w2); congruence.
    + change (read_contents (with_res _ (with_pendingStates _ w2)))
        with (read_contents w2).
      rewrite Hread. exact Hsame.
  - simpl. by rewrite lookup_delete_eq.
  - done.
Qed.

End Registry.

Section Sessions.
Context (env : Env) (cfg : Config).

Lemma handleRequest_no_body t req w :
  ∃ r, snd (Server.handleRequest env t req None w) = with_res r w.
Proof.
  destruct (handleRequest_cases env t req None w) as [H | (b & Hb & _)]; [done|].
  discriminate.
Qed.

(** X13. Routing of [GET /sse] requests that pass the API-key check: without
    a session id the answer is "Missing MCP session ID." (400), with an id
    that is not in the map "Unknown MCP session" (404), and with a known id
    the request is handed to the transport of that session. A GET request
    never creates a session: the session map and the generator are as they
    were, whatever the request. *)
Theorem get_sse_routing (req : SseRequest) (w : World) :
  let sessionId := header_first (mcp_session_id req) in
  let w' := step env cfg w (GetSse req) in
  (transports w' = transports w ∧ uuidDraws w' = uuidDraws w ∧
   transportsCreated w' = transportsCreated w)
  ∧
  (Server.validateApiKey cfg req (with_res None w) = (Ok true, with_res None w) →
   (truthy sessionId = false →
    w' = with_res (Some (Send 400 "Missing MCP session ID.")) w)
   ∧
   (∀ given, sessionId = Some given → truthy sessionId = true →
      transports w !! given = None →
      w' = with_res (Some (Send 404 ("Unknown MCP session: " +:+ given))) w)
   ∧
   (∀ given t, sessionId = Some given → truthy sessionId = true →
      transports w !! given = Some t →
      (∀ e sent, sdk_handleRequest env t req ≠ SdkThrows e sent) →
      w' = with_res (Some (ByTransport t)) w)).
Proof.
  intros sessionId w'. split.
  - unfold w', step. cbn [handle]. unfold Server.get_sse, bind.
    destruct (validateApiKey_cases cfg req (with_res None w)) as [-> | ->];
      cbn [negb]; [|done].
    fold sessionId. destruct (negb (truthy sessionId)); [done|].
    unfold bind, gets. cbn [transports with_res].
    destruct (transports w !! default "" sessionId) as [t|]; [|done].
    unfold try_catch.
    destruct (handleRequest_no_body t req (with_res None w)) as [r Hr].
    destruct (Server.handleRequest env t req None _) as [[[]|e] w2];
      simpl in Hr; subst w2; [done|].
    unfold bind, Server.headersSent, gets, Server.respond, modify, ret.
    by destruct (negb _).
  - intros Hkey. unfold w', step. cbn [handle]. unfold Server.get_sse, bind.
    rewrite Hkey. cbn [negb]. fold sessionId. split; [|split].
    + by intros ->.
    + intros given Hid -> Hnone. cbn [negb]. rewrite Hid.
      unfold bind, gets. cbn [default from_option id transports with_res].
      by rewrite Hnone.
    + intros given t Hid -> Hlook Hsdk. cbn [negb]. rewrite Hid.
      unfold bind, gets. cbn [default from_option id transports with_res].
      rewrite Hlook. unfold try_catch.
      unfold Server.handleRequest, Server.transport_handleRequest.
      destruct (sdk_handleRequest env t req) as [| |e sent];
        [| |by destruct (Hsdk e sent)].
      * unfold bind, gets. by destruct (sessionIdOf (with_res None w) !! t).
      * done.
Qed.

(** X14. Transports are not shared between sessions. In every state the
    process can reach, two session ids that are mapped to the same
    transport are the same id, and a mapped transport is one the
    application constructed, with that id as its session id. *)
Theorem sessions_do_not_share_transports (w : World) (s1 s2 : string) (t : nat) :
  reachable env cfg w →
  transports w !! s1 = Some t →
  (transports w !! s2 = Some t → s1 = s2) ∧
  (t < transportsCreated w)%nat ∧
  sessionIdOf w !! t = Some s1.
Proof.
  intros [Ht Hs]%reachable_sessions_wf H1.
  destruct (Ht _ _ H1) as [Hsid _]. split; [|split; [by eapply Hs|done]].
  intros H2. destruct (Ht _ _ H2) as [Hsid2 _]. congruence.
Qed.

End Sessions.

(** X15. What [parseHttpError] reports. A status is reported exactly for an
    axios error whose response has a status other than 0. The message
    reported for an axios error is never empty: an empty one is replaced by
    "HTTP request failed". Errors of other kinds give their own message and
    no status. *)
Theorem parseHttpError_reports (error : Exn) :
  (∀ st, status (parseHttpError error) = Some st ↔
         st ≠ 0 ∧ ∃ m data, error = AxiosError m (Some (st, data)))
  ∧
  (∀ m response, error = AxiosError m response →
     message (parseHttpError error) ≠ "")
  ∧
  ((∀ m response, error ≠ AxiosError m response) →
   parseHttpError error = {| status := None; message := err_message error |}).
Proof.
  split; [|split].
  - intros st. destruct error as [m|c m|m|m [[st' data]|]]; simpl;
      try (split; [done|intros [_ (? & ? & ?)]; done]).
    destruct (Z.eqb_spec st' 0) as [->|Hne]; simpl.
    + split; [done|]. intros [Hne (? & ? & [= _ <- _])]. done.
    + split.
      * intros [= <-]. split; [done|]. by eexists _, _.
      * intros [_ (? & ? & [= _ <- _])]. done.
  - intros m response ->. simpl.
    assert (∀ s, (if String.eqb m "" then "HTTP request failed" else m) +:+ s ≠ "")
      as Hne.
    { intros s. destruct (String.eqb_spec m ""); [done|]. by destruct m. }
    assert ((if String.eqb m "" then "HTTP request failed" else m) ≠ "") as Hne0.
    { destruct (String.eqb_spec m ""); done. }
    destruct response as [[st data]|]; simpl; [|done].
    destruct (st =? 0); simpl; [done|apply Hne].
  - intros Hother. destruct error as [m|c m|m|m response]; try done.
    by destruct (Hother m response).
Qed.

(** ** The requests to the WHOOP API *)

Section ApiFacts.
Context (env : Env) (cfg : Config).
Context {Data : Type} (whoop_api : nat → Api.RequestConfig → Result Data).

(** What [get] can return for a key: the record stored under it, or, for
    a key without a record, the member of [Object.prototype] it names. *)
Lemma get_Some_cases (k : string) (w : World) (v : Member) :
  TokenStore.get k w = (Ok (Some v), w) →
  ∃ c, read_contents w = Ok c ∧
       match v with
       | Own token => c !! k = Some token
       | Inherited name => name = k ∧ c !! k = None ∧ inherited k = true
       end.
Proof.
  rewrite get_eq. destruct (read_contents w) as [c|]; [|done].
  unfold Object_get. intros Hget. exists c. split; [done|].
  destruct (c !! k) as [token|].
  - by injection Hget as <-.
  - destruct (inherited k) eqn:Hin; [|done]. by injection Hget as <-.
Qed.

Lemma getAccessToken_stored (k : string) (w w' : World) (a : option string) :
  WhoopApiClient.getAccessToken env cfg k w = (Ok a, w') →
  ∃ v, TokenStore.get k w' = (Ok (Some v), w') ∧ accessToken_of v = a.
Proof.
  rewrite getAccessToken_eq.
  destruct (read_contents w) as [c|] eqn:Hc; [|congruence].
  destruct (Object_get c k) as [v|] eqn:Hk; [|congruence].
  destruct (match expiresAt_of v with Some _ => _ | None => _ end) eqn:Hexp.
  - destruct (WhoopOAuthClient.refreshToken env cfg k (clock_read w))
      as [[refreshed|?] w1] eqn:Hr; [|congruence].
    intros [= <- <-]. exists (Own refreshed). split; [|done].
    apply refreshToken_ok in Hr as (ex & data & _ & _ & _ & Hset).
    eapply set_get; [|exact Hset].
    destruct v as [token|name]; [|done].
    apply Object_get_Own in Hk. right. by exists c, token.
  - intros [= <- <-]. exists v. split; [|done].
    rewrite get_eq. change (read_contents (clock_read w)) with (read_contents w).
    by rewrite Hc, Hk.
Qed.

Lemma request_eq (config : Api.RequestConfig) (key : string) (s : Api.ApiWorld) :
  Api.request env cfg whoop_api config key s =
  match WhoopApiClient.getAccessToken env cfg key (Api.world s) with
  | (Throw e, w') => (Throw e, {| Api.world := w'; Api.requests := Api.requests s |})
  | (Ok accessToken, w') =>
      let sent :=
        {| Api.method := Api.method config;
           Api.url := Api.url config;
           Api.params := Api.params config;
           Api.headers := Some (<["Authorization" := "Bearer " +:+ Api.template accessToken]>
                                  (default ∅ (Api.headers config))) |} in
      (whoop_api (length (Api.requests s)) sent,
       {| Api.world := w'; Api.requests := Api.requests s ++ [sent] |})
  end.
Proof.
  unfold Api.request, Api.bindA, Api.liftA, Api.http_request, Api.retA.
  destruct (WhoopApiClient.getAccessToken env cfg key (Api.world s)) as [[a|e] w'];
    [|done].
  cbn [Api.world Api.requests]. by destruct (whoop_api _ _).
Qed.

(** X16. What [request] sends. When the access token cannot be resolved,
    [request] throws the error of the resolution and sends nothing.
    Otherwise it sends exactly one request, with the method, the address and
    the parameters it was given, and the result is the answer to that
    request. Its header [Authorization] replaces one of the caller, and
    every other header of the caller is kept. The header is made from what
    [get] returns for the key at that moment: where the store holds a record
    for the key it is ["Bearer "] followed by the access token of that
    record; where the store holds no record and the key names a member of
    [Object.prototype] it is ["Bearer undefined"]. *)
Theorem request_carries_stored_token (config : Api.RequestConfig) (key : string)
    (s : Api.ApiWorld) :
  let r := Api.request env cfg whoop_api config key s in
  (∀ e w', WhoopApiClient.getAccessToken env cfg key (Api.world s) = (Throw e, w') →
     r = (Throw e, {| Api.world := w'; Api.requests := Api.requests s |}))
  ∧
  (∀ a w', WhoopApiClient.getAccessToken env cfg key (Api.world s) = (Ok a, w') →
     ∃ sent hs,
       r = (whoop_api (length (Api.requests s)) sent,
            {| Api.world := w'; Api.requests := Api.requests s ++ [sent] |}) ∧
       Api.method sent = Api.method config ∧ Api.url sent = Api.url config ∧
       Api.params sent = Api.params config ∧
       Api.headers sent = Some hs ∧
       (∀ name, name ≠ "Authorization" →
          hs !! name = default ∅ (Api.headers config) !! name) ∧
       ∃ v c, TokenStore.get key w' = (Ok (Some v), w') ∧
              read_contents w' = Ok c ∧
              match v with
              | Own token =>
                  c !! key = Some token ∧
                  hs !! "Authorization" = Some ("Bearer " +:+ accessToken token)
              | Inherited _ =>
                  c !! key = None ∧ inherited key = true ∧
                  hs !! "Authorization" = Some "Bearer undefined"
              end).
Proof.
  intros r. subst r. rewrite request_eq. split.
  - by intros e w' ->.
  - intros a w' Hget. rewrite Hget. cbv zeta. eexists _, _.
    split; [done|]. cbn [Api.method Api.url Api.params Api.headers].
    split; [done|]. split; [done|]. split; [done|]. split; [done|]. split.
    + intros name Hne. by rewrite lookup_insert_ne.
    + apply getAccessToken_stored in Hget as (v & Hstored & <-).
      destruct (get_Some_cases _ _ _ Hstored) as (c & Hc & Hv).
      exists v, c. split; [done|]. split; [done|].
      rewrite lookup_insert_eq. destruct v as [token|name].
      * by split.
      * by destruct Hv as (_ & ? & ?).
Qed.

Lemma normalizePaginatedParams_id p : Api.normalizePaginatedParams p = p.
Proof. by destruct p. Qed.

(** The request a method asks for, before the token is added. *)
Lemma call_eq (m : Api.Method) (key : string) :
  ∃ u ps, Api.call env cfg whoop_api m key =
          Api.request env cfg whoop_api
            {| Api.method := "GET"; Api.url := u; Api.params := ps;
               Api.headers := None |} key ∧
          String.prefix "/v2/" u = true ∧
          ps = match m with
               | Api.ListSleep p | Api.ListRecoveries p
               | Api.ListWorkouts p | Api.ListCycles p => Some p
               | _ => None
               end.
Proof.
  destruct m; cbn [Api.call];
    unfold Api.getBasicProfile, Api.getBodyMeasurements, Api.listSleep,
      Api.getSleepById, Api.listRecoveries, Api.getRecoveryForCycle,
      Api.listWorkouts, Api.getWorkoutById, Api.listCycles, Api.getCycleById,
      Api.getSleepForCycle;
    rewrite ?normalizePaginatedParams_id; eexists _, _; (split; [reflexivity|]);
    by split.
Qed.

(** X17. Every public method of the client sends at most one request. If
    the access token cannot be resolved, none is sent and the error of the
    resolution is thrown. Otherwise the one request is a [GET] for an
    address under [/v2/], a list method passes on the four pagination
    parameters it was given, and the one header the client sets is
    [Authorization]: with the access token of the record stored for the
    key, or, for a key without a record that names a member of
    [Object.prototype], with the text "undefined" in its place. *)
Theorem api_calls_are_authorized_gets (m : Api.Method) (key : string)
    (s : Api.ApiWorld) :
  let out := Api.call env cfg whoop_api m key s in
  (∃ e, fst out = Throw e ∧ Api.requests (snd out) = Api.requests s ∧
        fst (WhoopApiClient.getAccessToken env cfg key (Api.world s)) = Throw e)
  ∨
  (∃ sent v c,
     Api.requests (snd out) = (Api.requests s ++ [sent])%list ∧
     fst out = whoop_api (length (Api.requests s)) sent ∧
     Api.method sent = "GET" ∧
     String.prefix "/v2/" (Api.url sent) = true ∧
     Api.params sent = match m with
                       | Api.ListSleep p | Api.ListRecoveries p
                       | Api.ListWorkouts p | Api.ListCycles p => Some p
                       | _ => None
                       end ∧
     TokenStore.get key (Api.world (snd out)) = (Ok (Some v), Api.world (snd out)) ∧
     read_contents (Api.world (snd out)) = Ok c ∧
     match v with
     | Own token =>
         c !! key = Some token ∧
         Api.headers sent =
           Some {["Authorization" := "Bearer " +:+ accessToken token]}
     | Inherited _ =>
         c !! key = None ∧ inherited key = true ∧
         Api.headers sent = Some {["Authorization" := "Bearer undefined"]}
     end).
Proof.
  intros out. subst out. destruct (call_eq m key) as (u & ps & -> & Hu & ->).
  rewrite request_eq.
  destruct (WhoopApiClient.getAccessToken env cfg key (Api.world s)) as [[a|e] w'] eqn:Hget.
  - right. apply getAccessToken_stored in Hget as (v & Hstored & <-).
    destruct (get_Some_cases _ _ _ Hstored) as (c & Hc & Hv).
    cbv zeta. cbn [fst snd Api.requests Api.world].
    eexists _, v, c. split; [done|]. split; [done|].
    cbn [Api.method Api.url Api.params Api.headers default from_option id].
    split; [done|]. split; [done|]. split; [done|]. split; [done|]. split; [done|].
    destruct v as [token|name].
    + by split.
    + by destruct Hv as (_ & ? & ?).
  - left. exists e. by cbn.
Qed.

End ApiFacts.

(** ** Configuration and scope lists *)

Lemma Boolean_true_iff (s : string) : Boolean s = true ↔ s ≠ "".
Proof.
  unfold Boolean. rewrite negb_true_iff. split.
  - intros H ->. by rewrite String.eqb_refl in H.
  - intros H. by apply String.eqb_neq.
Qed.

Lemma required_ok (value : option string) (name v : string) :
  required value name = Ok v ↔ value = Some v ∧ v ≠ "".
Proof.
  unfold required, truthy. destruct value as [s|]; cbn.
  - destruct (Boolean s) eqn:B; cbn.
    + apply Boolean_true_iff in B. split; [intros [= <-]; done|]. by intros [[= <-] _].
    + split; [done|]. intros [[= <-] Hne]. apply Boolean_true_iff in Hne. congruence.
  - split; [done|]. by intros [? _].
Qed.

Lemma required_throw (value : option string) (name : string) (e : Exn) :
  required value name = Throw e →
  truthy value = false ∧
  e = JsError ("Missing required environment variable " +:+ name).
Proof.
  unfold required. destruct (truthy value); cbn; [done|]. by intros [= <-].
Qed.

(** X18. Loading the configuration succeeds exactly when
    [PUBLIC_BASE_URL], [WHOOP_CLIENT_ID] and [WHOOP_CLIENT_SECRET] are all
    set to non-empty strings. When it fails, the error names the first of
    the three, in this order, that is unset or empty; a loaded configuration
    has the three values as they are in the environment, none of them
    empty. *)
Theorem config_required (process_env : gmap string string) :
  let missing name := JsError ("Missing required environment variable " +:+ name) in
  ((∃ c, config process_env = Ok c) ↔
     truthy (process_env !! "PUBLIC_BASE_URL") = true ∧
     truthy (process_env !! "WHOOP_CLIENT_ID") = true ∧
     truthy (process_env !! "WHOOP_CLIENT_SECRET") = true)
  ∧
  (truthy (process_env !! "PUBLIC_BASE_URL") = false →
   config process_env = Throw (missing "PUBLIC_BASE_URL"))
  ∧
  (truthy (process_env !! "PUBLIC_BASE_URL") = true →
   truthy (process_env !! "WHOOP_CLIENT_ID") = false →
   config process_env = Throw (missing "WHOOP_CLIENT_ID"))
  ∧
  (truthy (process_env !! "PUBLIC_BASE_URL") = true →
   truthy (process_env !! "WHOOP_CLIENT_ID") = true →
   truthy (process_env !! "WHOOP_CLIENT_SECRET") = false →
   config process_env = Throw (missing "WHOOP_CLIENT_SECRET"))
  ∧
  (∀ c, config process_env = Ok c →
     process_env !! "PUBLIC_BASE_URL" = Some (baseUrl c) ∧ baseUrl c ≠ "" ∧
     process_env !! "WHOOP_CLIENT_ID" = Some (clientId c) ∧ clientId c ≠ "" ∧
     process_env !! "WHOOP_CLIENT_SECRET" = Some (clientSecret c) ∧ clientSecret c ≠ "").
Proof.
  intros missing. unfold config.
  destruct (required (process_env !! "PUBLIC_BASE_URL") _) as [b|e1] eqn:H1.
  2:{ apply required_throw in H1 as [H1 ->]. rewrite H1.
      split; [|by repeat split]. split; [by intros [? ?]|]. by intros (? & _). }
  apply required_ok in H1 as [H1 N1].
  assert (truthy (process_env !! "PUBLIC_BASE_URL") = true) as ->
    by (rewrite H1; by apply Boolean_true_iff).
  destruct (required (process_env !! "WHOOP_CLIENT_ID") _) as [i|e2] eqn:H2.
  2:{ apply required_throw in H2 as [H2 ->]. rewrite H2.
      split; [|by repeat split]. split; [by intros [? ?]|]. by intros (_ & ? & _). }
  apply required_ok in H2 as [H2 N2].
  assert (truthy (process_env !! "WHOOP_CLIENT_ID") = true) as ->
    by (rewrite H2; by apply Boolean_true_iff).
  destruct (required (process_env !! "WHOOP_CLIENT_SECRET") _) as [s|e3] eqn:H3.
  2:{ apply required_throw in H3 as [H3 ->]. rewrite H3.
      split; [|by repeat split]. split; [by intros [? ?]|]. by intros (_ & _ & ?). }
  apply required_ok in H3 as [H3 N3].
  assert (truthy (process_env !! "WHOOP_CLIENT_SECRET") = true) as ->
    by (rewrite H3; by apply Boolean_true_iff).
  split; [|split; [|split; [|split]]]; try done.
  - split; [done|]. by eexists.
  - by intros c [= <-].
Qed.

(** X19. With [MCP_API_KEY] unset or set to the empty string, the loaded
    configuration lets every request pass the API-key check, whatever its
    headers. *)
Theorem no_api_key_opens_the_gate (process_env : gmap string string) (c : Config) :
  config process_env = Ok c →
  truthy (process_env !! "MCP_API_KEY") = false →
  ∀ req w, Server.validateApiKey c req w = (Ok true, w).
Proof.
  unfold config.
  destruct (required _ _); [|done]. destruct (required _ _); [|done].
  destruct (required _ _); [|done]. intros [= <-] Hk req w.
  unfold Server.validateApiKey. cbn [apiKey].
  destruct (process_env !! "MCP_API_KEY") as [k|]; [|done].
  cbn in Hk. by rewrite Hk.
Qed.

(** *** Scope lists *)

Lemma split_on_chars sep s p c :
  p ∈ split_on sep s → c ∈ chars p → c ∈ chars s ∧ c ≠ sep.
Proof.
  revert p. induction s as [|a r IH]; intros p; cbn.
  - intros ->%list_elem_of_singleton. cbn. by intros ?%elem_of_nil.
  - destruct (Ascii.eqb_spec a sep) as [->|Hne].
    + intros [->|Hp]%elem_of_cons.
      * cbn. by intros ?%elem_of_nil.
      * intros Hc. destruct (IH p Hp Hc). split; [by right|done].
    + destruct (split_on sep r) as [|h t] eqn:E.
      * intros ->%list_elem_of_singleton. cbn. intros [->|?%elem_of_nil]%elem_of_cons; [|done].
        split; [by left|done].
      * intros [->|Hp]%elem_of_cons.
        -- cbn. intros [->|Hc]%elem_of_cons; [split; [by left|done]|].
           destruct (IH h (ltac:(by left)) Hc). split; [by right|done].
        -- intros Hc. destruct (IH p (ltac:(by right)) Hc). split; [by right|done].
Qed.

Lemma trimStart_chars s c : c ∈ chars (trimStart s) → c ∈ chars s.
Proof.
  induction s as [|a r IH]; cbn; [done|].
  destruct (is_space a); [|done]. intros H. right. by apply IH.
Qed.

Lemma trimEnd_chars s c : c ∈ chars (trimEnd s) → c ∈ chars s.
Proof.
  induction s as [|a r IH]; cbn; [done|].
  destruct (trimEnd r) as [|b r'] eqn:E.
  - destruct (is_space a); cbn; [by intros ?%elem_of_nil|].
    intros [->|?%elem_of_nil]%elem_of_cons; [by left|done].
  - cbn. intros [->|H]%elem_of_cons; [by left|]. right. by apply IH.
Qed.

Lemma trimStart_first s c r : trimStart s = String c r → is_space c = false.
Proof.
  induction s as [|a s IH]; cbn; [done|].
  destruct (is_space a) eqn:E; [done|]. by intros [= <- _].
Qed.

Lemma trimEnd_first c r d r' :
  is_space c = false → trimEnd (String c r) = String d r' → d = c.
Proof.
  cbn. intros Hc. destruct (trimEnd r); [rewrite Hc|]; by intros [= <- _].
Qed.

Lemma trimEnd_last s y c : trimEnd s = y +:+ String c "" → is_space c = false.
Proof.
  revert y. induction s as [|a r IH]; intros y; cbn.
  - by destruct y.
  - destruct (trimEnd r) as [|b r'] eqn:E.
    + destruct (is_space a) eqn:Ha; [by destruct y|].
      destruct y as [|? [|? ?]]; cbn; [|done..]. by intros [= <-].
    + destruct y as [|a' y']; cbn; [done|]. intros [= _ H]. by eapply IH.
Qed.

Lemma trimStart_blank s : (∀ c, c ∈ chars s → is_space c = true) → trimStart s = "".
Proof.
  induction s as [|a r IH]; cbn; [done|]. intros H.
  rewrite (H a) by by left. apply IH. intros c Hc. apply H. by right.
Qed.

Lemma parseScopes_elem x s :
  x ∈ parseScopes s ↔ x ≠ "" ∧ ∃ p, p ∈ split_on "," s ∧ x = trim p.
Proof.
  unfold parseScopes. rewrite list_elem_of_filter, list_elem_of_fmap.
  rewrite Is_true_true, Boolean_true_iff. split.
  - intros (? & p & ? & ?). split; [done|]. by exists p.
  - intros (? & p & ? & ?). split; [done|]. by exists p.
Qed.

Lemma parseScopes_blank s : blank s → parseScopes s = [].
Proof.
  intros Hblank. apply elem_of_nil_inv.
  intros x (Hne & p & Hp & ->)%parseScopes_elem. apply Hne.
  unfold trim. rewrite trimStart_blank; [done|].
  intros c Hc. destruct (split_on_chars _ _ _ _ Hp Hc) as [Hs Hcomma].
  by destruct (Hblank c Hs).
Qed.

(** X20. The scope list read from a comma-separated string: every entry is
    non-empty, holds no comma, neither begins nor ends with white space, and
    is made of characters of the string. A string of commas and white space
    only (the empty string is one) gives the empty list. *)
Theorem parseScopes_entries (s : string) :
  (∀ x, x ∈ parseScopes s →
     x ≠ "" ∧ ¬ (","%char ∈ chars x) ∧
     (∀ c r, x = String c r → is_space c = false) ∧
     (∀ y c, x = y +:+ String c "" → is_space c = false) ∧
     (∀ c, c ∈ chars x → c ∈ chars s))
  ∧
  (blank s → parseScopes s = []).
Proof.
  split.
  - intros x (Hne & p & Hp & ->)%parseScopes_elem.
    assert (∀ c, c ∈ chars (trim p) → c ∈ chars s ∧ c ≠ ","%char) as Hchars.
    { intros c Hc. eapply split_on_chars; [done|].
      by apply trimStart_chars, trimEnd_chars. }
    split; [done|]. split; [|split; [|split]].
    + intros Hc. by destruct (Hchars _ Hc).
    + intros c r Heq. unfold trim in Heq.
      destruct (trimStart p) as [|a t] eqn:Et; [done|].
      pose proof (trimStart_first _ _ _ Et) as Ha.
      by rewrite (trimEnd_first _ _ _ _ Ha Heq).
    + intros y c Heq. by eapply trimEnd_last.
    + intros c Hc. by destruct (Hchars _ Hc).
  - apply parseScopes_blank.
Qed.

Section BlankScopes.
Context (env : Env) (cfg : Config).

(** X21. An empty scope list does not fall back to the defaults. When
    [WHOOP_SCOPES] is set to a string of commas and white space only, the
    configured default scopes are the empty list, not the three built-in
    ones that an unset variable gives; and a login request whose [scopes]
    parameter is such a string is redirected to an authorization URL whose
    [scope] is empty, whatever the configured defaults. *)
Theorem blank_scopes_are_not_defaulted (s : string) :
  blank s →
  (∀ process_env c,
     config process_env = Ok c →
     (process_env !! "WHOOP_SCOPES" = Some s → defaultScopes c = []) ∧
     (process_env !! "WHOOP_SCOPES" = None →
      defaultScopes c = ["read:sleep"; "read:cycles"; "read:profile"]))
  ∧
  (∀ q_key q_next w,
     res (step env cfg w (GetLogin q_key q_next (QString s)))
     = Some (Redirect
         (WhoopOAuthClient.authorizeUrl +:+ "?" +:+
          qs_stringify env
            [ ("client_id", clientId cfg);
              ("redirect_uri", redirectUri cfg);
              ("response_type", "code");
              ("scope", "");
              ("state", randomUUID env (uuidDraws w)) ]))).
Proof.
  intros Hblank. pose proof (parseScopes_blank s Hblank) as Hnil. split.
  - intros process_env c. unfold config.
    destruct (required _ _); [|done]. destruct (required _ _); [|done].
    destruct (required _ _); [|done]. intros [= <-]. cbn [defaultScopes].
    split; intros ->; cbn; by rewrite ?Hnil.
  - intros q_key q_next w. unfold step, handle.
    unfold Server.login, try_catch, bind. rewrite buildAuthorizationUrl_eq.
    cbn [state scopes redirect default from_option id fst snd].
    fold (parseScopes s). rewrite Hnil. reflexivity.
Qed.

End BlankScopes.

(** ** [GET /healthz] *)

Section Health.
Context (env : Env).

(** "default" is not the name of a member of [Object.prototype]: what
    [get] returns for it is the record of the file, or null. *)
Lemma get_default_eq w :
  TokenStore.get "default" w =
  match read_contents w with
  | Ok c => (Ok (Own <$> c !! "default"), w)
  | Throw e => (Throw e, w)
  end.
Proof.
  rewrite get_eq. destruct (read_contents w) as [c|]; [|done].
  unfold Object_get. by destruct (c !! "default").
Qed.

Lemma healthz_eq w :
  healthz w =
  (Ok match read_contents w with
      | Ok c => HealthOk (bool_decide (is_Some (c !! "default")))
      | Throw e => HealthError (message (parseHttpError e))
      end, w).
Proof.
  unfold healthz, try_catch, bind. rewrite get_default_eq.
  destruct (read_contents w) as [c|]; [|done]. by destruct (c !! "default").
Qed.

Lemma healthz_after_set r w w' :
  TokenStore.set env r "default" w = (Ok tt, w') →
  healthz w' = (Ok (HealthOk true), w').
Proof.
  intros Hset. apply (set_get env) in Hset; [|by left].
  rewrite get_default_eq in Hset. rewrite healthz_eq.
  destruct (read_contents w') as [c'|]; [|congruence].
  destruct (c' !! "default"); [|done].
  by rewrite bool_decide_eq_true_2 by by eexists.
Qed.

Lemma healthz_after_clear w w' :
  TokenStore.clear env "default" w = (Ok tt, w') →
  healthz w' = (Ok (HealthOk false), w').
Proof.
  intros Hcl. apply (clear_get env) in Hcl.
  rewrite get_default_eq in Hcl. rewrite healthz_eq.
  destruct (read_contents w') as [c'|]; [|done].
  destruct (c' !! "default"); [done|].
  by rewrite bool_decide_eq_false_2 by by intros [? ?].
Qed.

(** X22. [GET /healthz] always answers and changes nothing. It reports
    [hasToken: true] exactly when the store holds a record for the key
    "default", [hasToken: false] exactly when the store can be read and
    holds none, and an error (status 500) with the message of the failure
    exactly when the store cannot be read. After a successful [set] for
    "default" it reports true, after a successful [clear] false. *)
Theorem healthz_reports (w : World) :
  ∃ reply,
    healthz w = (Ok reply, w) ∧
    (reply = HealthOk true ↔ ∃ token, TokenStore.get "default" w = (Ok (Some token), w)) ∧
    (reply = HealthOk false ↔ TokenStore.get "default" w = (Ok None, w)) ∧
    (∀ m, reply = HealthError m ↔
          ∃ e, TokenStore.get "default" w = (Throw e, w) ∧ m = message (parseHttpError e)) ∧
    (∀ r w', TokenStore.set env r "default" w = (Ok tt, w') →
             healthz w' = (Ok (HealthOk true), w')) ∧
    (∀ w', TokenStore.clear env "default" w = (Ok tt, w') →
           healthz w' = (Ok (HealthOk false), w')).
Proof.
  eexists. split; [apply healthz_eq|]. rewrite get_default_eq.
  destruct (read_contents w) as [c|e] eqn:Hc.
  - destruct (c !! "default") as [t|] eqn:Ht; cbn [fmap option_fmap option_map].
    + rewrite bool_decide_eq_true_2 by by eexists.
      split; [|split; [|split; [|split]]].
      * split; [by eexists|done].
      * split; congruence.
      * intros m. split; [done|]. intros [e [? ?]]; congruence.
      * intros r w' Hset. by eapply healthz_after_set.
      * intros w' Hcl. by eapply healthz_after_clear.
    + rewrite bool_decide_eq_false_2 by by intros [? ?].
      split; [|split; [|split; [|split]]].
      * split; [done|]. intros [? ?]; congruence.
      * done.
      * intros m. split; [done|]. intros [e [? ?]]; congruence.
      * intros r w' Hset. by eapply healthz_after_set.
      * intros w' Hcl. by eapply healthz_after_clear.
  - split; [|split; [|split; [|split]]].
    + split; [done|]. intros [? ?]; congruence.
    + split; [done|]. congruence.
    + intros m. split.
      * intros [= <-]. by exists e.
      * intros (e' & [= <-] & ->). done.
    + intros r w' Hset. by eapply healthz_after_set.
    + intros w' Hcl. by eapply healthz_after_clear.
Qed.

End Health.

(** ** What the log shows of a token *)




(** ** The Supabase backend *)

Section SupabaseFacts.
Context (supabase_error : nat → option string).
Context (this : Supabase.SupabaseTokenStore).

Lemma mapKey_inj k1 k2 : Supabase.mapKey this k1 = Supabase.mapKey this k2 → k1 = k2.
Proof.
  unfold Supabase.mapKey. destruct (negb (truthy (Supabase.keyPrefix this))); [done|].
  by intros ?%append_inj_l%append_inj_l.
Qed.

Lemma supabase_get_eq k d :
  Supabase.get supabase_error this k d =
  (match supabase_error (Supabase.queries d) with
   | Some msg => Throw (JsError ("Failed to read token from Supabase: " +:+ msg))
   | None => Ok (Supabase.rows d !! (Supabase.table this, Supabase.mapKey this k))
   end,
   {| Supabase.rows := Supabase.rows d; Supabase.queries := S (Supabase.queries d) |}).
Proof.
  unfold Supabase.get, Supabase.select_token.
  by destruct (supabase_error (Supabase.queries d)).
Qed.

Lemma supabase_set_eq r k d :
  Supabase.set supabase_error this r k d =
  match supabase_error (Supabase.queries d) with
  | Some msg => (Throw (JsError ("Failed to store token in Supabase: " +:+ msg)),
                 {| Supabase.rows := Supabase.rows d;
                    Supabase.queries := S (Supabase.queries d) |})
  | None => (Ok tt,
             {| Supabase.rows :=
                  <[(Supabase.table this, Supabase.mapKey this k) := r]> (Supabase.rows d);
                Supabase.queries := S (Supabase.queries d) |})
  end.
Proof.
  unfold Supabase.set, Supabase.upsert.
  by destruct (supabase_error (Supabase.queries d)).
Qed.

Lemma supabase_clear_eq k d :
  Supabase.clear supabase_error this k d =
  match supabase_error (Supabase.queries d) with
  | Some msg => (Throw (JsError ("Failed to delete token from Supabase: " +:+ msg)),
                 {| Supabase.rows := Supabase.rows d;
                    Supabase.queries := S (Supabase.queries d) |})
  | None => (Ok tt,
             {| Supabase.rows :=
                  delete (Supabase.table this, Supabase.mapKey this k) (Supabase.rows d);
                Supabase.queries := S (Supabase.queries d) |})
  end.
Proof.
  unfold Supabase.clear, Supabase.delete_eq.
  by destruct (supabase_error (Supabase.queries d)).
Qed.

Lemma supabase_set_get r k d d' :
  Supabase.set supabase_error this r k d = (Ok tt, d') →
  supabase_error (Supabase.queries d') = None →
  fst (Supabase.get supabase_error this k d') = Ok (Some r).
Proof.
  rewrite supabase_set_eq. destruct (supabase_error (Supabase.queries d)); [done|].
  intros [= <-] Hq. rewrite supabase_get_eq. cbn in *. rewrite Hq.
  by rewrite lookup_insert_eq.
Qed.

Lemma supabase_clear_get k d d' :
  Supabase.clear supabase_error this k d = (Ok tt, d') →
  supabase_error (Supabase.queries d') = None →
  fst (Supabase.get supabase_error this k d') = Ok None.
Proof.
  rewrite supabase_clear_eq. destruct (supabase_error (Supabase.queries d)); [done|].
  intros [= <-] Hq. rewrite supabase_get_eq. cbn in *. rewrite Hq.
  by rewrite lookup_delete_eq.
Qed.

(** X24. The Supabase backend. A [set] that succeeded is read back by the
    next [get], and after a [clear] that succeeded the next [get] returns
    null, whenever that [get] is answered without an error; a successful
    [set] or [clear] for one key keeps what [get] returns for every other
    key (keys are mapped to rows one to one). A query that the service
    answers with an error makes the operation throw, with the message of the
    service, and changes no row. *)
Theorem supabase_store_contract (k : string) (d : Supabase.Remote) :
  (∀ r d', Supabase.set supabase_error this r k d = (Ok tt, d') →
           supabase_error (Supabase.queries d') = None →
           fst (Supabase.get supabase_error this k d') = Ok (Some r))
  ∧
  (∀ d', Supabase.clear supabase_error this k d = (Ok tt, d') →
         supabase_error (Supabase.queries d') = None →
         fst (Supabase.get supabase_error this k d') = Ok None)
  ∧
  (∀ k' r d' v, k' ≠ k →
     Supabase.set supabase_error this r k d = (Ok tt, d') ∨
     Supabase.clear supabase_error this k d = (Ok tt, d') →
     fst (Supabase.get supabase_error this k' d) = Ok v →
     supabase_error (Supabase.queries d') = None →
     fst (Supabase.get supabase_error this k' d') = Ok v)
  ∧
  (∀ msg, supabase_error (Supabase.queries d) = Some msg →
     ∃ d', Supabase.rows d' = Supabase.rows d ∧
       Supabase.get supabase_error this k d
         = (Throw (JsError ("Failed to read token from Supabase: " +:+ msg)), d') ∧
       (∀ r, Supabase.set supabase_error this r k d
         = (Throw (JsError ("Failed to store token in Supabase: " +:+ msg)), d')) ∧
       Supabase.clear supabase_error this k d
         = (Throw (JsError ("Failed to delete token from Supabase: " +:+ msg)), d')).
Proof.
  split; [|split; [|split]].
  - intros r d'. apply supabase_set_get.
  - intros d'. apply supabase_clear_get.
  - intros k' r d' v Hne Hop. rewrite !supabase_get_eq.
    destruct (supabase_error (Supabase.queries d)) eqn:E.
    { rewrite supabase_set_eq, supabase_clear_eq, E in Hop. by destruct Hop. }
    cbn [fst]. intros [= <-] ->.
    assert ((Supabase.table this, Supabase.mapKey this k')
            ≠ (Supabase.table this, Supabase.mapKey this k)) as Hk.
    { intros [= H%mapKey_inj]. done. }
    rewrite supabase_set_eq, supabase_clear_eq, E in Hop.
    destruct Hop as [[= <-]|[= <-]]; cbn [Supabase.rows].
    + by rewrite lookup_insert_ne.
    + by rewrite lookup_delete_ne.
  - intros msg E. eexists. split; [|split; [|split]].
    2:{ rewrite supabase_get_eq, E. reflexivity. }
    + done.
    + intros r. by rewrite supabase_set_eq, E.
    + by rewrite supabase_clear_eq, E.
Qed.

End SupabaseFacts.

(** ** The choice of a backend *)

Section BackendFacts.
Context (env : Env) (supabase_error : nat → option string).

Lemma backend_of_cases (process_env : gmap string string) :
  (truthy (process_env !! "SUPABASE_URL")
   && truthy (process_env !! "SUPABASE_SERVICE_ROLE_KEY") = false ∧
   Backends.backend_of process_env = Backends.FileBackend)
  ∨
  (truthy (process_env !! "SUPABASE_URL")
   && truthy (process_env !! "SUPABASE_SERVICE_ROLE_KEY") = true ∧
   Backends.backend_of process_env
   = Backends.SupabaseBackend
       (Supabase.new_SupabaseTokenStore
          (default "whoop_tokens" (process_env !! "SUPABASE_TOKENS_TABLE"))
          (process_env !! "SUPABASE_TOKENS_PREFIX"))).
Proof.
  unfold Backends.backend_of.
  destruct (truthy (process_env !! "SUPABASE_URL")
            && truthy (process_env !! "SUPABASE_SERVICE_ROLE_KEY")); [right|left]; done.
Qed.

(** X25. The choice of the backend. The file backend is chosen exactly
    when [SUPABASE_URL] or [SUPABASE_SERVICE_ROLE_KEY] is unset or empty.
    The Supabase backend works on the table [SUPABASE_TOKENS_TABLE], or
    [whoop_tokens] with the variable unset; with [SUPABASE_TOKENS_PREFIX]
    unset or made of white space only, a key is the key of its row, and
    otherwise the row key is the prefix as given, a colon, and the key. *)
Theorem backend_choice (process_env : gmap string string) :
  let backend := Backends.backend_of process_env in
  (backend = Backends.FileBackend ↔
     truthy (process_env !! "SUPABASE_URL") = false ∨
     truthy (process_env !! "SUPABASE_SERVICE_ROLE_KEY") = false)
  ∧
  (∀ store, backend = Backends.SupabaseBackend store →
     Supabase.table store
       = default "whoop_tokens" (process_env !! "SUPABASE_TOKENS_TABLE") ∧
     (truthy (trim <$> process_env !! "SUPABASE_TOKENS_PREFIX") = false →
      ∀ k, Supabase.mapKey store k = k) ∧
     (∀ p, process_env !! "SUPABASE_TOKENS_PREFIX" = Some p → trim p ≠ "" →
      ∀ k, Supabase.mapKey store k = p +:+ ":" +:+ k)).
Proof.
  intros backend. subst backend.
  destruct (backend_of_cases process_env) as [[Hc ->]|[Hc ->]].
  - split; [|done]. split; [|done]. intros _. by apply andb_false_iff.
  - split.
    + split; [done|]. intros H%andb_false_iff. congruence.
    + intros store [= <-]. cbn [Supabase.table Supabase.new_SupabaseTokenStore].
      split; [done|]. unfold Supabase.mapKey, Supabase.new_SupabaseTokenStore.
      cbn [Supabase.keyPrefix]. split.
      * intros ->. done.
      * intros p -> Hp. cbn [fmap option_fmap option_map truthy].
        rewrite (proj2 (Boolean_true_iff _) Hp). cbn [truthy].
        assert (p ≠ "") as Hne by (intros ->; by apply Hp).
        by rewrite (proj2 (Boolean_true_iff _) Hne).
Qed.

(** X26. The two backends behind the one interface. With the file
    backend no operation, whatever its outcome, touches the remote table.
    There a successful [set] is followed by a [get] that returns the
    record, except under the key [__proto__] when the file has no property
    of that name, where the [get] returns the inherited member; and a
    successful [clear] is followed by a [get] that returns null, except
    for the name of a member of [Object.prototype], where it returns that
    member. With the Supabase backend no operation touches the file
    system, and for every key a successful [set] ([clear]) is followed by a
    [get] that returns the record (null) when the service answers it
    without an error. *)
Theorem backends_keep_the_store_contract (backend : Backends.Backend)
    (r : TokenSet) (k : string) (s : World * Supabase.Remote) :
  let store := Backends.TokenStore env supabase_error backend in
  let after_get := snd (@Backends.adapter_get _ store k s) in
  let after_set := snd (@Backends.adapter_set _ store r k s) in
  let after_clear := snd (@Backends.adapter_clear _ store k s) in
  match backend with
  | Backends.FileBackend =>
      snd after_get = snd s ∧ snd after_set = snd s ∧ snd after_clear = snd s
  | Backends.SupabaseBackend _ =>
      fst after_get = fst s ∧ fst after_set = fst s ∧ fst after_clear = fst s
  end
  ∧
  (fst (@Backends.adapter_set _ store r k s) = Ok tt →
   match backend with
   | Backends.FileBackend =>
       (assignable k (fst s) →
        @Backends.adapter_get _ store k after_set = (Ok (Some (Own r)), after_set)) ∧
       (¬ assignable k (fst s) →
        k = "__proto__" ∧
        @Backends.adapter_get _ store k after_set
        = (Ok (Some (Inherited "__proto__")), after_set))
   | Backends.SupabaseBackend _ =>
       supabase_error (Supabase.queries (snd after_set)) = None →
       fst (@Backends.adapter_get _ store k after_set) = Ok (Some (Own r))
   end)
  ∧
  (fst (@Backends.adapter_clear _ store k s) = Ok tt →
   match backend with
   | Backends.FileBackend =>
       @Backends.adapter_get _ store k after_clear
       = (Ok (if inherited k then Some (Inherited k) else None), after_clear)
   | Backends.SupabaseBackend _ =>
       supabase_error (Supabase.queries (snd after_clear)) = None →
       fst (@Backends.adapter_get _ store k after_clear) = Ok None
   end).
Proof.
  intros store after_get after_set after_clear.
  subst store after_get after_set after_clear. destruct s as [w d].
  destruct backend as [|this];
    cbn [Backends.TokenStore Backends.adapter_set Backends.adapter_get
         Backends.adapter_clear Backends.FileTokenStore
         Backends.SupabaseAdapter];
    unfold Backends.on_file, Backends.on_remote; cbn [fst snd].
  - destruct (TokenStore.get k w) as [rg wg] eqn:Hget.
    destruct (TokenStore.set env r k w) as [rs ws] eqn:Hset.
    destruct (TokenStore.clear env k w) as [rc wc] eqn:Hcl.
    cbn [fst snd]. split; [done|]. split.
    + intros ->. split.
      * intros Ha. by rewrite (set_get env _ _ _ _ Ha Hset).
      * intros Ha. pose proof (not_assignable _ _ Ha) as Hk. split; [done|].
        rewrite Hk in *.
        by rewrite (proj1 (set_get_proto env _ _ _ Ha Hset)).
    + intros ->. by rewrite (clear_get env _ _ _ Hcl).
  - destruct (Supabase.get supabase_error this k d) as [rg dg] eqn:Hget.
    destruct (Supabase.set supabase_error this r k d) as [rs ds] eqn:Hset.
    destruct (Supabase.clear supabase_error this k d) as [rc dc] eqn:Hcl.
    cbn [fst snd]. split; [by destruct rg|]. split.
    + intros -> Hq. pose proof (supabase_set_get _ _ _ _ _ _ Hset Hq) as Hg.
      destruct (Supabase.get supabase_error this k ds) as [[?|?] ?];
        cbn [fst] in Hg |- *; [|done]. by injection Hg as ->.
    + intros -> Hq. pose proof (supabase_clear_get _ _ _ _ _ Hcl Hq) as Hg.
      destruct (Supabase.get supabase_error this k dc) as [[?|?] ?];
        cbn [fst] in Hg |- *; [|done]. by injection Hg as ->.
Qed.

End BackendFacts.

(** ** Metrics *)

Lemma digit_char_ok d :
  (d < 10)%nat →
  Metrics.is_digit (digit_char d) = true ∧
  Metrics.digit_value (digit_char d) = Z.of_nat d.
Proof.
  intros H. do 10 (destruct d as [|d]; [by vm_compute|]). lia.
Qed.

Lemma is_digit_char c :
  Metrics.is_digit c = true →
  ∃ d, (d < 10)%nat ∧ c = digit_char d.
Proof.
  unfold Metrics.is_digit. cbv zeta. intros [H1 H2]%andb_true_iff.
  apply Nat.leb_le in H1, H2. exists (nat_of_ascii c - 48)%nat. split; [lia|].
  unfold digit_char. replace (48 + (nat_of_ascii c - 48))%nat with (nat_of_ascii c) by lia.
  by rewrite ascii_nat_embedding.
Qed.

(** X27. The offsets [parseOffsetMinutes] accepts are exactly the strings
    made of a sign, two digits, a colon and two digits, and the result is
    the signed number of minutes [hh * 60 + mm]. The minutes are not checked
    to be below 60, so a result lies between -6039 and 6039. *)
Theorem parseOffsetMinutes_spec :
  (∀ negative h1 h2 m1 m2,
     (h1 < 10)%nat → (h2 < 10)%nat → (m1 < 10)%nat → (m2 < 10)%nat →
     Metrics.parseOffsetMinutes (Some (offset_string negative h1 h2 m1 m2))
     = Some ((if negative then -1 else 1)
             * (Z.of_nat (10 * h1 + h2) * 60 + Z.of_nat (10 * m1 + m2))))
  ∧
  (∀ offset n,
     Metrics.parseOffsetMinutes offset = Some n →
     (∃ negative h1 h2 m1 m2,
        (h1 < 10)%nat ∧ (h2 < 10)%nat ∧ (m1 < 10)%nat ∧ (m2 < 10)%nat ∧
        offset = Some (offset_string negative h1 h2 m1 m2)) ∧
     -6039 ≤ n ≤ 6039).
Proof.
  assert (∀ negative h1 h2 m1 m2,
     (h1 < 10)%nat → (h2 < 10)%nat → (m1 < 10)%nat → (m2 < 10)%nat →
     Metrics.parseOffsetMinutes (Some (offset_string negative h1 h2 m1 m2))
     = Some ((if negative then -1 else 1)
             * (Z.of_nat (10 * h1 + h2) * 60 + Z.of_nat (10 * m1 + m2)))) as Hfwd.
  { intros negative h1 h2 m1 m2 H1 H2 H3 H4.
    destruct (digit_char_ok h1 H1) as [D1 V1], (digit_char_ok h2 H2) as [D2 V2],
             (digit_char_ok m1 H3) as [D3 V3], (digit_char_ok m2 H4) as [D4 V4].
    unfold Metrics.parseOffsetMinutes, offset_string.
    cbn [Boolean String.eqb negb]. rewrite D1, D2, D3, D4, V1, V2, V3, V4.
    destruct negative; cbn [Ascii.eqb Bool.eqb orb andb]; f_equal; lia. }
  split; [exact Hfwd|].
  intros offset n Hp.
  assert (∃ negative h1 h2 m1 m2,
        (h1 < 10)%nat ∧ (h2 < 10)%nat ∧ (m1 < 10)%nat ∧ (m2 < 10)%nat ∧
        offset = Some (offset_string negative h1 h2 m1 m2))
    as (negative & h1 & h2 & m1 & m2 & H1 & H2 & H3 & H4 & ->).
  { destruct offset as [s|]; [|done]. unfold Metrics.parseOffsetMinutes in Hp.
    destruct (negb (Boolean s)); [done|].
    destruct s as [|sign [|c1 [|c2 [|colon [|c3 [|c4 [|? ?]]]]]]]; try done.
    destruct ((Ascii.eqb sign "+" || Ascii.eqb sign "-") && Metrics.is_digit c1
              && Metrics.is_digit c2 && Ascii.eqb colon ":" && Metrics.is_digit c3
              && Metrics.is_digit c4) eqn:E; [|done].
    repeat (apply andb_true_iff in E as [E ?]).
    destruct (is_digit_char c1) as (h1 & ? & ->); [done|].
    destruct (is_digit_char c2) as (h2 & ? & ->); [done|].
    destruct (is_digit_char c3) as (m1 & ? & ->); [done|].
    destruct (is_digit_char c4) as (m2 & ? & ->); [done|].
    assert (colon = ":"%char) as -> by by apply Ascii.eqb_eq.
    apply orb_true_iff in E as [->%Ascii.eqb_eq| ->%Ascii.eqb_eq].
    - by exists false, h1, h2, m1, m2.
    - by exists true, h1, h2, m1, m2. }
  split; [by exists negative, h1, h2, m1, m2|].
  rewrite Hfwd in Hp by done. injection Hp as <-. destruct negative; lia.
Qed.

(** *** The record of today *)

Section Today.
Context {T : Type} (timed : T → Metrics.TimedRecord) (lib : Metrics.DateLib).

Lemma new_Date_in_range t : in_date_range t → Metrics.new_Date t = Some t.
Proof.
  unfold Metrics.new_Date, in_date_range. intros H.
  by destruct (Z.leb_spec (Z.abs t) 8640000000000000); [|lia].
Qed.

Lemma same_numbers_refl x : Metrics.same_numbers (Some x) (Some x) = true.
Proof. destruct x as [[y m] d]. cbn. by rewrite !Z.eqb_refl. Qed.

Lemma same_numbers_eq a b :
  Metrics.same_numbers a b = true → ∃ x, a = Some x ∧ b = Some x.
Proof.
  destruct a as [[[y1 m1] d1]|], b as [[[y2 m2] d2]|]; cbn; try done.
  intros [[->%Z.eqb_eq ->%Z.eqb_eq]%andb_true_iff ->%Z.eqb_eq]%andb_true_iff.
  by eexists.
Qed.

(** X28. A record without an offset, with an offset that does not parse,
    or with a date that does not parse, never counts as of the reference
    day. Otherwise, for time values in the range of valid dates, the record
    counts when its end (its start, when it has no end), moved by the
    record's own offset, falls on the same day as the reference moved by
    that offset; and only then, given that different days have different
    civil dates. *)
Theorem isSameLocalDate_spec (value : Metrics.TimedRecord) (reference : Z) :
  let target := default (Metrics.start value) (Metrics.end_ value) in
  (Metrics.parseOffsetMinutes (Metrics.timezone_offset value) = None →
   Metrics.isSameLocalDate lib value reference = false)
  ∧
  (Metrics.Date_parse lib target = None →
   Metrics.isSameLocalDate lib value reference = false)
  ∧
  (∀ m t,
     Metrics.parseOffsetMinutes (Metrics.timezone_offset value) = Some m →
     Metrics.Date_parse lib target = Some t →
     in_date_range (t + m * 60000) → in_date_range (reference + m * 60000) →
     (local_day m t = local_day m reference →
      Metrics.isSameLocalDate lib value reference = true) ∧
     (Inj (=) (=) (Metrics.civil_of_day lib) →
      Metrics.isSameLocalDate lib value reference = true →
      local_day m t = local_day m reference)).
Proof.
  intros target. subst target. unfold Metrics.isSameLocalDate.
  split; [by intros ->|]. split.
  - intros ->. by destruct (Metrics.parseOffsetMinutes _).
  - intros m t -> -> Ht Hr. cbn [mbind option_bind].
    rewrite !new_Date_in_range by done. unfold Metrics.utc_date, local_day.
    cbn [fmap option_fmap option_map]. split.
    + intros ->. apply same_numbers_refl.
    + intros Hinj (x & [= H1] & [= H2])%same_numbers_eq.
      apply Hinj. congruence.
Qed.

(** X29. The record picked for today: none exactly when there are no
    records; the first record of the reference day when there is one; and
    otherwise the first record of the list, whatever its day. A picked
    record is always one of the list. *)
Theorem pickRecordForToday_spec (records : list T) (reference : Z) :
  let today := fun record => Metrics.isSameLocalDate lib (timed record) reference in
  let picked := Metrics.pickRecordForToday timed lib records reference in
  (picked = None ↔ records = [])
  ∧
  (∀ before record after,
     records = (before ++ record :: after)%list →
     (∀ x, In x before → today x = false) → today record = true →
     picked = Some record)
  ∧
  ((∀ x, In x records → today x = false) → picked = head records)
  ∧
  (∀ record, picked = Some record →
     In record records ∧ (today record = true ∨ head records = Some record)).
Proof.
  intros today picked. subst picked. unfold Metrics.pickRecordForToday.
  fold today. split; [|split; [|split]].
  - destruct (find today records) as [x|] eqn:F.
    + split; [done|]. intros ->. done.
    + by destruct records.
  - intros before record after -> Hb Hr.
    assert (find today (before ++ record :: after) = Some record) as ->; [|done].
    induction before as [|b before IH]; cbn.
    + by rewrite Hr.
    + rewrite (Hb b) by by left. apply IH. intros x Hx. apply Hb. by right.
  - intros Hall. destruct (find today records) as [x|] eqn:F; [|done].
    apply find_some in F as [Hin Ht]. rewrite (Hall x Hin) in Ht. done.
  - intros record. destruct (find today records) as [x|] eqn:F.
    + intros [= <-]. apply find_some in F as [Hin Ht]. split; [done|by left].
    + intros Hh. split; [|by right]. destruct records; [done|].
      injection Hh as <-. by left.
Qed.

End Today.

(** * The statements at work on the example *)

Lemma run_eq {A} (x : Result A * World) (r : Result A) :
  fst x = r → x = (r, snd x).
Proof. destruct x; simpl; congruence. Qed.

Lemma example_fallback_under_tmpdir replies :
  fallback_under_tmpdir (example_env replies).
Proof. intros base. reflexivity. Qed.

Lemma proto_not_assignable c w :
  read_contents w = Ok c → c !! "__proto__" = None → ¬ assignable "__proto__" w.
Proof.
  intros Hc Hk [?|(c' & r & Hc' & Hk')]; [done|].
  assert (c' = c) as -> by congruence. congruence.
Qed.

Lemma world0_proto_not_assignable : ¬ assignable "__proto__" world0.
Proof. by apply (proto_not_assignable ∅). Qed.

(** A record set under "default" is read back, also after a write and a
    clear under other keys. A record set under "__proto__" on the empty
    store is not: the store is as empty as before, and [get] returns the
    member of [Object.prototype]. *)
Lemma store_set_get_roundtrip_witness :
  (let w1 := snd (TokenStore.set ex_env record_R1 "default" world0) in
   let w2 := store_ops ex_env [OpSet record_fresh "other"; OpClear "third"] w1 in
   TokenStore.get "default" w1 = (Ok (Some (Own record_R1)), w1) ∧
   TokenStore.get "default" w2 = (Ok (Some (Own record_R1)), w2))
  ∧
  (let w1 := snd (TokenStore.set ex_env record_R1 "__proto__" world0) in
   TokenStore.set ex_env record_R1 "__proto__" world0 = (Ok tt, w1) ∧
   TokenStore.get "__proto__" w1 = (Ok (Some (Inherited "__proto__")), w1) ∧
   TokenStore.readFile w1 = (Ok ∅, w1)).
Proof.
  split.
  - intros w1 w2.
    destruct (store_set_get_roundtrip ex_env "default" record_R1 world0 w1) as [H _];
      [by apply run_eq|].
    destruct H as [H1 H2]; [by left|].
    split; [exact H1|].
    destruct (H2 (example_fallback_under_tmpdir always_A2)
                 [OpSet record_fresh "other"; OpClear "third"]) as [H _];
      [|exact H].
    repeat (apply List.Forall_cons; [discriminate|]). apply List.Forall_nil.
  - intros w1.
    assert (TokenStore.set ex_env record_R1 "__proto__" world0 = (Ok tt, w1)) as Hset
      by by apply run_eq.
    split; [exact Hset|].
    destruct (store_set_get_roundtrip ex_env "__proto__" record_R1 world0 w1 Hset)
      as [_ H].
    destruct (H world0_proto_not_assignable) as (_ & Hget & Hread).
    split; [exact Hget|]. rewrite Hread, readFile_eq. reflexivity.
Defined.

(** Clearing the stored key; clearing "constructor" on the empty store,
    after which [get] returns the member of [Object.prototype]; clearing a
    key that was never stored; and the same on a disk where the file
    cannot be written, where the call throws. *)
Lemma store_clear_get_absent_witness :
  (let w' := snd (TokenStore.clear ex_env "default" (world_with record_R1)) in
   TokenStore.get "default" w' = (Ok None, w'))
  ∧
  (let w' := snd (TokenStore.clear ex_env "constructor" world0) in
   TokenStore.clear ex_env "constructor" world0 = (Ok tt, w') ∧
   TokenStore.get "constructor" w' = (Ok (Some (Inherited "constructor")), w'))
  ∧
  (∃ w', TokenStore.clear ex_env "nobody" (world_with record_R1) = (Ok tt, w') ∧
         fst (TokenStore.readFile w') =
         fst (TokenStore.readFile (world_with record_R1)))
  ∧
  fst (TokenStore.clear full_disk_env "nobody" (world_with record_R1))
  = Throw (ErrnoException "ENOSPC" "no space left on device").
Proof.
  split; [|split; [|split]].
  - apply (store_clear_get_absent ex_env "default" (world_with record_R1)).
    by apply run_eq.
  - intros w'.
    assert (TokenStore.clear ex_env "constructor" world0 = (Ok tt, w')) as Hclear
      by by apply run_eq.
    split; [exact Hclear|].
    apply (store_clear_get_absent ex_env "constructor" world0 : _ ∧ _). exact Hclear.
  - destruct (store_clear_get_absent ex_env "nobody" (world_with record_R1))
      as [_ H].
    destruct (H {[ "default" := record_R1 ]}) as (_ & Hsame & Hok & _);
      [by apply run_eq|reflexivity|].
    destruct (proj2 Hok (conj eq_refl eq_refl)) as [w' Hclear].
    exists w'. split; [exact Hclear|].
    rewrite (Hsame w' Hclear), readFile_eq. reflexivity.
  - destruct (store_clear_get_absent full_disk_env "nobody" (world_with record_R1))
      as [_ H].
    destruct (H {[ "default" := record_R1 ]}) as (_ & _ & _ & _ & Hthrow);
      [by apply run_eq|reflexivity|].
    apply Hthrow; reflexivity.
Defined.

(** The cases of token resolution: the record of the spec's scenario
    (expired), no record, a record still valid, and the key "constructor"
    on the empty store, where the resolution returns [undefined] and sends
    nothing. *)
Lemma getAccessToken_resolves_witness :
  fst (WhoopApiClient.getAccessToken ex_env example_cfg "default" (world_with record_R1))
    = Ok (Some "A2") ∧
  fst (WhoopApiClient.getAccessToken ex_env example_cfg "default" world0)
    = Throw WhoopApiClient.NotAuthorizedError ∧
  fst (WhoopApiClient.getAccessToken ex_env example_cfg "default" (world_with record_fresh))
    = Ok (Some "A1") ∧
  TokenStore.readFile world0 = (Ok ∅, world0) ∧
  WhoopApiClient.getAccessToken ex_env example_cfg "constructor" world0
    = (Ok None, clock_read world0) ∧
  posts (snd (WhoopApiClient.getAccessToken ex_env example_cfg "constructor" world0)) = [].
Proof.
  split; [|split; [|split]].
  - destruct (getAccessToken_resolves ex_env example_cfg "default" (world_with record_R1))
      as (_ & H & _).
    destruct (H record_R1) as [Hexpired _]; [by apply run_eq|].
    destruct Hexpired as (_ & Hok & _); [vm_compute; discriminate|].
    destruct (Hok (normalized 1700000000001 reply_A2 (Some (Own record_R1)))
                (snd (WhoopOAuthClient.refreshToken ex_env example_cfg "default"
                        (clock_read (world_with record_R1))))) as [Heq _];
      [apply run_eq; vm_compute; reflexivity|].
    rewrite Heq. reflexivity.
  - destruct (getAccessToken_resolves ex_env example_cfg "default" world0) as [H _].
    rewrite H; [reflexivity|by apply run_eq].
  - destruct (getAccessToken_resolves ex_env example_cfg "default" (world_with record_fresh))
      as (_ & H & _).
    destruct (H record_fresh) as [_ Hvalid]; [by apply run_eq|].
    destruct Hvalid as [Heq _]; [vm_compute; reflexivity|]. rewrite Heq. reflexivity.
  - assert (TokenStore.readFile world0 = (Ok ∅, world0)) as Hread
      by (rewrite readFile_eq; reflexivity).
    split; [exact Hread|].
    destruct (getAccessToken_resolves ex_env example_cfg "constructor" world0)
      as (_ & _ & H).
    destruct (H ∅ Hread eq_refl eq_refl) as (_ & Heq & Hposts).
    split; [exact Heq|exact Hposts].
Defined.

(** A code exchange on the empty store, and a refresh of the record of
    the spec's scenario: each commits a record with the buffered expiry. *)
Lemma normalized_expiry_buffer_witness :
  (∃ ts w',
     WhoopOAuthClient.exchangeCode ex_env example_cfg "abc" "default"
       (redirectUri example_cfg) world0 = (Ok ts, w') ∧
     expiresAt ts = 1700000000000 + 3600 * 1000 - 60000 ∧
     TokenStore.get "default" w' = (Ok (Some (Own ts)), w'))
  ∧
  (∃ ts w',
     WhoopOAuthClient.refreshToken ex_env example_cfg "default" (world_with record_R1)
       = (Ok ts, w') ∧
     expiresAt ts = 1700000000000 + 3600 * 1000 - 60000 ∧
     TokenStore.get "default" w' = (Ok (Some (Own ts)), w')).
Proof.
  split.
  - destruct (normalized_expiry_buffer ex_env example_cfg "default" world0)
      as (_ & Hex & _).
    destruct (Hex "abc" (redirectUri example_cfg) reply_A2 eq_refl)
      as (ts & Hexp & Heq & Hafter).
    assert (fst (WhoopOAuthClient.exchangeCode ex_env example_cfg "abc" "default"
                   (redirectUri example_cfg) world0)
            = Ok (normalized 1700000000000 reply_A2 None)) as Hrun
      by (vm_compute; reflexivity).
    revert Heq Hafter. cbv zeta.
    destruct (TokenStore.set ex_env ts "default" _) as [[[]|e] w'] eqn:Hset;
      intros Heq Hafter; [|by rewrite Heq in Hrun].
    exists ts, w'. split; [exact Heq|]. split; [exact Hexp|].
    apply (Hafter w' eq_refl). by left.
  - destruct (normalized_expiry_buffer ex_env example_cfg "default"
                (world_with record_R1)) as (_ & _ & Hre).
    destruct (Hre (Own record_R1) reply_A2 (run_eq _ _ eq_refl) eq_refl)
      as (ts & Hexp & Heq & Hafter).
    assert (fst (WhoopOAuthClient.refreshToken ex_env example_cfg "default"
                   (world_with record_R1))
            = Ok (normalized 1700000000000 reply_A2 (Some (Own record_R1)))) as Hrun
      by (vm_compute; reflexivity).
    revert Heq Hafter. cbv zeta.
    destruct (TokenStore.set ex_env ts "default" _) as [[[]|e] w'] eqn:Hset;
      intros Heq Hafter; [|by rewrite Heq in Hrun].
    exists ts, w'. split; [exact Heq|]. split; [exact Hexp|].
    apply (Hafter w' eq_refl). by left.
Defined.


(** A code exchange answered without a refresh token, over a store that
    holds a refresh token for the key; and the same exchange for the key
    "__proto__" on the empty store, after which a refresh posts neither
    [refresh_token] nor [scope]. *)
Lemma exchange_without_refresh_token_witness :
  (∃ ts w',
     WhoopOAuthClient.exchangeCode ex_env example_cfg "abc" "default"
       (redirectUri example_cfg) (world_with record_R1) = (Ok ts, w') ∧
     refreshToken ts = "" ∧
     last (posts (snd (WhoopOAuthClient.refreshToken ex_env example_cfg "default" w'))) =
       Some (WhoopOAuthClient.tokenUrl,
             "grant_type=refresh_token&refresh_token=&client_id=client" +:+
             "&client_secret=secret" +:+
             "&redirect_uri=https://whoop.example.com/oauth/whoop/callback" +:+
             "&scope=read:sleep"))
  ∧
  (∃ ts w',
     WhoopOAuthClient.exchangeCode ex_env example_cfg "abc" "__proto__"
       (redirectUri example_cfg) world0 = (Ok ts, w') ∧
     TokenStore.get "__proto__" w' = (Ok (Some (Inherited "__proto__")), w') ∧
     last (posts (snd (WhoopOAuthClient.refreshToken ex_env example_cfg "__proto__" w'))) =
       Some (WhoopOAuthClient.tokenUrl,
             "grant_type=refresh_token&client_id=client" +:+
             "&client_secret=secret" +:+
             "&redirect_uri=https://whoop.example.com/oauth/whoop/callback")).
Proof.
  split.
  - assert (WhoopOAuthClient.exchangeCode ex_env example_cfg "abc" "default"
              (redirectUri example_cfg) (world_with record_R1)
            = (Ok (normalized 1700000000000 reply_A2 None),
               snd (WhoopOAuthClient.exchangeCode ex_env example_cfg "abc" "default"
                      (redirectUri example_cfg) (world_with record_R1)))) as Hrun
      by (apply run_eq; vm_compute; reflexivity).
    eexists _, _. split; [exact Hrun|].
    destruct (exchange_without_refresh_token ex_env example_cfg "abc" "default"
                (redirectUri example_cfg) (world_with record_R1) reply_A2 _ _
                eq_refl eq_refl Hrun)
      as (Hr & Hstored & _).
    split; [exact Hr|]. destruct Hstored as [_ Hp]; [by left|].
    rewrite Hp. rewrite last_snoc. reflexivity.
  - assert (WhoopOAuthClient.exchangeCode ex_env example_cfg "abc" "__proto__"
              (redirectUri example_cfg) world0
            = (Ok (normalized 1700000000000 reply_A2 None),
               snd (WhoopOAuthClient.exchangeCode ex_env example_cfg "abc" "__proto__"
                      (redirectUri example_cfg) world0))) as Hrun
      by (apply run_eq; vm_compute; reflexivity).
    eexists _, _. split; [exact Hrun|].
    destruct (exchange_without_refresh_token ex_env example_cfg "abc" "__proto__"
                (redirectUri example_cfg) world0 reply_A2 _ _
                eq_refl eq_refl Hrun)
      as (_ & _ & Hlost).
    destruct (Hlost world0_proto_not_assignable) as (_ & Hget & Hp).
    split; [exact Hget|]. rewrite Hp. rewrite last_snoc. reflexivity.
Defined.

Lemma example_uuids_distinct replies : uuids_distinct (example_env replies).
Proof.
  intros i j Heq. simpl in Heq. injection Heq as Heq. by apply (inj pretty).
Qed.

Lemma example_uuids_nonempty replies : uuids_nonempty (example_env replies).
Proof. intros i. reflexivity. Qed.

(** C4, evaluated. The provider refuses the first exchange: the callback
    for the registered state "uuid-0" is answered 500 and the state stays
    registered; the same callback, made again, is not answered "Unknown or
    expired OAuth state." but goes through. *)
Lemma callback_failed_exchange_keeps_state :
  let env := example_env refuse_first in
  let w0 := initial env example_cfg ∅ in
  let w1 := run env example_cfg [login_request; callback_request] w0 in
  pendingStates (step env example_cfg w0 login_request) !! "uuid-0"
    = Some {| key := "default"; successRedirect := None |} ∧
  res w1 = Some (Send 500
    ("Failed to exchange WHOOP authorization code: " +:+
     "Request failed with status code 400 (status 400) - {}")) ∧
  pendingStates w1 !! "uuid-0" = Some {| key := "default"; successRedirect := None |} ∧
  res (step env example_cfg w1 callback_request)
    = Some (Send 200 "WHOOP authorization successful. You can close this window.") ∧
  res (step env example_cfg w1 callback_request) ≠ Some Server.UnknownOrExpiredState.
Proof. vm_compute. repeat split; discriminate. Qed.

(** C6, counterexample. A session is initialized and its transport then
    reports closure: the entry of the session is still in the map. *)
Lemma closed_session_stays_in_map :
  let w := run ex_env example_cfg
             [PostSse (sse_request HAbsent "initialize"); TransportClosed 0]
             world0 in
  0%nat ∈ closedTransports w ∧ transports w !! "uuid-0" = Some 0%nat.
Proof. vm_compute. split; reflexivity. Qed.

(** C9, counterexample. Two calls that pass the state "fixed" both return
    "fixed", and no state is generated. *)
Lemma buildAuthorizationUrl_given_state_reused :
  let params := {| state := Some "fixed"; scopes := None; redirect := None |} in
  let r1 := WhoopOAuthClient.buildAuthorizationUrl ex_env example_cfg params world0 in
  let r2 := WhoopOAuthClient.buildAuthorizationUrl ex_env example_cfg params (snd r1) in
  returned_state r1 = Some "fixed" ∧ returned_state r2 = Some "fixed" ∧
  uuidDraws (snd r2) = uuidDraws world0.
Proof. vm_compute. repeat split. Qed.

(** The callback for a registered state, with a provider that answers,
    and with a provider that refuses the exchange: there the state is
    still registered after the callback. *)
Lemma callback_consumes_state_on_success_witness :
  (let w := step ex_env example_cfg world0 login_request in
   let w' := snd (Server.callback ex_env example_cfg (QString "abc") (QString "uuid-0") w) in
   pendingStates w' = delete "uuid-0" (pendingStates w) ∧
   Server.callback ex_env example_cfg (QString "abc") (QString "uuid-0") w' =
     (Ok tt, with_res (Some Server.UnknownOrExpiredState) w') ∧
   Server.callback ex_env example_cfg (QString "abc") (QString "never-issued") w =
     (Ok tt, with_res (Some Server.UnknownOrExpiredState) w))
  ∧
  (let env := example_env refuse_first in
   let w := step env example_cfg (initial env example_cfg ∅) login_request in
   let w' := snd (Server.callback env example_cfg (QString "abc") (QString "uuid-0") w) in
   pendingStates w !! "uuid-0" = Some {| key := "default"; successRedirect := None |} ∧
   pendingStates w' = pendingStates w ∧
   res w' = Some (Send 500
     ("Failed to exchange WHOOP authorization code: " +:+
      "Request failed with status code 400 (status 400) - {}"))).
Proof.
  split.
  - intros w w'.
    destruct (callback_consumes_state_on_success ex_env example_cfg "abc" "uuid-0" w)
      as [_ H].
    destruct (H {| key := "default"; successRedirect := None |}) as [Hok _];
      [vm_compute; reflexivity|].
    destruct (Hok (normalized 1700000000000 reply_A2 None)
                (snd (WhoopOAuthClient.exchangeCode ex_env example_cfg "abc" "default"
                        (redirectUri example_cfg) w)))
      as (Hdel & _ & _ & Hagain); [apply run_eq; vm_compute; reflexivity|].
    split; [exact Hdel|]. split; [exact (Hagain "abc")|].
    apply (callback_consumes_state_on_success ex_env example_cfg "abc" "never-issued" w).
    vm_compute; reflexivity.
  - intros env w w'.
    assert (pendingStates w !! "uuid-0"
            = Some {| key := "default"; successRedirect := None |}) as Hreg
      by (vm_compute; reflexivity).
    split; [exact Hreg|].
    destruct (callback_consumes_state_on_success env example_cfg "abc" "uuid-0" w)
      as [_ H].
    destruct (H _ Hreg) as [_ Hfail].
    apply (Hfail (AxiosError "Request failed with status code 400"
                    (Some (400, DataJson "{}")))
             (snd (WhoopOAuthClient.exchangeCode env example_cfg "abc" "default"
                     (redirectUri example_cfg) w))).
    apply run_eq. vm_compute. reflexivity.
Defined.

(** An initialization request, a request bearing the new id, a request
    without id that does not initialize, and a request with a forged id. *)
Lemma post_sse_routing_witness :
  let w' := step ex_env example_cfg world0 (PostSse (sse_request HAbsent "initialize")) in
  transports w' = <["uuid-0" := 0%nat]> ∅ ∧
  step ex_env example_cfg w' (PostSse (sse_request (HOne "uuid-0") "tools/list"))
    = with_res (Some (ByTransport 0)) w' ∧
  step ex_env example_cfg world0 (PostSse (sse_request HAbsent "tools/list"))
    = with_res (Some Server.MissingSessionError) world0 ∧
  step ex_env example_cfg world0 (PostSse (sse_request (HOne "forged") "tools/list"))
    = with_res (Some (Server.UnknownSessionError "forged")) world0.
Proof.
  intros w'. split; [|split; [|split]].
  - destruct (post_sse_routing ex_env example_cfg (sse_request HAbsent "initialize")
                world0 eq_refl) as [H _].
    destruct (H eq_refl eq_refl eq_refl eq_refl
                (initial_reachable ex_env example_cfg ∅)
                (example_uuids_distinct always_A2)
                (example_uuids_nonempty always_A2)) as (_ & _ & Hmap & _).
    exact Hmap.
  - destruct (post_sse_routing ex_env example_cfg (sse_request HAbsent "initialize")
                world0 eq_refl) as [H _].
    destruct (H eq_refl eq_refl eq_refl eq_refl
                (initial_reachable ex_env example_cfg ∅)
                (example_uuids_distinct always_A2)
                (example_uuids_nonempty always_A2)) as (_ & _ & _ & _ & Hlater).
    destruct (Hlater [] (sse_request (HOne "uuid-0") "tools/list") eq_refl eq_refl)
      as [_ Hfwd]; [discriminate|exact Hfwd].
  - destruct (post_sse_routing ex_env example_cfg (sse_request HAbsent "tools/list")
                world0 eq_refl) as (_ & H & _).
    exact (H eq_refl eq_refl).
  - destruct (post_sse_routing ex_env example_cfg
                (sse_request (HOne "forged") "tools/list") world0 eq_refl)
      as (_ & _ & H).
    exact (H "forged" eq_refl eq_refl eq_refl).
Defined.

(** After the closure of the transport of session "uuid-0", the entry is
    kept and a request bearing the id is handed to the closed transport. *)
Lemma session_entries_never_removed_witness :
  let w := step ex_env example_cfg world0 (PostSse (sse_request HAbsent "initialize")) in
  let w' := step ex_env example_cfg w (TransportClosed 0) in
  transports w' = transports w ∧
  is_Some (transports (run ex_env example_cfg [login_request] w') !! "uuid-0") ∧
  step ex_env example_cfg w' (PostSse (sse_request (HOne "uuid-0") "tools/list"))
    = with_res (Some (ByTransport 0)) w'.
Proof.
  intros w w'.
  assert (reachable ex_env example_cfg w) as Hwf
    by apply step_reachable, initial_reachable.
  assert (reachable ex_env example_cfg w') as Hwf' by by apply step_reachable.
  split; [|split].
  - destruct (session_entries_never_removed ex_env example_cfg w Hwf) as [H _].
    exact (proj1 (H 0%nat)).
  - destruct (session_entries_never_removed ex_env example_cfg w' Hwf') as (_ & H & _).
    apply H. vm_compute. eauto.
  - destruct (session_entries_never_removed ex_env example_cfg w' Hwf') as (_ & _ & H).
    apply (H "uuid-0" 0%nat); [vm_compute; reflexivity|vm_compute; reflexivity
                               |reflexivity|reflexivity|reflexivity|discriminate].
Defined.

(** Two calls without a state parameter. *)
Lemma buildAuthorizationUrl_spec_witness :
  let params := {| state := None; scopes := Some ["read:sleep"]; redirect := None |} in
  let r1 := WhoopOAuthClient.buildAuthorizationUrl ex_env example_cfg params world0 in
  let r2 := WhoopOAuthClient.buildAuthorizationUrl ex_env example_cfg params (snd r1) in
  returned_state r1 = Some "uuid-0" ∧ posts (snd r1) = posts world0 ∧
  returned_state r2 ≠ returned_state r1.
Proof.
  intros params r1 r2.
  destruct (buildAuthorizationUrl_spec ex_env example_cfg params world0)
    as (st & w' & Hrun & Hposts & _ & Hfresh).
  destruct (Hfresh eq_refl) as (Hst & Hw' & Huniq).
  assert (r1 = (Ok (WhoopOAuthClient.authorizeUrl +:+ "?" +:+
                    qs_stringify ex_env
                      [ ("client_id", clientId example_cfg);
                        ("redirect_uri", default (redirectUri example_cfg) (redirect params));
                        ("response_type", "code");
                        ("scope", String.concat " "
                                    (default (defaultScopes example_cfg) (scopes params)));
                        ("state", st) ], st), w')) as Hr1 by exact Hrun.
  split; [|split].
  - unfold returned_state. rewrite Hr1, Hst. reflexivity.
  - rewrite Hr1. exact Hposts.
  - destruct r2 as [[[url2 st2]|e] w2'] eqn:Hr2; [|discriminate].
    unfold returned_state. rewrite Hr1. simpl. intros [= Heq]. revert Heq.
    apply (Huniq (example_uuids_distinct always_A2) params (snd r1) url2 st2 w2' eq_refl);
      [rewrite Hr1; simpl; lia|exact Hr2].
Defined.

(** The scenario of the specification: over an empty store no token can be
    resolved; after the login and the callback for the issued state, a
    record is committed and the token resolves. *)
Example authorization_scenario :
  let w1 := run ex_env example_cfg [login_request; callback_request] world0 in
  fst (WhoopApiClient.getAccessToken ex_env example_cfg "default" world0)
    = Throw WhoopApiClient.NotAuthorizedError ∧
  res w1 = Some (Send 200 "WHOOP authorization successful. You can close this window.") ∧
  pendingStates w1 = ∅ ∧
  fst (WhoopApiClient.getAccessToken ex_env example_cfg "default" w1) = Ok (Some "A2").
Proof. vm_compute. repeat split. Qed.

(** ** The further properties at work *)

(** A store file that is not JSON: nothing is returned and nothing is
    written. *)
Lemma unreadable_store_is_not_overwritten_witness :
  ∃ e,
    TokenStore.get "default" world_malformed = (Throw e, world_malformed) ∧
    TokenStore.set ex_env record_R1 "default" world_malformed
      = (Throw e, world_malformed) ∧
    TokenStore.clear ex_env "default" world_malformed = (Throw e, world_malformed).
Proof.
  apply (unreadable_store_is_not_overwritten ex_env "default" record_R1
           world_malformed (RegularFile Malformed)).
  - vm_compute. reflexivity.
  - left. reflexivity.
Defined.

(** A record set under "other" leaves the record under "default". *)
Lemma write_keeps_other_keys_witness :
  let w' := snd (TokenStore.set ex_env record_fresh "other" (world_with record_R1)) in
  TokenStore.get "default" w' = (Ok (Some (Own record_R1)), w').
Proof.
  intros w'.
  destruct (write_keeps_other_keys ex_env "other" "default" record_fresh
              (world_with record_R1) w' (Some (Own record_R1))) as [H _].
  - discriminate.
  - apply run_eq. vm_compute. reflexivity.
  - apply H. apply run_eq. vm_compute. reflexivity.
Defined.

(** On a disk where [/data] cannot be created, the store moves to the
    temporary directory, once. *)
Lemma ensureDir_moves_once_witness :
  let w0 := initial readonly_env example_cfg ∅ in
  let w1 := snd (TokenStore.ensureDir readonly_env w0) in
  absolutePath w1 = "/tmp/whoop-tokens/whoop-tokens.json" ∧
  absolutePath (snd (TokenStore.ensureDir readonly_env w1)) = absolutePath w1.
Proof.
  intros w0 w1.
  destruct (ensureDir_moves_once readonly_env w0) as (Hpath & _ & Honce).
  split.
  - destruct Hpath as [Hsame | (_ & _ & Hmoved)].
    + vm_compute in Hsame. discriminate.
    + exact Hmoved.
  - apply Honce. intros base. reflexivity.
Defined.

(** On the disk where [/data] cannot be created the earlier store fails
    where the later one goes on; on the writable disk they agree. *)
Lemma fallback_store_refines_plain_store_witness :
  let w0 := initial readonly_env example_cfg ∅ in
  PlainTokenStore.set readonly_env record_R1 "default" w0
    = (Throw (ErrnoException "EROFS" "read-only file system"), w0) ∧
  fst (TokenStore.set readonly_env record_R1 "default" w0) = Ok tt ∧
  PlainTokenStore.set ex_env record_R1 "default" world0
    = TokenStore.set ex_env record_R1 "default" world0.
Proof.
  intros w0. split; [|split].
  - destruct (fallback_store_refines_plain_store readonly_env "default" record_R1 w0)
      as (_ & _ & H & _).
    destruct (H eq_refl ∅ eq_refl) as (err & Herr & Hset & _).
    injection Herr as <-. exact Hset.
  - vm_compute. reflexivity.
  - destruct (fallback_store_refines_plain_store ex_env "default" record_R1 world0)
      as (_ & H & _).
    destruct (H eq_refl) as [Hset _]. exact Hset.
Defined.

(** The provider refuses the first POST: the exchange throws the axios
    error after one POST, and the store is as it was. *)
Lemma failed_provider_call_keeps_store_witness :
  let env := example_env refuse_first in
  let w := world_with record_R1 in
  ∃ e w',
    WhoopOAuthClient.exchangeCode env example_cfg "abc" "default"
      (redirectUri example_cfg) w = (Throw e, w') ∧
    length (posts w') = 1%nat ∧
    fst (TokenStore.get "default" w') = Ok (Some (Own record_R1)).
Proof.
  intros env w.
  destruct (failed_provider_call_keeps_store env example_cfg "default" w
              (AxiosError "Request failed with status code 400"
                 (Some (400, DataJson "{}")))) as [H _].
  destruct (H "abc" (redirectUri example_cfg)) as (w' & Hrun & Hlen & Hkeys);
    [reflexivity|].
  eexists _, w'. split; [exact Hrun|]. split; [exact Hlen|].
  rewrite Hkeys. vm_compute. reflexivity.
Defined.

(** The scenario of the expired record: the first resolution refreshes, the
    second returns the refreshed token without a POST. *)
Lemma refreshed_token_is_reused_witness :
  let w := world_with record_R1 in
  let w' := snd (WhoopOAuthClient.refreshToken ex_env example_cfg "default"
                   (clock_read w)) in
  WhoopApiClient.getAccessToken ex_env example_cfg "default" w = (Ok (Some "A2"), w') ∧
  WhoopApiClient.getAccessToken ex_env example_cfg "default" w'
    = (Ok (Some "A2"), clock_read w') ∧
  posts (clock_read w') = posts w'.
Proof.
  intros w w'.
  apply (refreshed_token_is_reused ex_env example_cfg "default" w w' record_R1
           (normalized 1700000000001 reply_A2 (Some (Own record_R1)))).
  - apply run_eq. vm_compute. reflexivity.
  - vm_compute. discriminate.
  - apply run_eq. vm_compute. reflexivity.
  - vm_compute. reflexivity.
Defined.

(** A code exchange for "other" leaves the record under "default". *)
Lemma token_commit_keeps_other_keys_witness :
  let out := WhoopOAuthClient.exchangeCode ex_env example_cfg "abc" "other"
               (redirectUri example_cfg) (world_with record_R1) in
  TokenStore.get "default" (snd out) = (Ok (Some (Own record_R1)), snd out).
Proof.
  intros out.
  destruct (token_commit_keeps_other_keys ex_env example_cfg "other" "default"
              (world_with record_R1) (snd out)
              (normalized 1700000000000 reply_A2 None) (Some (Own record_R1))) as [H _].
  - discriminate.
  - apply run_eq. vm_compute. reflexivity.
  - apply (H "abc" (redirectUri example_cfg)). apply run_eq. vm_compute. reflexivity.
Defined.

(** With the key "k3y" configured: the key as a bearer token passes, the
    key in [x-api-key] is not looked at beside another Authorization
    header. *)
Lemma validateApiKey_accepts_witness :
  let bearer := {| authorization := HOne "Bearer k3y"; x_api_key := HAbsent;
                   mcp_session_id := HAbsent; body := "" |} in
  let shadowed := {| authorization := HOne "Bearer wrong"; x_api_key := HOne "k3y";
                     mcp_session_id := HAbsent; body := "" |} in
  Server.validateApiKey keyed_cfg bearer world0 = (Ok true, world0) ∧
  Server.validateApiKey keyed_cfg shadowed world0 ≠ (Ok true, world0).
Proof.
  intros bearer shadowed. split.
  - destruct (validateApiKey_accepts keyed_cfg bearer world0) as [_ H].
    destruct (H "k3y" eq_refl eq_refl) as [Hiff _].
    apply Hiff. left. reflexivity.
  - destruct (validateApiKey_accepts keyed_cfg shadowed world0) as [_ H].
    destruct (H "k3y" eq_refl eq_refl) as [Hiff _].
    intros Hpass. apply Hiff in Hpass.
    destruct Hpass as [Hp | [[Hp _] | [Hp _]]]; discriminate Hp.
Defined.

(** A login, after a session has been initialized, leaves the session
    where it is. *)
Lemma oauth_routes_leave_sessions_alone_witness :
  let w := step ex_env example_cfg world0 (PostSse (sse_request HAbsent "initialize")) in
  let w' := step ex_env example_cfg w login_request in
  transports w' = transports w ∧ transports w' !! "uuid-0" = Some 0%nat.
Proof.
  intros w w'.
  destruct (oauth_routes_leave_sessions_alone ex_env example_cfg w login_request)
    as (Ht & _).
  - intros req. split; discriminate.
  - split; [exact Ht|]. fold w' in Ht. rewrite Ht. vm_compute. reflexivity.
Defined.

(** A second login draws a second state and keeps the first registration. *)
Lemma login_registers_fresh_state_witness :
  let w := step ex_env example_cfg world0 login_request in
  let w' := step ex_env example_cfg w (GetLogin (QString "alice") QAbsent QAbsent) in
  pendingStates w' !! "uuid-1" = Some {| key := "alice"; successRedirect := None |} ∧
  pendingStates w' !! "uuid-0" = Some {| key := "default"; successRedirect := None |}.
Proof.
  intros w w'.
  destruct (login_registers_fresh_state ex_env example_cfg (QString "alice") QAbsent
              QAbsent w) as (Hreg & _ & _ & _ & Hfresh).
  split.
  - change (pendingStates w' !! "uuid-1") with
      (pendingStates (step ex_env example_cfg w
                        (GetLogin (QString "alice") QAbsent QAbsent)) !! "uuid-1").
    rewrite Hreg. apply lookup_insert_eq.
  - destruct Hfresh as [_ Hkept].
    + apply step_reachable, initial_reachable.
    + apply example_uuids_distinct.
    + apply Hkept. vm_compute. reflexivity.
Defined.

(** After one login, a callback with a state of the caller's own making is
    turned away. *)
Lemma callback_refuses_foreign_state_witness :
  let w := step ex_env example_cfg world0 login_request in
  step ex_env example_cfg w (GetCallback (QString "abc") (QString "forged"))
    = with_res (Some Server.UnknownOrExpiredState) w.
Proof.
  intros w. apply callback_refuses_foreign_state.
  - apply step_reachable, initial_reachable.
  - intros i Hi. change (uuidDraws w) with 1%nat in Hi.
    destruct i as [|i]; [discriminate|lia].
Defined.

(** Login for "alice" with a [next] address, then the callback; and the
    same for the key "__proto__": the callback answers that the
    authorization was successful, and the store is as empty as before. *)
Lemma login_then_callback_commits_witness :
  (let w1 := step ex_env example_cfg world0
               (GetLogin (QString "alice") (QString "/done") QAbsent) in
   let w' := step ex_env example_cfg w1 (GetCallback (QString "abc") (QString "uuid-0")) in
   TokenStore.get "alice" w'
   = (Ok (Some (Own (normalized 1700000000000 reply_A2 None))), w') ∧
   pendingStates w' !! "uuid-0" = None ∧
   res w' = Some (Redirect "/done"))
  ∧
  (let w1 := step ex_env example_cfg world0
               (GetLogin (QString "__proto__") QAbsent QAbsent) in
   let w' := step ex_env example_cfg w1 (GetCallback (QString "abc") (QString "uuid-0")) in
   res w' = Some (Send 200 "WHOOP authorization successful. You can close this window.") ∧
   TokenStore.get "__proto__" w' = (Ok (Some (Inherited "__proto__")), w') ∧
   read_contents w' = Ok ∅).
Proof.
  split.
  - intros w1 w'.
    destruct (login_then_callback_commits ex_env example_cfg (QString "alice")
                (QString "/done") QAbsent "abc" world0
                (normalized 1700000000000 reply_A2 None)
                (snd (WhoopOAuthClient.exchangeCode ex_env example_cfg "abc" "alice"
                        (redirectUri example_cfg) (with_res None w1))))
      as (Hget & _ & Hstate & Hres); [apply run_eq; vm_compute; reflexivity|].
    split; [apply Hget; by left|]. split; [exact Hstate|exact Hres].
  - intros w1 w'.
    destruct (login_then_callback_commits ex_env example_cfg (QString "__proto__")
                QAbsent QAbsent "abc" world0
                (normalized 1700000000000 reply_A2 None)
                (snd (WhoopOAuthClient.exchangeCode ex_env example_cfg "abc" "__proto__"
                        (redirectUri example_cfg) (with_res None w1))))
      as (_ & Hlost & _ & Hres); [apply run_eq; vm_compute; reflexivity|].
    destruct (Hlost world0_proto_not_assignable) as (_ & Hget & Hread).
    split; [exact Hres|]. split; [exact Hget|].
    exact (eq_trans Hread eq_refl).
Defined.

(** [GET /sse] without a session id, with an unknown one, and with the id
    of an initialized session. *)
Lemma get_sse_routing_witness :
  let w := step ex_env example_cfg world0 (PostSse (sse_request HAbsent "initialize")) in
  step ex_env example_cfg w (GetSse (sse_request HAbsent ""))
    = with_res (Some (Send 400 "Missing MCP session ID.")) w ∧
  step ex_env example_cfg w (GetSse (sse_request (HOne "nobody") ""))
    = with_res (Some (Send 404 "Unknown MCP session: nobody")) w ∧
  step ex_env example_cfg w (GetSse (sse_request (HOne "uuid-0") ""))
    = with_res (Some (ByTransport 0)) w.
Proof.
  intros w. split; [|split].
  - destruct (get_sse_routing ex_env example_cfg (sse_request HAbsent "") w)
      as [_ H].
    destruct H as (H & _); [reflexivity|]. apply H. reflexivity.
  - destruct (get_sse_routing ex_env example_cfg (sse_request (HOne "nobody") "") w)
      as [_ H].
    destruct H as (_ & H & _); [reflexivity|].
    apply (H "nobody"); [reflexivity|reflexivity|vm_compute; reflexivity].
  - destruct (get_sse_routing ex_env example_cfg (sse_request (HOne "uuid-0") "") w)
      as [_ H].
    destruct H as (_ & _ & H); [reflexivity|].
    apply (H "uuid-0" 0%nat); [reflexivity|reflexivity|vm_compute; reflexivity|].
    intros e sent. discriminate.
Defined.

(** Two initializations give two sessions with transports of their own. *)
Lemma sessions_do_not_share_transports_witness :
  let w := run ex_env example_cfg
             [PostSse (sse_request HAbsent "initialize");
              PostSse (sse_request HAbsent "initialize")] world0 in
  transports w !! "uuid-1" = Some 1%nat ∧
  (∀ s, transports w !! s = Some 1%nat → "uuid-1" = s) ∧
  sessionIdOf w !! 1%nat = Some "uuid-1".
Proof.
  intros w.
  assert (transports w !! "uuid-1" = Some 1%nat) as Hs by (vm_compute; reflexivity).
  split; [exact Hs|].
  destruct (sessions_do_not_share_transports ex_env example_cfg w "uuid-1")
    with (t := 1%nat) (s2 := "uuid-1") as (_ & _ & Hid);
    [apply run_reachable, initial_reachable|exact Hs|].
  split; [|exact Hid].
  intros s. apply (sessions_do_not_share_transports ex_env example_cfg w "uuid-1" s 1%nat);
    [apply run_reachable, initial_reachable|exact Hs].
Defined.

(** A refusal with status 401, and an axios error without a message. *)
Lemma parseHttpError_reports_witness :
  status (parseHttpError (AxiosError "Request failed" (Some (401, DataJson "{}"))))
    = Some 401 ∧
  message (parseHttpError (AxiosError "" None)) ≠ "".
Proof.
  split.
  - destruct (parseHttpError_reports
                (AxiosError "Request failed" (Some (401, DataJson "{}")))) as [H _].
    apply H. split; [discriminate|]. by eexists _, _.
  - destruct (parseHttpError_reports (AxiosError "" None)) as (_ & H & _).
    by apply (H "" None).
Defined.

(** A request with a header of the caller's, over a store with a valid
    record: one request goes out, with the stored token. The same request
    for the key "constructor" over the empty store: one request goes out,
    with "Bearer undefined". *)
Lemma request_carries_stored_token_witness :
  let config := {| Api.method := "GET"; Api.url := "/v2/cycle"; Api.params := None;
                   Api.headers := Some {[ "Authorization" := "mine";
                                          "Accept" := "application/json" ]} |} in
  (let out := Api.request ex_env example_cfg example_api config "default"
                (api_world (world_with record_fresh)) in
   fst out = Ok "/v2/cycle" ∧
   ∃ sent hs, Api.requests (snd out) = [sent] ∧ Api.headers sent = Some hs ∧
              hs !! "Authorization" = Some "Bearer A1" ∧
              hs !! "Accept" = Some "application/json")
  ∧
  (let out := Api.request ex_env example_cfg example_api config "constructor"
                (api_world world0) in
   fst out = Ok "/v2/cycle" ∧
   ∃ sent hs, Api.requests (snd out) = [sent] ∧ Api.headers sent = Some hs ∧
              hs !! "Authorization" = Some "Bearer undefined" ∧
              read_contents (Api.world (snd out)) = Ok ∅).
Proof.
  intros config. split.
  - intros out.
    destruct (request_carries_stored_token ex_env example_cfg example_api config "default"
                (api_world (world_with record_fresh))) as [_ H].
    destruct (H (Some "A1") (clock_read (world_with record_fresh)))
      as (sent & hs & Hout & _ & Hurl & _ & Hh & Hrest & v & c & Hget & _ & Hv).
    { apply run_eq. vm_compute. reflexivity. }
    assert (fst (TokenStore.get "default" (clock_read (world_with record_fresh)))
            = Ok (Some (Own record_fresh))) as Hfresh by (vm_compute; reflexivity).
    rewrite Hget in Hfresh. injection Hfresh as ->. destruct Hv as [_ Hauth].
    fold out in Hout. rewrite Hout. cbn [fst snd Api.requests api_world app].
    split; [unfold example_api; by rewrite Hurl|].
    exists sent, hs. split; [reflexivity|]. split; [exact Hh|]. split; [exact Hauth|].
    rewrite Hrest by discriminate. vm_compute. reflexivity.
  - intros out.
    destruct (request_carries_stored_token ex_env example_cfg example_api config
                "constructor" (api_world world0)) as [_ H].
    destruct (H None (clock_read world0))
      as (sent & hs & Hout & _ & Hurl & _ & Hh & _ & v & c & Hget & _ & Hv).
    { apply run_eq. vm_compute. reflexivity. }
    assert (fst (TokenStore.get "constructor" (clock_read world0))
            = Ok (Some (Inherited "constructor"))) as Hmember
      by (vm_compute; reflexivity).
    rewrite Hget in Hmember. injection Hmember as ->. destruct Hv as (_ & _ & Hauth).
    fold out in Hout. rewrite Hout. cbn [fst snd Api.requests api_world app].
    split; [unfold example_api; by rewrite Hurl|].
    exists sent, hs. split; [reflexivity|]. split; [exact Hh|]. split; [exact Hauth|].
    reflexivity.
Defined.

(** One cycle is asked for, over a store with a valid record; and for the
    key "constructor" over the empty store. *)
Lemma api_calls_are_authorized_gets_witness :
  (let out := Api.call ex_env example_cfg example_api (Api.GetCycleById 42) "default"
                (api_world (world_with record_fresh)) in
   ∃ sent, Api.requests (snd out) = [sent] ∧ Api.method sent = "GET" ∧
           Api.headers sent = Some {[ "Authorization" := "Bearer A1" ]} ∧
           fst out = Ok "/v2/cycle/42")
  ∧
  (let out := Api.call ex_env example_cfg example_api (Api.GetCycleById 42) "constructor"
                (api_world world0) in
   ∃ sent, Api.requests (snd out) = [sent] ∧ Api.method sent = "GET" ∧
           Api.headers sent = Some {[ "Authorization" := "Bearer undefined" ]} ∧
           fst out = Ok "/v2/cycle/42").
Proof.
  split.
  - intros out.
    destruct (api_calls_are_authorized_gets ex_env example_cfg example_api
                (Api.GetCycleById 42) "default" (api_world (world_with record_fresh)))
      as [(e & _ & _ & Hthrow)
         | (sent & v & c & Hreq & Hout & Hget & _ & _ & Hstored & _ & Hv)].
    + vm_compute in Hthrow. discriminate.
    + exists sent. fold out in Hreq, Hout, Hstored. split; [exact Hreq|].
      split; [exact Hget|].
      assert (fst (TokenStore.get "default" (Api.world (snd out)))
              = Ok (Some (Own record_fresh)))
        as Hfresh by (vm_compute; reflexivity).
      rewrite Hstored in Hfresh. injection Hfresh as ->. destruct Hv as [_ Hh].
      split; [exact Hh|]. vm_compute. reflexivity.
  - intros out.
    destruct (api_calls_are_authorized_gets ex_env example_cfg example_api
                (Api.GetCycleById 42) "constructor" (api_world world0))
      as [(e & _ & _ & Hthrow)
         | (sent & v & c & Hreq & Hout & Hget & _ & _ & Hstored & _ & Hv)].
    + vm_compute in Hthrow. discriminate.
    + exists sent. fold out in Hreq, Hout, Hstored. split; [exact Hreq|].
      split; [exact Hget|].
      assert (fst (TokenStore.get "constructor" (Api.world (snd out)))
              = Ok (Some (Inherited "constructor")))
        as Hmember by (vm_compute; reflexivity).
      rewrite Hstored in Hmember. injection Hmember as ->.
      destruct Hv as (_ & _ & Hh).
      split; [exact Hh|]. vm_compute. reflexivity.
Defined.

(** An empty environment, and the example environment without the client
    secret. *)
Lemma config_required_witness :
  config ∅ = Throw (JsError "Missing required environment variable PUBLIC_BASE_URL") ∧
  config (delete "WHOOP_CLIENT_SECRET" example_process_env)
    = Throw (JsError "Missing required environment variable WHOOP_CLIENT_SECRET") ∧
  ∃ c, config example_process_env = Ok c.
Proof.
  split; [|split].
  - destruct (config_required ∅) as (_ & H & _). apply H. reflexivity.
  - destruct (config_required (delete "WHOOP_CLIENT_SECRET" example_process_env))
      as (_ & _ & _ & H & _).
    apply H; vm_compute; reflexivity.
  - destruct (config_required example_process_env) as (H & _).
    apply H. vm_compute. repeat split.
Defined.

(** The example configuration is loaded from an environment without
    [MCP_API_KEY]: a request without any header passes. *)
Lemma no_api_key_opens_the_gate_witness :
  config example_process_env = Ok example_cfg ∧
  Server.validateApiKey example_cfg (sse_request HAbsent "") world0 = (Ok true, world0).
Proof.
  assert (config example_process_env = Ok example_cfg) as Hload
    by (vm_compute; reflexivity).
  split; [exact Hload|].
  apply (no_api_key_opens_the_gate example_process_env example_cfg Hload).
  vm_compute. reflexivity.
Defined.

(** An entry of a list written with spaces and an empty item. *)
Lemma parseScopes_entries_witness :
  parseScopes " read:sleep , ,read:cycles" = ["read:sleep"; "read:cycles"] ∧
  ¬ (","%char ∈ chars "read:sleep") ∧
  parseScopes " , " = [].
Proof.
  split; [vm_compute; reflexivity|]. split.
  - destruct (parseScopes_entries " read:sleep , ,read:cycles") as [H _].
    destruct (H "read:sleep") as (_ & Hcomma & _); [|exact Hcomma].
    vm_compute. left.
  - destruct (parseScopes_entries " , ") as [_ H]. apply H.
    intros c Hc. vm_compute in Hc.
    repeat (apply elem_of_cons in Hc as [->|Hc]); [right|left|right|]; try reflexivity.
    by apply elem_of_nil in Hc.
Defined.

(** [WHOOP_SCOPES] set to a blank string, and a login with [?scopes= , ]. *)
Lemma blank_scopes_are_not_defaulted_witness :
  (∀ c, config (<["WHOOP_SCOPES" := " , "]> example_process_env) = Ok c →
        defaultScopes c = []) ∧
  res (step ex_env example_cfg world0 (GetLogin QAbsent QAbsent (QString " , ")))
  = Some (Redirect
      ("https://api.prod.whoop.com/oauth/oauth2/auth?client_id=client" +:+
       "&redirect_uri=https://whoop.example.com/oauth/whoop/callback" +:+
       "&response_type=code&scope=&state=uuid-0")).
Proof.
  assert (blank " , ") as Hblank.
  { intros c Hc. vm_compute in Hc.
    repeat (apply elem_of_cons in Hc as [->|Hc]); [right|left|right|]; try reflexivity.
    by apply elem_of_nil in Hc. }
  destruct (blank_scopes_are_not_defaulted ex_env example_cfg " , " Hblank)
    as [Hcfg Hlogin].
  split.
  - intros c Hc. destruct (Hcfg _ c Hc) as [H _]. apply H. vm_compute. reflexivity.
  - rewrite Hlogin. vm_compute. reflexivity.
Defined.

(** The health check before and after the first record is stored. *)
Lemma healthz_reports_witness :
  healthz world0 = (Ok (HealthOk false), world0) ∧
  (let w' := snd (TokenStore.set ex_env record_R1 "default" world0) in
   healthz w' = (Ok (HealthOk true), w')) ∧
  ∃ message, healthz world_malformed = (Ok (HealthError message), world_malformed).
Proof.
  split; [|split].
  - destruct (healthz_reports ex_env world0) as (reply & Hrun & _ & Hfalse & _).
    rewrite Hrun. f_equal. f_equal. apply Hfalse. apply run_eq. vm_compute. reflexivity.
  - intros w'.
    destruct (healthz_reports ex_env world0) as (_ & _ & _ & _ & _ & Hset & _).
    apply (Hset record_R1). apply run_eq. vm_compute. reflexivity.
  - destruct (healthz_reports ex_env world_malformed)
      as (reply & Hrun & _ & _ & Herr & _).
    exists "Unexpected token in JSON". rewrite Hrun. f_equal. f_equal.
    apply Herr. eexists. split; [apply run_eq; vm_compute; reflexivity|].
    vm_compute. reflexivity.
Defined.


(** A record stored through the Supabase backend is read back; when the
    service fails the second query, the read throws its message. *)
Lemma supabase_store_contract_witness :
  let d' := snd (Supabase.set supabase_up prod_store record_R1 "default" empty_remote) in
  fst (Supabase.get supabase_up prod_store "default" d') = Ok (Some record_R1) ∧
  fst (Supabase.get supabase_up prod_store "other" d') = Ok None ∧
  fst (Supabase.get supabase_flaky prod_store "default"
         (snd (Supabase.set supabase_flaky prod_store record_R1 "default" empty_remote)))
    = Throw (JsError "Failed to read token from Supabase: timeout").
Proof.
  intros d'. split; [|split].
  - destruct (supabase_store_contract supabase_up prod_store "default" empty_remote)
      as [H _].
    apply H; reflexivity.
  - destruct (supabase_store_contract supabase_up prod_store "default" empty_remote)
      as (_ & _ & H & _).
    apply (H "other" record_R1 d' None); [discriminate|left; reflexivity
                                         |vm_compute; reflexivity|reflexivity].
  - destruct (supabase_store_contract supabase_flaky prod_store "default"
                (snd (Supabase.set supabase_flaky prod_store record_R1 "default"
                        empty_remote))) as (_ & _ & _ & H).
    destruct (H "timeout") as (d2 & _ & Hget & _); [reflexivity|].
    rewrite Hget. reflexivity.
Defined.

(** With the two Supabase variables set, the Supabase backend is chosen,
    on the default table, and "default" is kept in the row "prod:default". *)
Lemma backend_choice_witness :
  ∃ store,
    Backends.backend_of supabase_process_env = Backends.SupabaseBackend store ∧
    Supabase.table store = "whoop_tokens" ∧
    Supabase.mapKey store "default" = "prod:default" ∧
    Backends.backend_of example_process_env = Backends.FileBackend.
Proof.
  destruct (backend_choice supabase_process_env) as [_ H].
  exists prod_store.
  assert (Backends.backend_of supabase_process_env = Backends.SupabaseBackend prod_store)
    as Hb by (vm_compute; reflexivity).
  split; [exact Hb|].
  destruct (H prod_store Hb) as (Htable & _ & Hkey).
  split; [rewrite Htable; vm_compute; reflexivity|].
  split.
  - rewrite (Hkey "prod"); [reflexivity|vm_compute; reflexivity|discriminate].
  - destruct (backend_choice example_process_env) as [Hfile _].
    apply Hfile. left. vm_compute. reflexivity.
Defined.

(** The same calls through the interface, on either backend; and a [set]
    under "__proto__", which the table keeps and the file does not. *)
Lemma backends_keep_the_store_contract_witness :
  let s := (world0, empty_remote) in
  let file := Backends.TokenStore ex_env supabase_up Backends.FileBackend in
  let remote := Backends.TokenStore ex_env supabase_up
                  (Backends.SupabaseBackend prod_store) in
  fst (@Backends.adapter_get _ file "default"
         (snd (@Backends.adapter_set _ file record_R1 "default" s)))
    = Ok (Some (Own record_R1)) ∧
  fst (@Backends.adapter_get _ remote "default"
         (snd (@Backends.adapter_set _ remote record_R1 "default" s)))
    = Ok (Some (Own record_R1)) ∧
  fst (snd (@Backends.adapter_set _ remote record_R1 "default" s)) = world0 ∧
  fst (@Backends.adapter_get _ file "__proto__"
         (snd (@Backends.adapter_set _ file record_R1 "__proto__" s)))
    = Ok (Some (Inherited "__proto__")) ∧
  fst (@Backends.adapter_get _ remote "__proto__"
         (snd (@Backends.adapter_set _ remote record_R1 "__proto__" s)))
    = Ok (Some (Own record_R1)).
Proof.
  intros s file remote. split; [|split; [|split; [|split]]].
  - destruct (backends_keep_the_store_contract ex_env supabase_up Backends.FileBackend
                record_R1 "default" s) as (_ & H & _).
    fold file in H. destruct H as [H _]; [vm_compute; reflexivity|].
    rewrite H; [reflexivity|by left].
  - destruct (backends_keep_the_store_contract ex_env supabase_up
                (Backends.SupabaseBackend prod_store) record_R1 "default" s)
      as (_ & H & _).
    apply H; reflexivity.
  - destruct (backends_keep_the_store_contract ex_env supabase_up
                (Backends.SupabaseBackend prod_store) record_R1 "default" s)
      as ((_ & H & _) & _).
    exact H.
  - destruct (backends_keep_the_store_contract ex_env supabase_up Backends.FileBackend
                record_R1 "__proto__" s) as (_ & H & _).
    fold file in H. destruct H as [_ H]; [vm_compute; reflexivity|].
    destruct (H world0_proto_not_assignable) as [_ Hget].
    rewrite Hget. reflexivity.
  - destruct (backends_keep_the_store_contract ex_env supabase_up
                (Backends.SupabaseBackend prod_store) record_R1 "__proto__" s)
      as (_ & H & _).
    apply H; reflexivity.
Defined.

(** Five and a half hours west, and ninety-nine minutes east. *)
Lemma parseOffsetMinutes_spec_witness :
  Metrics.parseOffsetMinutes (Some "-05:30") = Some (-330) ∧
  Metrics.parseOffsetMinutes (Some "+00:99") = Some 99.
Proof.
  destruct parseOffsetMinutes_spec as [H _]. split.
  - apply (H true 0%nat 5%nat 3%nat 0%nat); lia.
  - apply (H false 0%nat 0%nat 9%nat 9%nat); lia.
Defined.

(** On 10 March 2024 at 20:00 UTC, a sleep that ended at 06:30 UTC with the
    offset -05:00 is of the day; the same record without its offset is
    not. *)
Lemma isSameLocalDate_spec_witness :
  Metrics.isSameLocalDate example_lib sleep_today reference_time = true ∧
  Metrics.isSameLocalDate example_lib sleep_no_offset reference_time = false.
Proof.
  split.
  - destruct (isSameLocalDate_spec example_lib sleep_today reference_time)
      as (_ & _ & H).
    destruct (H (-300) 1710052200000) as [Hsame _].
    + reflexivity.
    + reflexivity.
    + unfold in_date_range. lia.
    + unfold in_date_range, reference_time. lia.
    + apply Hsame. reflexivity.
  - destruct (isSameLocalDate_spec example_lib sleep_no_offset reference_time)
      as (H & _).
    apply H. reflexivity.
Defined.

(** The record of the day is picked wherever it stands; with no record of
    the day, the first one is. *)
Lemma pickRecordForToday_spec_witness :
  Metrics.pickRecordForToday id example_lib [sleep_yesterday; sleep_today] reference_time
    = Some sleep_today ∧
  Metrics.pickRecordForToday id example_lib [sleep_yesterday; sleep_no_offset]
    reference_time = Some sleep_yesterday.
Proof.
  split.
  - destruct (pickRecordForToday_spec id example_lib [sleep_yesterday; sleep_today]
                reference_time) as (_ & H & _).
    apply (H [sleep_yesterday] sleep_today []).
    + reflexivity.
    + intros x [<-|[]]. vm_compute. reflexivity.
    + vm_compute. reflexivity.
  - destruct (pickRecordForToday_spec id example_lib [sleep_yesterday; sleep_no_offset]
                reference_time) as (_ & _ & H & _).
    apply H. intros x [<-|[<-|[]]]; vm_compute; reflexivity.
Defined.
